(** * go-appserver: worker lifecycle, pool dispatch, stream relay and SSE hub

    A shallow embedding of the Go package [server]: the worker
    (admission, restart, unary [Handle] with its retry loop, [Stream] and the
    frame relay of [streamInternal]), the round-robin pool ([NextWorker],
    [Dispatch], [ScaleTo]) and the pub/sub hub ([Subscribe], [Unsubscribe]).

    Conventions of the embedding.
    - A goroutine-free, sequential reading of the code: every call runs to
      completion before the next one starts.  Locks are therefore invisible,
      except where a method would re-lock a mutex it already holds.
    - A call ends in one of the four ways of [outcome]: it returns a value,
      returns an error, never returns, or panics.
    - Time is not modelled: the bytes of a child are there when they are
      read, or they never come.
    - The PHP child process is the environment.  It is a value of type [Proc]:
      the bytes it will still write on its stdout, what a read does once they
      are used up, and whether a write on its stdin fails.
    - Pointers to workers are addresses into a heap, so that a worker removed
      from a pool can still be observed and two slots may alias. *)

From Stdlib Require Import ZArith Lia Bool Ascii String List.
From Stdlib Require Import Strings.Byte.
From stdpp Require Import base option list gmap strings.

Local Open Scope string_scope.
Local Open Scope list_scope.
Local Open Scope Z_scope.

(** ** Go values *)

(** Go's [error] interface.  The sentinel values are compared by identity in
    the source ([err == io.EOF]); every other error is known by its text. *)
Inductive error : Type :=
  | io_EOF
  | io_ErrUnexpectedEOF
  | ErrWorkerDead
  | ErrWorkerDraining
  | ErrNoWorkers
  | errorString (msg : string).

(** [err.Error()] *)
Definition Error (err : error) : string :=
  match err with
  | io_EOF => "EOF"
  | io_ErrUnexpectedEOF => "unexpected EOF"
  | ErrWorkerDead => "worker is dead"
  | ErrWorkerDraining => "worker is draining"
  | ErrNoWorkers => "no workers available"
  | errorString msg => msg
  end.

(** [err == sentinel], for the two sentinels the source compares with. *)
Definition is_EOF (err : error) : bool :=
  match err with io_EOF => true | _ => false end.
Definition is_ErrUnexpectedEOF (err : error) : bool :=
  match err with io_ErrUnexpectedEOF => true | _ => false end.

(** What a call does: return a value, return an error, never return, or
    panic. *)
Inductive outcome (A : Type) : Type :=
  | Done (a : A)
  | Failed (e : error)
  | Blocked
  | Panic (msg : string).
Arguments Done {A} a.
Arguments Failed {A} e.
Arguments Blocked {A}.
Arguments Panic {A} msg.

(** [strings.HasPrefix s p] and [strings.Contains s sub] on byte strings. *)
Fixpoint HasPrefix (s p : string) : bool :=
  match p, s with
  | EmptyString, _ => true
  | String c p', String d s' => Ascii.eqb c d && HasPrefix s' p'
  | String _ _, EmptyString => false
  end.

Fixpoint Contains (s sub : string) : bool :=
  HasPrefix s sub ||
  match s with
  | EmptyString => false
  | String _ s' => Contains s' sub
  end.

(** [strings.Join vs sep] *)
Fixpoint Join (vs : list string) (sep : string) : string :=
  match vs with
  | [] => ""
  | [v] => v
  | v :: rest => v +:+ sep +:+ Join rest sep
  end.

(** ** Fixed-width integers *)

Definition wrap_uint32 (z : Z) : Z := z mod 2 ^ 32.
Definition wrap_uint64 (z : Z) : Z := z mod 2 ^ 64.
(** Conversion to Go's [int] (64 bits, two's complement). *)
Definition wrap_int (z : Z) : Z := (z + 2 ^ 63) mod 2 ^ 64 - 2 ^ 63.

Definition byte_of_Z (z : Z) : byte :=
  match Byte.of_N (Z.to_N (z mod 256)) with
  | Some b => b
  | None => Byte.x00
  end.
Definition Z_of_byte (b : byte) : Z := Z.of_N (Byte.to_N b).

(** [binary.BigEndian.PutUint32] and [binary.BigEndian.Uint32] *)
Definition PutUint32 (v : Z) : list byte :=
  [ byte_of_Z (Z.shiftr v 24); byte_of_Z (Z.shiftr v 16);
    byte_of_Z (Z.shiftr v 8); byte_of_Z v ].

Definition Uint32 (b : list byte) : Z :=
  match b with
  | [b0; b1; b2; b3] =>
      Z.lor (Z.lor (Z.lor (Z.shiftl (Z_of_byte b0) 24) (Z.shiftl (Z_of_byte b1) 16))
                   (Z.shiftl (Z_of_byte b2) 8))
            (Z_of_byte b3)
  | _ => 0
  end.

(** The hard upper bound on a declared frame length: [10*1024*1024]. *)
Definition maxFrameLen : Z := 10 * 1024 * 1024.

(** ** Payloads *)

(** Modelled from the spec: the declaration of [RequestPayload] is not among
    the sources; the fields are those of the wire protocol table. *)
Record RequestPayload : Type := {
  req_ID : string;
  req_Method : string;
  req_Path : string;
  req_Headers : list (string * string);
  req_Body : string
}.

(** Modelled from the spec: the declaration of [ResponsePayload] is not among
    the sources. *)
Record ResponsePayload : Type := {
  resp_Status : Z;
  resp_Headers : list (string * string);
  resp_Body : string
}.

(** Modelled from the spec: the declaration of [StreamFrame] is not among the
    sources; [streamInternal] reads the fields [Type], [Status], [Headers],
    [Data] and [Error].  [frame_Headers] is [None] for a nil map; a non-nil
    map is listed in the order in which one [range] over it visits the keys
    (Go leaves that order unspecified, so every order of the list is a
    possible run). *)
Record StreamFrame : Type := {
  frame_Type : string;
  frame_Status : Z;
  frame_Headers : option (list (string * list string));
  frame_Data : string;
  frame_Error : string
}.

(** The library functions the package calls and whose results it only passes
    on: the JSON codec, [strings.ToLower], [time.Duration.String] and
    [fmt]'s [%q]. *)
Record GoLib : Type := {
  json_Marshal : RequestPayload -> error + list byte;
  json_Unmarshal_resp : list byte -> error + ResponsePayload;
  json_Unmarshal_frame : list byte -> error + StreamFrame;
  ToLower : string -> string;
  Duration_String : Z -> string;
  quote : string -> string
}.

(** ** The child process *)

(** What a read on the child's stdout does once the pending bytes are used
    up: fail with an error ([io.EOF] when the child has exited), or wait for
    ever (a child that stays alive and silent). *)
Inductive ReadEnd : Type :=
  | EndErr (e : error)
  | EndSilent.

Record Proc : Type := {
  p_written : list byte;            (* bytes accepted on stdin so far *)
  p_refuse : nat -> option error;   (* given the number of bytes accepted so
                                       far: the error of the next Write *)
  p_pending : list byte;            (* bytes still to come on stdout *)
  p_end : ReadEnd;
  p_closed : bool;                  (* stdin and stdout closed by the server *)
  p_killed : bool                   (* Process.Kill and Process.Wait done *)
}.

Definition set_written (p : Proc) (l : list byte) : Proc :=
  {| p_written := l; p_refuse := p_refuse p; p_pending := p_pending p;
     p_end := p_end p; p_closed := p_closed p; p_killed := p_killed p |}.
Definition set_pending (p : Proc) (l : list byte) : Proc :=
  {| p_written := p_written p; p_refuse := p_refuse p; p_pending := l;
     p_end := p_end p; p_closed := p_closed p; p_killed := p_killed p |}.
Definition Close (p : Proc) : Proc :=
  {| p_written := p_written p; p_refuse := p_refuse p; p_pending := p_pending p;
     p_end := p_end p; p_closed := true; p_killed := p_killed p |}.
(** [cmd.Process.Kill()] followed by [cmd.Process.Wait()] *)
Definition Kill (p : Proc) : Proc :=
  {| p_written := p_written p; p_refuse := p_refuse p; p_pending := p_pending p;
     p_end := p_end p; p_closed := p_closed p; p_killed := true |}.

(** [w.stdin.Write(b)]: the error, if any, and the process afterwards. *)
Definition stdin_Write (p : Proc) (b : list byte) : option error * Proc :=
  match p_refuse p (length (p_written p)) with
  | Some e => (Some e, p)
  | None => (None, set_written p (p_written p ++ b))
  end.

(** [io.ReadFull(w.stdout, buf)] with [len(buf) = n]: all [n] bytes, or the
    reader's error when nothing was read, [io.ErrUnexpectedEOF] when the
    stream ended after some but not all bytes. *)
Definition ReadFull (p : Proc) (n : nat) : outcome (list byte) * Proc :=
  if (n <=? length (p_pending p))%nat then
    (Done (take n (p_pending p)), set_pending p (drop n (p_pending p)))
  else
    match p_end p with
    | EndSilent => (Blocked, set_pending p [])
    | EndErr e =>
        (Failed (match p_pending p with
                 | [] => e
                 | _ :: _ => if is_EOF e then io_ErrUnexpectedEOF else e
                 end),
         set_pending p [])
    end.

(** ** Worker *)

Inductive WorkerState : Type :=
  | WorkerIdle
  | WorkerBusy
  | WorkerDraining
  | WorkerDead.

Global Instance WorkerState_eq_dec : EqDecision WorkerState.
Proof. solve_decision. Defined.

(** The struct [Worker].  [cmd] stands for the three fields [cmd], [stdin]
    and [stdout], which always belong to one child; the mutexes have no
    content in a sequential run.  Two fields are not in the source and
    describe the environment: [children n] is what the [n]-th attempt to
    start a PHP child for this worker yields (the error of [StdinPipe],
    [StdoutPipe] or [Start], or the started process), and [spawns] counts
    the attempts made so far. *)
Record Worker : Type := {
  cmd : Proc;
  baseDir : string;
  dead : bool;
  maxRequests : Z;
  requestTimeout : Z;
  requestCount : Z;
  state : WorkerState;
  inFlight : Z;
  children : nat -> error + Proc;
  spawns : nat
}.

Definition set_cmd (w : Worker) (p : Proc) : Worker :=
  {| cmd := p; baseDir := baseDir w; dead := dead w;
     maxRequests := maxRequests w; requestTimeout := requestTimeout w;
     requestCount := requestCount w; state := state w;
     inFlight := inFlight w; children := children w; spawns := spawns w |}.
Definition set_dead (w : Worker) (b : bool) : Worker :=
  {| cmd := cmd w; baseDir := baseDir w; dead := b;
     maxRequests := maxRequests w; requestTimeout := requestTimeout w;
     requestCount := requestCount w; state := state w;
     inFlight := inFlight w; children := children w; spawns := spawns w |}.
Definition set_requestCount (w : Worker) (n : Z) : Worker :=
  {| cmd := cmd w; baseDir := baseDir w; dead := dead w;
     maxRequests := maxRequests w; requestTimeout := requestTimeout w;
     requestCount := n; state := state w;
     inFlight := inFlight w; children := children w; spawns := spawns w |}.
Definition set_inFlight (w : Worker) (n : Z) : Worker :=
  {| cmd := cmd w; baseDir := baseDir w; dead := dead w;
     maxRequests := maxRequests w; requestTimeout := requestTimeout w;
     requestCount := requestCount w; state := state w;
     inFlight := n; children := children w; spawns := spawns w |}.
Definition set_spawns (w : Worker) (n : nat) : Worker :=
  {| cmd := cmd w; baseDir := baseDir w; dead := dead w;
     maxRequests := maxRequests w; requestTimeout := requestTimeout w;
     requestCount := requestCount w; state := state w;
     inFlight := inFlight w; children := children w; spawns := n |}.


Definition isDead (w : Worker) : bool := dead w.

Definition setState (w : Worker) (s : WorkerState) : Worker :=
  {| cmd := cmd w; baseDir := baseDir w; dead := dead w;
     maxRequests := maxRequests w; requestTimeout := requestTimeout w;
     requestCount := requestCount w; state := s;
     inFlight := inFlight w; children := children w; spawns := spawns w |}.

Definition markDead (w : Worker) : Worker :=
  setState (set_dead w true) WorkerDead.

Definition getState (w : Worker) : WorkerState := state w.

Definition incrInFlight (w : Worker) : Worker :=
  set_inFlight w (wrap_int (inFlight w + 1)).

Definition decrInFlight (w : Worker) : Worker :=
  if 0 <? inFlight w then set_inFlight w (wrap_int (inFlight w - 1)) else w.

Definition getInFlight (w : Worker) : Z := inFlight w.

Definition startDraining (w : Worker) : Worker :=
  if decide (state w = WorkerDead) then w else setState w WorkerDraining.

Definition isDraining (w : Worker) : bool :=
  bool_decide (state w = WorkerDraining).

(** [restart]: close the streams, kill and reap the child, start a new one.
    A failure to start returns the error and leaves the flags as they were;
    a started child resets them. *)
Definition restart (w : Worker) : outcome unit * Worker :=
  let old := Kill (Close (cmd w)) in
  match children w (spawns w) with
  | inl e => (Failed e, set_spawns (set_cmd w old) (S (spawns w)))
  | inr p =>
      (Done tt,
       {| cmd := p; baseDir := baseDir w; dead := false;
          maxRequests := maxRequests w; requestTimeout := requestTimeout w;
          requestCount := 0; state := WorkerIdle; inFlight := 0;
          children := children w; spawns := S (spawns w) |})
  end.

(** [isBrokenPipe] (an [err] that is nil never reaches it in the model) *)
Definition isBrokenPipe (err : error) : bool :=
  let errStr := Error err in
  is_EOF err ||
  is_ErrUnexpectedEOF err ||
  Contains errStr "broken pipe" ||
  Contains errStr "write |1:" ||
  Contains errStr "read |0:".

Section WithLib.

Variable lib : GoLib.

(** The reader goroutine of [handleRequest]: one length header, the bound
    check, the payload, the decoding. *)
Definition readResponse (p : Proc) : outcome ResponsePayload * Proc :=
  match ReadFull p 4 with
  | (Done hdr, p1) =>
      let respLen := Uint32 hdr in
      if (respLen =? 0) || (maxFrameLen <? respLen) then
        (Failed io_ErrUnexpectedEOF, p1)
      else
        match ReadFull p1 (Z.to_nat respLen) with
        | (Done respJSON, p2) =>
            match json_Unmarshal_resp lib respJSON with
            | inl e => (Failed e, p2)
            | inr resp => (Done resp, p2)
            end
        | (Failed e, p2) => (Failed e, p2)
        | (Blocked, p2) => (Blocked, p2)
        | (Panic m, p2) => (Panic m, p2)
        end
  | (Failed e, p1) => (Failed e, p1)
  | (Blocked, p1) => (Blocked, p1)
  | (Panic m, p1) => (Panic m, p1)
  end.

(** The first half of [handleRequest] and of [streamInternal]: encode the
    request, write the four-byte length header, write the JSON bytes. *)
Definition sendRequest (p : Proc) (payload : RequestPayload) : option error * Proc :=
  match json_Marshal lib payload with
  | inl e => (Some e, p)
  | inr jsonBytes =>
      let length := wrap_uint32 (Z.of_nat (length jsonBytes)) in
      let header := PutUint32 length in
      match stdin_Write p header with
      | (Some e, p1) => (Some e, p1)
      | (None, p1) => stdin_Write p1 jsonBytes
      end
  end.

(** [handleRequest]: send the request, then wait for the reader's result or
    for the timeout.  A reader that never gets its bytes is the timeout case
    when a timeout is configured, and a call that never returns otherwise. *)
Definition handleRequest (w : Worker) (payload : RequestPayload)
    : outcome ResponsePayload * Worker :=
  match sendRequest (cmd w) payload with
  | (Some e, p2) => (Failed e, set_cmd w p2)
  | (None, p2) =>
      match readResponse p2 with
      | (Blocked, p3) =>
          if 0 <? requestTimeout w then
            (Failed (errorString ("worker request timeout after " +:+
                                  Duration_String lib (requestTimeout w))),
             set_cmd (markDead (set_cmd w p3)) (Kill p3))
          else (Blocked, set_cmd w p3)
      | (res, p3) => (res, set_cmd w p3)
      end
  end.

(** [atomic.AddUint64(&w.requestCount, 1)] and the recycling test that
    follows it in [Handle]. *)
Definition countRequest (w : Worker) : Worker :=
  let n := wrap_uint64 (requestCount w + 1) in
  let w1 := set_requestCount w n in
  if (0 <? maxRequests w1) && (maxRequests w1 <=? wrap_int n)
  then markDead w1 else w1.

(** The loop [for attempt := 0; attempt < 2; attempt++] of [Handle], with
    [attempts] iterations left; falling out of the loop returns
    [io.ErrUnexpectedEOF]. *)
Fixpoint handleLoop (attempts : nat) (w : Worker) (payload : RequestPayload)
    : outcome ResponsePayload * Worker :=
  match attempts with
  | O => (Failed io_ErrUnexpectedEOF, w)
  | S rest =>
      match (if isDead w then restart w else (Done tt, w)) with
      | (Done _, w1) =>
          match handleRequest w1 payload with
          | (Failed err, w2) =>
              if isBrokenPipe err then handleLoop rest (markDead w2) payload
              else (Failed err, w2)
          | (Done resp, w2) => (Done resp, countRequest w2)
          | (Blocked, w2) => (Blocked, w2)
          | (Panic m, w2) => (Panic m, w2)
          end
      | (Failed err, w1) => (Failed err, w1)
      | (Blocked, w1) => (Blocked, w1)
      | (Panic m, w1) => (Panic m, w1)
      end
  end.

(** Admission and the deferred completion shared by [Handle] and [Stream]. *)
Definition enter (w : Worker) : Worker :=
  setState (incrInFlight w) WorkerBusy.

Definition complete (w : Worker) : Worker :=
  let w1 := decrInFlight w in
  if (getInFlight w1 =? 0) && isDraining w1 then markDead w1
  else if negb (isDead w1) then setState w1 WorkerIdle
  else w1.

(** A deferred function runs when the call returns or panics, not when it
    never returns. *)
Definition deferred {A} (r : outcome A * Worker) : outcome A * Worker :=
  match r with
  | (Blocked, w) => (Blocked, w)
  | (res, w) => (res, complete w)
  end.

Definition Handle (w : Worker) (payload : RequestPayload)
    : outcome ResponsePayload * Worker :=
  if isDead w then (Failed ErrWorkerDead, w)
  else if isDraining w then (Failed ErrWorkerDraining, w)
  else deferred (handleLoop 2 (enter w) payload).

(** ** Streaming *)

(** The [http.ResponseWriter] handed to [Stream] is an interface: what the
    relay does to it is the sequence of calls it makes.  [write_err] gives,
    from the calls made before it, the error of a [Write]; [flusher] says
    whether the value also implements [http.Flusher]. *)
Inductive SinkCall : Type :=
  | Header_Add (k v : string)
  | Header_Set (k v : string)
  | WriteHeader (code : Z)
  | Write (data : string)
  | Flush.

Record Sink : Type := {
  calls : list SinkCall;
  write_err : list SinkCall -> option error;
  flusher : bool
}.

Definition call (rw : Sink) (c : SinkCall) : Sink :=
  {| calls := calls rw ++ [c]; write_err := write_err rw; flusher := flusher rw |}.

(** The two local variables of the relay loop. *)
Record RelayState : Type := {
  headersSent : bool;
  statusCode : Z
}.

Definition StatusOK : Z := 200.

Definition relayInit : RelayState :=
  {| headersSent := false; statusCode := StatusOK |}.

(** What one pass through the [switch] decides: go round the loop again, or
    return (nil or an error). *)
Inductive Step : Type :=
  | Continue
  | Return (err : option error).

(** [for k, vs := range frame.Headers { ... }] *)
Fixpoint applyHeaders (hs : list (string * list string)) (rw : Sink) : Sink :=
  match hs with
  | [] => rw
  | (k, vs) :: rest =>
      if (length vs =? 0)%nat then applyHeaders rest rw
      else if String.eqb (ToLower lib k) "set-cookie" then
        applyHeaders rest (fold_left (fun rw v => call rw (Header_Add k v)) vs rw)
      else
        applyHeaders rest (call rw (Header_Set k (Join vs ", ")))
  end.

(** [if frame.Data != "" { Write; Flush }]: the error of the write, if any. *)
Definition writeData (data : string) (rw : Sink) : option error * Sink :=
  if String.eqb data "" then (None, rw)
  else
    match write_err rw (calls rw) with
    | Some e => (Some e, call rw (Write data))
    | None =>
        let rw1 := call rw (Write data) in
        (None, if flusher rw1 then call rw1 Flush else rw1)
    end.

(** The [switch frame.Type] of [streamInternal]. *)
Definition relayFrame (frame : StreamFrame) (st : RelayState) (rw : Sink)
    : Step * RelayState * Sink :=
  if String.eqb (frame_Type frame) "headers" then
    let rw1 := match frame_Headers frame with
               | Some hs => applyHeaders hs rw
               | None => rw
               end in
    let statusCode1 := if frame_Status frame =? 0 then statusCode st
                       else frame_Status frame in
    let rw2 := call rw1 (WriteHeader statusCode1) in
    let st1 := {| headersSent := true; statusCode := statusCode1 |} in
    match writeData (frame_Data frame) rw2 with
    | (Some e, rw3) => (Return (Some e), st1, rw3)
    | (None, rw3) => (Continue, st1, rw3)
    end
  else if String.eqb (frame_Type frame) "chunk" then
    let rw1 := if headersSent st then rw else call rw (WriteHeader (statusCode st)) in
    let st1 := {| headersSent := true; statusCode := statusCode st |} in
    match writeData (frame_Data frame) rw1 with
    | (Some e, rw2) => (Return (Some e), st1, rw2)
    | (None, rw2) => (Continue, st1, rw2)
    end
  else if String.eqb (frame_Type frame) "end" then
    (Return None, st, rw)
  else if String.eqb (frame_Type frame) "error" then
    (Return (Some (errorString ("stream error from worker: " +:+ frame_Error frame))),
     st, rw)
  else
    (Return (Some (errorString ("unknown stream frame type: " +:+
                                quote lib (frame_Type frame)))),
     st, rw).

(** The relay loop [for { ... }] of [streamInternal].  Every pass reads at
    least the four header bytes, so [fuel] larger than the number of pending
    bytes is never used up ([None]). *)
Fixpoint streamLoop (fuel : nat) (w : Worker) (st : RelayState) (rw : Sink)
    : option (outcome unit * Worker * Sink) :=
  match fuel with
  | O => None
  | S fuel' =>
      match ReadFull (cmd w) 4 with
      | (Done hdr, p1) =>
          let frameLen := Uint32 hdr in
          if (frameLen =? 0) || (maxFrameLen <? frameLen) then
            Some (Failed io_ErrUnexpectedEOF, markDead (set_cmd w p1), rw)
          else
            match ReadFull p1 (Z.to_nat frameLen) with
            | (Done frameJSON, p2) =>
                match json_Unmarshal_frame lib frameJSON with
                | inl e => Some (Failed e, markDead (set_cmd w p2), rw)
                | inr frame =>
                    match relayFrame frame st rw with
                    | (Continue, st1, rw1) => streamLoop fuel' (set_cmd w p2) st1 rw1
                    | (Return None, _, rw1) => Some (Done tt, set_cmd w p2, rw1)
                    | (Return (Some e), _, rw1) => Some (Failed e, set_cmd w p2, rw1)
                    end
                end
            | (Failed e, p2) => Some (Failed e, markDead (set_cmd w p2), rw)
            | (Blocked, p2) => Some (Blocked, set_cmd w p2, rw)
            | (Panic m, p2) => Some (Panic m, set_cmd w p2, rw)
            end
      | (Failed e, p1) => Some (Failed e, markDead (set_cmd w p1), rw)
      | (Blocked, p1) => Some (Blocked, set_cmd w p1, rw)
      | (Panic m, p1) => Some (Panic m, set_cmd w p1, rw)
      end
  end.

(** [streamInternal] runs with [w.mu] held.  Its first statement calls
    [restart] on a dead worker, and [restart] begins by locking [w.mu]: a
    [sync.Mutex] held by the caller itself, so that call waits for ever. *)
Definition streamInternal (w : Worker) (req : RequestPayload) (rw : Sink)
    : outcome unit * Worker * Sink :=
  if isDead w then (Blocked, w, rw)
  else
    match sendRequest (cmd w) req with
    | (Some e, p2) => (Failed e, set_cmd w p2, rw)
    | (None, p2) =>
        match streamLoop (S (length (p_pending p2))) (set_cmd w p2) relayInit rw with
        | Some r => r
        | None => (Blocked, set_cmd w p2, rw)
        end
    end.

(** [Stream]: admission, the relay in its goroutine, the timeout around the
    whole of it. *)
Definition Stream (w : Worker) (req : RequestPayload) (rw : Sink)
    : outcome unit * Worker * Sink :=
  if isDead w || isDraining w then (Failed ErrWorkerDead, w, rw)
  else
    match streamInternal (enter w) req rw with
    | (Blocked, w1, rw1) =>
        if 0 <? requestTimeout w1 then
          (Failed (errorString ("worker stream timeout after " +:+
                                Duration_String lib (requestTimeout w1))),
           complete (set_cmd (markDead w1) (Kill (cmd w1))), rw1)
        else (Blocked, w1, rw1)
    | (res, w1, rw1) => (res, complete w1, rw1)
    end.

End WithLib.

(** ** Pool *)

(** A [*Worker] is an address into the heap of workers, or nil ([None]).
    The heap maps the addresses in use to the workers stored there. *)
Definition addr : Type := nat.

Record WorkerPool : Type := {
  workers : list (option addr);
  next : nat
}.

(** Modelled from the spec: the declaration of [PoolStats] is not among the
    sources; [Stats] fills the total and the dead count. *)
Record PoolStats : Type := {
  stats_Workers : nat;
  stats_DeadWorkers : nat
}.

(** The test the selection makes on a slot: [w != nil && !w.isDead() &&
    !w.isDraining()]. *)
Definition selectable (h : gmap addr Worker) (slot : option addr) : bool :=
  match slot with
  | None => false
  | Some a =>
      match h !! a with
      | Some w => negb (isDead w) && negb (isDraining w)
      | None => false
      end
  end.

(** The loop of [NextWorker] with [iters] passes left; [n] is
    [len(p.workers)].  Indexing outside the slice panics. *)
Fixpoint nextLoop (h : gmap addr Worker) (ws : list (option addr)) (n : nat)
    (iters : nat) (nxt : nat) : outcome (option addr) * nat :=
  match iters with
  | O => (Done None, nxt)
  | S iters' =>
      match ws !! nxt with
      | None => (Panic "index out of range", nxt)
      | Some slot =>
          let nxt1 := ((nxt + 1) mod n)%nat in
          if selectable h slot then (Done slot, nxt1)
          else nextLoop h ws n iters' nxt1
      end
  end.

Definition NextWorker (h : gmap addr Worker) (p : WorkerPool)
    : outcome (option addr) * WorkerPool :=
  let n := length (workers p) in
  if (n =? 0)%nat then (Done None, p)
  else
    match nextLoop h (workers p) n n (next p) with
    | (res, nxt) => (res, {| workers := workers p; next := nxt |})
    end.

(** The counting loop of [Stats]. *)
Fixpoint countDead (h : gmap addr Worker) (ws : list (option addr)) : nat :=
  match ws with
  | [] => O
  | slot :: rest =>
      let dead_here :=
        match slot with
        | Some a => match h !! a with
                    | Some w => isDead w
                    | None => false
                    end
        | None => false
        end in
      ((if dead_here then 1 else 0) + countDead h rest)%nat
  end.

Definition Stats (h : gmap addr Worker) (p : WorkerPool) : PoolStats :=
  {| stats_Workers := length (workers p);
     stats_DeadWorkers := countDead h (workers p) |}.

(** [DrainAll] *)
Definition DrainAll (h : gmap addr Worker) (p : WorkerPool) : gmap addr Worker :=
  fold_left (fun h slot =>
               match slot with
               | Some a =>
                   match h !! a with
                   | Some w => if isDead w then h else <[a := startDraining w]> h
                   | None => h
                   end
               | None => h
               end) (workers p) h.

(** The shrinking loop of [ScaleTo] over the slots [p.workers[newSize:cur]]. *)
Definition drainExtras (h : gmap addr Worker) (extras : list (option addr))
    : gmap addr Worker :=
  fold_left (fun h slot =>
               match slot with
               | Some a => alter startDraining a h
               | None => h
               end) extras h.

Section WithLibPool.

Variable lib : GoLib.

Definition Dispatch (h : gmap addr Worker) (p : WorkerPool) (req : RequestPayload)
    : outcome ResponsePayload * gmap addr Worker * WorkerPool :=
  match NextWorker h p with
  | (Done None, p1) => (Failed ErrNoWorkers, h, p1)
  | (Done (Some a), p1) =>
      match h !! a with
      | Some w =>
          match Handle lib w req with
          | (res, w1) => (res, <[a := w1]> h, p1)
          end
      | None => (Panic "invalid memory address or nil pointer dereference", h, p1)
      end
  | (Failed e, p1) => (Failed e, h, p1)
  | (Blocked, p1) => (Blocked, h, p1)
  | (Panic m, p1) => (Panic m, h, p1)
  end.

End WithLibPool.

Section Scale.

(** The factory handed to [ScaleTo] is a Go closure: a procedure with a
    private state of some type [S] that may allocate in the heap, and that
    returns a worker pointer or an error. *)
Context {S : Type}.

Definition Factory : Type :=
  S -> gmap addr Worker -> (error + option addr) * S * gmap addr Worker.

(** The growing loop of [ScaleTo] with [k] passes left. *)
Fixpoint growLoop (k : nat) (factory : Factory) (s : S) (h : gmap addr Worker)
    (ws : list (option addr)) : outcome unit * S * gmap addr Worker * list (option addr) :=
  match k with
  | O => (Done tt, s, h, ws)
  | Datatypes.S k' =>
      match factory s h with
      | (inl err, s1, h1) => (Failed err, s1, h1, ws)
      | (inr w, s1, h1) => growLoop k' factory s1 h1 (ws ++ [w])
      end
  end.

(** [ScaleTo]; [factory] is [None] for a nil func. *)
Definition ScaleTo (s : S) (h : gmap addr Worker) (p : WorkerPool) (newSize : Z)
    (factory : option Factory)
    : outcome unit * S * gmap addr Worker * WorkerPool :=
  let cur := Z.of_nat (length (workers p)) in
  if newSize =? cur then (Done tt, s, h, p)
  else if newSize <? cur then
    if newSize <? 0 then (Panic "index out of range", s, h, p)
    else
      let h1 := drainExtras h (drop (Z.to_nat newSize) (workers p)) in
      let ws := take (Z.to_nat newSize) (workers p) in
      (Done tt, s, h1,
       {| workers := ws;
          next := if newSize <=? Z.of_nat (next p) then 0%nat else next p |})
  else
    match factory with
    | None => (Panic "invalid memory address or nil pointer dereference", s, h, p)
    | Some f =>
        match growLoop (Z.to_nat (newSize - cur)) f s h (workers p) with
        | (res, s1, h1, ws) => (res, s1, h1, {| workers := ws; next := next p |})
        end
    end.

End Scale.

(** ** Hub *)

Record sseEvent : Type := {
  ev_Channel : string;
  ev_Event : string;
  ev_Data : list byte
}.

(** A [chan struct{}] made by [Subscribe] is open until it is closed. *)
Inductive DoneChan : Type :=
  | ChanOpen
  | ChanClosed.

Record sseClient : Type := {
  ch : list sseEvent;
  done : DoneChan
}.

(** The hub: the map from channel name to set of client pointers, and the
    clients those pointers point to.  A channel without an entry in
    [clients] is one whose subscriber set is nil. *)
Record SSEHub : Type := {
  clients : gmap string (gset addr);
  store : gmap addr sseClient
}.

Definition NewSSEHub : SSEHub := {| clients := ∅; store := ∅ |}.

(** [Subscribe]: a new client, registered on the channel. *)
Definition Subscribe (h : SSEHub) (channel : string) : addr * SSEHub :=
  let c := fresh (dom (store h)) in
  let subs := default ∅ (clients h !! channel) in
  (c, {| clients := <[channel := {[c]} ∪ subs]> (clients h);
         store := <[c := {| ch := []; done := ChanOpen |}]> (store h) |}).

(** [Unsubscribe]: [delete(subs, c)] updates the set the hub holds, then
    [close(c.done)] panics on a channel that is already closed. *)
Definition Unsubscribe (h : SSEHub) (channel : string) (c : addr)
    : outcome unit * SSEHub :=
  match clients h !! channel with
  | None => (Done tt, h)
  | Some subs =>
      let subs1 := subs ∖ {[c]} in
      let h1 := {| clients := <[channel := subs1]> (clients h); store := store h |} in
      match store h !! c with
      | None => (Panic "invalid memory address or nil pointer dereference", h1)
      | Some cl =>
          match done cl with
          | ChanClosed => (Panic "close of closed channel", h1)
          | ChanOpen =>
              let st1 := <[c := {| ch := ch cl; done := ChanClosed |}]> (store h) in
              (Done tt,
               {| clients := if (size subs1 =? 0)%nat then delete channel (clients h)
                             else <[channel := subs1]> (clients h);
                  store := st1 |})
          end
      end
  end.

(** * Notions used in the statements *)

(** ** Calls in sequence *)

(** [NextWorker] called [m] times in a row; the outcomes in order. *)
Fixpoint nextWorkerN (m : nat) (h : gmap addr Worker) (p : WorkerPool)
    : list (outcome (option addr)) * WorkerPool :=
  match m with
  | O => ([], p)
  | S m' =>
      match NextWorker h p with
      | (res, p1) =>
          match nextWorkerN m' h p1 with
          | (rs, p2) => (res :: rs, p2)
          end
      end
  end.

(** [Dispatch] applied [n] times to the same request, threading heap and
    pool; the outcomes in order. *)
Fixpoint dispatchN (lib : GoLib) (n : nat) (h : gmap addr Worker) (p : WorkerPool)
    (req : RequestPayload)
    : list (outcome ResponsePayload) * gmap addr Worker * WorkerPool :=
  match n with
  | O => ([], h, p)
  | S n' =>
      match Dispatch lib h p req with
      | (res, h1, p1) =>
          match dispatchN lib n' h1 p1 req with
          | (rs, h2, p2) => (res :: rs, h2, p2)
          end
      end
  end.

(** [Handle] called on one worker for each request of a list in turn; the
    outcomes in order and the worker at the end. *)
Fixpoint handleAll (lib : GoLib) (reqs : list RequestPayload) (w : Worker)
    : list (outcome ResponsePayload) * Worker :=
  match reqs with
  | [] => ([], w)
  | req :: rest =>
      match Handle lib w req with
      | (res, w1) =>
          match handleAll lib rest w1 with
          | (rs, w2) => (res :: rs, w2)
          end
      end
  end.

Definition is_Done {A} (r : outcome A) : Prop :=
  match r with Done _ => True | _ => False end.

(** ** Invariants *)

(** The dead flag and the state say the same thing about death.  Every
    method keeps it so. *)
Definition flags_agree (w : Worker) : Prop :=
  dead w = true <-> state w = WorkerDead.

(** The cursor of a pool is an index into its list, or 0 in an empty
    pool. *)
Definition cursor_ok (p : WorkerPool) : Prop :=
  (next p < length (workers p))%nat \/ (workers p = [] /\ next p = 0%nat).

(** The status variable of the loop holds 200 until headers are sent. *)
Definition relay_inv (st : RelayState) : Prop :=
  headersSent st = false -> statusCode st = StatusOK.

(** ** The relay as the specification words it *)

(** The header lines of one entry of a headers frame: one line per value
    for Set-Cookie (compared without case), one line with the values joined
    by comma-space for any other name; an entry without values has none. *)
Definition headerLines (lib : GoLib) (k : string) (vs : list string) : list SinkCall :=
  match vs with
  | [] => []
  | _ :: _ =>
      if String.eqb (ToLower lib k) "set-cookie" then map (Header_Add k) vs
      else [Header_Set k (Join vs ", ")]
  end.

Definition allHeaderLines (lib : GoLib) (hs : option (list (string * list string)))
    : list SinkCall :=
  flat_map (fun kv => headerLines lib (fst kv) (snd kv)) (default [] hs).

(** Writing body bytes after the calls [before]: nothing for no bytes; else
    the write, followed by a flush when the write succeeds and the sink can
    flush. *)
Definition bodyCalls (rw : Sink) (before : list SinkCall) (data : string)
    : list SinkCall :=
  if String.eqb data "" then []
  else
    match write_err rw before with
    | Some _ => [Write data]
    | None => Write data :: (if flusher rw then [Flush] else [])
    end.

(** The loop goes on unless that write failed. *)
Definition bodyStep (rw : Sink) (before : list SinkCall) (data : string) : Step :=
  if String.eqb data "" then Continue
  else
    match write_err rw before with
    | Some e => Return (Some e)
    | None => Continue
    end.

Definition set_calls (rw : Sink) (l : list SinkCall) : Sink :=
  {| calls := l; write_err := write_err rw; flusher := flusher rw |}.

(** ** Growing as the specification words it *)

(** The factory invoked up to [k] times, stopping after the first failure:
    the results of the invocations made, in order. *)
Fixpoint factoryCalls {S : Type} (k : nat) (factory : @Factory S) (s : S)
    (h : gmap addr Worker) : list (error + option addr) * S * gmap addr Worker :=
  match k with
  | O => ([], s, h)
  | Datatypes.S k' =>
      match factory s h with
      | (inl err, s1, h1) => ([inl err], s1, h1)
      | (inr w, s1, h1) =>
          match factoryCalls k' factory s1 h1 with
          | (rs, s2, h2) => (inr w :: rs, s2, h2)
          end
      end
  end.

(** The workers those invocations returned, and the error of the last one
    if it failed. *)
Definition created (rs : list (error + option addr)) : list (option addr) :=
  omap (fun r => match r with inr w => Some w | inl _ => None end) rs.

Definition failure (rs : list (error + option addr)) : outcome unit :=
  match last rs with
  | Some (inl err) => Failed err
  | _ => Done tt
  end.

(** ** Reading the hub *)

(** The state of a client's done channel, if the client exists. *)
Definition doneOf (h : SSEHub) (c : addr) : option DoneChan :=
  done <$> store h !! c.

(** * Concrete runs

    A library instance, children, workers, pools and hubs on which the
    functions above are evaluated.  [exampleLib] decodes the JSON texts
    listed here as [encoding/json] does and reports a syntax error on any
    other input; its [ToLower] is the ASCII one. *)

(** ** JSON texts and the library *)

Definition dq : string := String "034"%char "".
Definition qs (s : string) : string := dq +:+ s +:+ dq.

Definition lower_ascii (c : ascii) : ascii :=
  let n := nat_of_ascii c in
  if ((65 <=? n) && (n <=? 90))%nat then ascii_of_nat (n + 32) else c.

Fixpoint asciiToLower (s : string) : string :=
  match s with
  | EmptyString => EmptyString
  | String c s' => String (lower_ascii c) (asciiToLower s')
  end.

(** [{"status":200,"headers":{},"body":"ok"}] *)
Definition okJSON : string :=
  "{" +:+ qs "status" +:+ ":200," +:+ qs "headers" +:+ ":{}," +:+
  qs "body" +:+ ":" +:+ qs "ok" +:+ "}".
Definition okResponse : ResponsePayload :=
  {| resp_Status := 200; resp_Headers := []; resp_Body := "ok" |}.

(** [{"type":"headers","status":201,"headers":{"Set-Cookie":["a=1","b=2"],
    "X-Tag":["x","y"]},"data":"hi"}] *)
Definition headersJSON : string :=
  "{" +:+ qs "type" +:+ ":" +:+ qs "headers" +:+ "," +:+ qs "status" +:+ ":201," +:+
  qs "headers" +:+ ":{" +:+ qs "Set-Cookie" +:+ ":[" +:+ qs "a=1" +:+ "," +:+
  qs "b=2" +:+ "]," +:+ qs "X-Tag" +:+ ":[" +:+ qs "x" +:+ "," +:+ qs "y" +:+ "]}," +:+
  qs "data" +:+ ":" +:+ qs "hi" +:+ "}".
Definition headersFrame : StreamFrame :=
  {| frame_Type := "headers"; frame_Status := 201;
     frame_Headers := Some [("Set-Cookie", ["a=1"; "b=2"]); ("X-Tag", ["x"; "y"])];
     frame_Data := "hi"; frame_Error := "" |}.

(** [{"type":"headers","headers":{"X-Late":["1"]}}] *)
Definition lateHeadersJSON : string :=
  "{" +:+ qs "type" +:+ ":" +:+ qs "headers" +:+ "," +:+ qs "headers" +:+ ":{" +:+
  qs "X-Late" +:+ ":[" +:+ qs "1" +:+ "]}}".
Definition lateHeadersFrame : StreamFrame :=
  {| frame_Type := "headers"; frame_Status := 0;
     frame_Headers := Some [("X-Late", ["1"])];
     frame_Data := ""; frame_Error := "" |}.

(** [{"type":"chunk","data":" world"}] *)
Definition chunkJSON : string :=
  "{" +:+ qs "type" +:+ ":" +:+ qs "chunk" +:+ "," +:+ qs "data" +:+ ":" +:+
  qs " world" +:+ "}".
Definition chunkFrame : StreamFrame :=
  {| frame_Type := "chunk"; frame_Status := 0; frame_Headers := None;
     frame_Data := " world"; frame_Error := "" |}.

(** [{"type":"end"}] *)
Definition endJSON : string := "{" +:+ qs "type" +:+ ":" +:+ qs "end" +:+ "}".
Definition endFrame : StreamFrame :=
  {| frame_Type := "end"; frame_Status := 0; frame_Headers := None;
     frame_Data := ""; frame_Error := "" |}.

Definition exampleRequest : RequestPayload :=
  {| req_ID := "1"; req_Method := "GET"; req_Path := "/"; req_Headers := [];
     req_Body := "" |}.
Definition requestJSON : string :=
  "{" +:+ qs "id" +:+ ":" +:+ qs "1" +:+ "," +:+ qs "method" +:+ ":" +:+ qs "GET" +:+
  "," +:+ qs "path" +:+ ":" +:+ qs "/" +:+ "," +:+ qs "headers" +:+ ":{}," +:+
  qs "body" +:+ ":" +:+ dq +:+ dq +:+ "}".

Definition syntaxError : error := errorString "invalid character in JSON input".

Definition exampleLib : GoLib :=
  {| json_Marshal := fun _ => inr (list_byte_of_string requestJSON);
     json_Unmarshal_resp := fun b =>
       if String.eqb (string_of_list_byte b) okJSON then inr okResponse
       else inl syntaxError;
     json_Unmarshal_frame := fun b =>
       let t := string_of_list_byte b in
       if String.eqb t headersJSON then inr headersFrame
       else if String.eqb t lateHeadersJSON then inr lateHeadersFrame
       else if String.eqb t chunkJSON then inr chunkFrame
       else if String.eqb t endJSON then inr endFrame
       else inl syntaxError;
     ToLower := asciiToLower;
     Duration_String := fun d => if d =? 100000000 then "100ms" else "0s";
     quote := qs |}.

(** A frame as it travels: the big-endian length, then the text. *)
Definition onWire (json : string) : list byte :=
  PutUint32 (Z.of_nat (String.length json)) ++ list_byte_of_string json.

(** ** Children *)

(** A child that accepts every write, produces [out] and then behaves as
    [e] says. *)
Definition child (out : list byte) (e : ReadEnd) : Proc :=
  {| p_written := []; p_refuse := fun _ => None; p_pending := out; p_end := e;
     p_closed := false; p_killed := false |}.

(** A child that answers one request and stays alive, and one that exits
    without a word. *)
Definition answering : Proc := child (onWire okJSON) EndSilent.
Definition answeringTwice : Proc := child (onWire okJSON ++ onWire okJSON) EndSilent.
Definition exited : Proc := child [] (EndErr io_EOF).

(** A child that answers one request and exits. *)
Definition answersOnceThenExits : Proc := child (onWire okJSON) (EndErr io_EOF).

(** Children that declare a frame of length 0, and of length 10 MiB + 1. *)
Definition declaresZero : Proc := child (PutUint32 0) EndSilent.
Definition declaresTooMuch : Proc := child (PutUint32 (maxFrameLen + 1)) EndSilent.
(** A child that streams the headers frame and then a frame of length 0. *)
Definition headersThenZero : Proc :=
  child (onWire headersJSON ++ PutUint32 0) EndSilent.

(** Scenario 5: headers with two cookies and a two-valued tag, a chunk, the
    end.  And a stream that starts with a chunk. *)
Definition scenario5 : Proc :=
  child (onWire headersJSON ++ onWire chunkJSON ++ onWire endJSON) EndSilent.
Definition chunkFirst : Proc :=
  child (onWire chunkJSON ++ onWire endJSON) EndSilent.

(** A child that streams the headers frame, then a second headers frame,
    then the end; and the same child once the first frame has been read. *)
Definition headersTwice : Proc :=
  child (onWire headersJSON ++ onWire lateHeadersJSON ++ onWire endJSON) EndSilent.
Definition lateChild : Proc :=
  child (onWire lateHeadersJSON ++ onWire endJSON) EndSilent.
Definition lateChild1 : Proc := set_pending lateChild (drop 4 (p_pending lateChild)).
Definition lateChild2 : Proc :=
  set_pending lateChild1
    (drop (String.length lateHeadersJSON) (p_pending lateChild1)).
Definition sentState : RelayState := {| headersSent := true; statusCode := 201 |}.

(** ** Workers and sinks *)

Definition spawnFails : error := errorString "exec: php: executable file not found".

(** A worker as [NewWorker] leaves it, on child [p], recycling after [k]
    requests, whose later children are [kids]. *)
Definition freshWorker (p : Proc) (k : Z) (kids : nat -> error + Proc) : Worker :=
  {| cmd := p; baseDir := "/srv/app"; dead := false; maxRequests := k;
     requestTimeout := 0; requestCount := 0; state := WorkerIdle; inFlight := 0;
     children := kids; spawns := 1 |}.

(** The zero value [&Worker{}] of the tests, given streams. *)
Definition w_healthy : Worker := freshWorker answering 0 (fun _ => inr answering).
Definition w_dead : Worker := markDead w_healthy.
Definition w_draining : Worker := startDraining w_healthy.

(** The pool of scenario 2: one worker that recycles after two requests, on
    a child that answers twice. *)
Definition recyclingWorker : Worker :=
  freshWorker answeringTwice 2 (fun _ => inr answering).
Definition oneHeap : gmap addr Worker := {[ 0%nat := recyclingWorker ]}.
Definition onePool : WorkerPool := {| workers := [Some 0%nat]; next := 0 |}.

(** A worker recycling after two requests whose first child answers one
    request and exits, and whose next child answers. *)
Definition retriedWorker : Worker :=
  freshWorker answersOnceThenExits 2 (fun _ => inr answering).

(** Scenario 4: a child that takes the request and exits before answering.
    [dyingWorker kids] is a fresh worker on such a child whose later
    children are [kids]. *)
Definition dyingWorker (kids : nat -> error + Proc) : Worker :=
  freshWorker exited 0 kids.

Definition emptySink : Sink :=
  {| calls := []; write_err := fun _ => None; flusher := true |}.

(** ** Pools *)

(** The pool of scenario 1: [w1] dead, [w2] draining, [w3] healthy. *)
Definition threeHeap : gmap addr Worker :=
  <[ 2%nat := w_healthy ]> (<[ 1%nat := w_draining ]> {[ 0%nat := w_dead ]}).
Definition threePool : WorkerPool :=
  {| workers := [Some 0%nat; Some 1%nat; Some 2%nat]; next := 0 |}.

(** Three healthy workers, for [threePool]. *)
Definition healthyHeap : gmap addr Worker :=
  <[ 2%nat := w_healthy ]> (<[ 1%nat := w_healthy ]> {[ 0%nat := w_healthy ]}).

(** A pool [w1, w2] whose second worker is dead. *)
Definition deadTailHeap : gmap addr Worker :=
  <[ 1%nat := w_dead ]> {[ 0%nat := w_healthy ]}.
Definition deadTailPool : WorkerPool :=
  {| workers := [Some 0%nat; Some 1%nat]; next := 0 |}.

(** A factory that counts its invocations, allocates a healthy worker at
    address [10 + count], and fails at its [failAt]-th invocation. *)
Definition countingFactory (failAt : nat) : @Factory nat :=
  fun count h =>
    if (Datatypes.S count =? failAt)%nat then (inl spawnFails, Datatypes.S count, h)
    else (inr (Some (10 + count)%nat), Datatypes.S count,
          <[ (10 + count)%nat := w_healthy ]> h).

(** ** A hub *)

(** A hub with two subscribers on "news" ([sub0], [sub1]) and one on
    "sport" ([sub2]). *)
Definition sub0 : addr := fst (Subscribe NewSSEHub "news").
Definition hub1 : SSEHub := snd (Subscribe NewSSEHub "news").
Definition sub1 : addr := fst (Subscribe hub1 "news").
Definition hub2 : SSEHub := snd (Subscribe hub1 "news").
Definition sub2 : addr := fst (Subscribe hub2 "sport").
Definition hub3 : SSEHub := snd (Subscribe hub2 "sport").

(** * The rest of the package *)

(** ** Building a pool *)



(** ** The two-pool front *)

Record Server : Type := {
  fastPool : WorkerPool;
  slowPool : WorkerPool
}.

(** [IsSlowRequest] *)
Definition IsSlowRequest (r : RequestPayload) : bool :=
  if HasPrefix (req_Path r) "/reports/" then true
  else if HasPrefix (req_Path r) "/admin/analytics" then true
  else if 2000000 <? Z.of_nat (String.length (req_Body r)) then true
  else if String.eqb (req_Method r) "PUT" || String.eqb (req_Method r) "DELETE"
  then true
  else false.

(** [Server.Dispatch] *)
Definition Server_Dispatch (lib : GoLib) (h : gmap addr Worker) (s : Server)
    (req : RequestPayload) : outcome ResponsePayload * gmap addr Worker * Server :=
  if IsSlowRequest req then
    match Dispatch lib h (slowPool s) req with
    | (res, h1, p1) => (res, h1, {| fastPool := fastPool s; slowPool := p1 |})
    end
  else
    match Dispatch lib h (fastPool s) req with
    | (res, h1, p1) => (res, h1, {| fastPool := p1; slowPool := slowPool s |})
    end.

(** One of the two loops of [markAllWorkersDead]: [w.markDead()] on every
    slot, a nil slot being dereferenced like any other. *)
Fixpoint markAllDead (h : gmap addr Worker) (ws : list (option addr))
    : outcome unit * gmap addr Worker :=
  match ws with
  | [] => (Done tt, h)
  | slot :: rest =>
      match slot with
      | Some a =>
          match h !! a with
          | Some w => markAllDead (<[a := markDead w]> h) rest
          | None => (Panic "invalid memory address or nil pointer dereference", h)
          end
      | None => (Panic "invalid memory address or nil pointer dereference", h)
      end
  end.

Definition markAllWorkersDead (h : gmap addr Worker) (s : Server)
    : outcome unit * gmap addr Worker :=
  match markAllDead h (workers (fastPool s)) with
  | (Done _, h1) => markAllDead h1 (workers (slowPool s))
  | (res, h1) => (res, h1)
  end.

(** ** Publishing and fan-out *)

(** The capacities given to [make]: 16 events per client, 256 in the hub's
    [incoming] queue. *)
Definition clientCap : nat := 16.
Definition incomingCap : nat := 256.

(** [select { case c.ch <- ev: default: }]: the event is queued if the
    client's buffer has room, and dropped otherwise.  The sets of the hub
    hold only clients made by [Subscribe], which exist (see [hub_wf] below);
    the case of a client that does not exist is there for totality. *)
Definition trySend (ev : sseEvent) (c : addr) (st : gmap addr sseClient)
    : gmap addr sseClient :=
  match st !! c with
  | Some cl =>
      if (length (ch cl) <? clientCap)%nat
      then <[c := {| ch := ch cl ++ [ev]; done := done cl |}]> st
      else st
  | None => st
  end.

(** The body of the loop of [run] for one event: every subscriber of the
    event's channel is tried in turn (in the order the set is walked). *)
Definition fanout (h : SSEHub) (ev : sseEvent) : SSEHub :=
  match clients h !! ev_Channel ev with
  | None => h
  | Some subs =>
      {| clients := clients h; store := set_fold (trySend ev) (store h) subs |}
  end.

(** [run] over the events taken from [incoming], oldest first. *)
Definition run (h : SSEHub) (incoming : list sseEvent) : SSEHub :=
  fold_left fanout incoming h.

(** [Publish]; the hub's [incoming] queue is passed beside the hub, and
    [marshal] is [json.Marshal] on the payload's type.  A payload that cannot
    be encoded is logged and forgotten; a full queue makes the publisher
    wait. *)
Definition Publish {A : Type} (marshal : A -> error + list byte)
    (incoming : list sseEvent) (channel event : string) (payload : A)
    : outcome (list sseEvent) :=
  match marshal payload with
  | inl _ => Done incoming
  | inr data =>
      if (length incoming <? incomingCap)%nat
      then Done (incoming ++ [{| ev_Channel := channel; ev_Event := event;
                                 ev_Data := data |}])
      else Blocked
  end.

(** ** Notions for the statements about them *)

(** Every worker a pool refers to exists, and its flag agrees with its
    state. *)
Definition pool_sound (h : gmap addr Worker) (p : WorkerPool) : Prop :=
  forall a, Some a ∈ workers p -> exists w, h !! a = Some w /\ flags_agree w.

(** The hub's map is well formed: no channel has an empty set, and every
    registered client exists. *)
Definition hub_wf (h : SSEHub) : Prop :=
  forall channel subs, clients h !! channel = Some subs ->
    subs <> ∅ /\ forall c, c ∈ subs -> is_Some (store h !! c).

(** The events queued for a client, if it exists. *)
Definition queueOf (h : SSEHub) (c : addr) : option (list sseEvent) :=
  ch <$> store h !! c.

(** Whether a client is subscribed to the channel of an event. *)
Definition subscribed (h : SSEHub) (c : addr) (ev : sseEvent) : bool :=
  match clients h !! ev_Channel ev with
  | Some subs => bool_decide (c ∈ subs)
  | None => false
  end.

(** A frame of [b] followed by [rest] on a child's stdout. *)
Definition framed (b rest : list byte) : list byte :=
  PutUint32 (Z.of_nat (length b)) ++ b ++ rest.

(** The state in which the body of [Handle] and the relay of [Stream] run
    and end: at most the caller's own request in flight, never Draining, flag
    and state in agreement. *)
Definition in_call (w : Worker) : Prop :=
  (inFlight w = 0 \/ inFlight w = 1) /\ state w <> WorkerDraining /\ flags_agree w.

(** A child that has relayed nothing and stays silent, and one that goes
    silent after its headers frame. *)
Definition silent : Proc := child [] EndSilent.
Definition silentAfterHeaders : Proc := child (onWire headersJSON) EndSilent.

(** A worker with a request timeout of 100ms on child [p]. *)
Definition timedWorker (p : Proc) : Worker :=
  {| cmd := p; baseDir := "/srv/app"; dead := false; maxRequests := 0;
     requestTimeout := 100000000; requestCount := 0; state := WorkerIdle;
     inFlight := 0; children := fun _ => inr answering; spawns := 1 |}.

(** A sink whose client has gone: every [Write] fails. *)
Definition clientGone : error := errorString "write tcp: broken pipe".
Definition brokenSink : Sink :=
  {| calls := []; write_err := fun _ => Some clientGone; flusher := true |}.

(** What [DrainAll] does to one worker: [if !w.isDead() { w.startDraining() }]. *)
Definition drainLive (w : Worker) : Worker :=
  if isDead w then w else startDraining w.

(** Every slot of a pool holds a worker that exists. *)
Definition pool_full (h : gmap addr Worker) (p : WorkerPool) : Prop :=
  forall slot, slot ∈ workers p -> exists a w, slot = Some a /\ h !! a = Some w.

(** What the [select] of [run] does to one client: the event joins the
    buffer if it has room. *)
Definition deliver (ev : sseEvent) (cl : sseClient) : sseClient :=
  if (length (ch cl) <? clientCap)%nat
  then {| ch := ch cl ++ [ev]; done := done cl |}
  else cl.

(** A server over [healthyHeap]: workers 0 and 1 in the fast pool, worker 2
    in the slow pool; the same with a nil slot in the fast pool; and a
    request that is classified slow by its method. *)
Definition twoPools : Server :=
  {| fastPool := {| workers := [Some 0%nat; Some 1%nat]; next := 0 |};
     slowPool := {| workers := [Some 2%nat]; next := 0 |} |}.
Definition nilSlotPools : Server :=
  {| fastPool := {| workers := [Some 0%nat; None]; next := 0 |};
     slowPool := {| workers := [Some 2%nat]; next := 0 |} |}.
Definition slowRequest : RequestPayload :=
  {| req_ID := "2"; req_Method := "DELETE"; req_Path := "/items/7";
     req_Headers := []; req_Body := "" |}.


(** Events on "news" and on "sport". *)
Definition newsEvent (n : Z) : sseEvent :=
  {| ev_Channel := "news"; ev_Event := "update"; ev_Data := [byte_of_Z n] |}.
Definition sportEvent : sseEvent :=
  {| ev_Channel := "sport"; ev_Event := "score"; ev_Data := [] |}.

(** * Properties *)

(** ** Records and flags *)

Lemma set_cmd_id (w : Worker) : set_cmd w (cmd w) = w.
Proof. by destruct w. Qed.

Lemma isDead_markDead (w : Worker) : isDead (markDead w) = true.
Proof. reflexivity. Qed.

Lemma state_markDead (w : Worker) : state (markDead w) = WorkerDead.
Proof. reflexivity. Qed.

Lemma isDraining_markDead (w : Worker) : isDraining (markDead w) = false.
Proof. reflexivity. Qed.

Lemma isDraining_true (w : Worker) :
  isDraining w = true <-> state w = WorkerDraining.
Proof. unfold isDraining. by rewrite bool_decide_eq_true. Qed.

Lemma isDraining_false (w : Worker) :
  isDraining w = false <-> state w <> WorkerDraining.
Proof. unfold isDraining. by rewrite bool_decide_eq_false. Qed.

(** ** The length header *)

Lemma Z_of_byte_of_Z (z : Z) : Z_of_byte (byte_of_Z z) = z mod 2 ^ 8.
Proof.
  unfold Z_of_byte, byte_of_Z. change 256 with (2 ^ 8).
  pose proof (Z.mod_pos_bound z (2 ^ 8) ltac:(lia)) as Hb.
  destruct (Byte.of_N (Z.to_N (z mod 2 ^ 8))) as [b|] eqn:Hof.
  - apply Byte.to_of_N in Hof. rewrite Hof. apply Z2N.id. lia.
  - apply Byte.of_N_None_iff in Hof. lia.
Qed.

Lemma testbit_byte_at (v k i : Z) :
  0 <= k -> 0 <= i ->
  Z.testbit (Z.shiftl (Z.shiftr v k mod 2 ^ 8) k) i
    = (k <=? i) && (i <? k + 8) && Z.testbit v i.
Proof.
  intros Hk Hi. rewrite Z.shiftl_spec by done.
  destruct (k <=? i) eqn:Hle; simpl.
  - apply Z.leb_le in Hle. destruct (i <? k + 8) eqn:Hlt; simpl.
    + apply Z.ltb_lt in Hlt. rewrite Z.mod_pow2_bits_low by lia.
      rewrite Z.shiftr_spec by lia. f_equal. lia.
    + apply Z.ltb_ge in Hlt. apply Z.mod_pow2_bits_high. lia.
  - apply Z.leb_gt in Hle. apply Z.testbit_neg_r. lia.
Qed.

(** Decoding the four bytes written for a length gives the length back. *)
Lemma Uint32_PutUint32 (v : Z) : 0 <= v < 2 ^ 32 -> Uint32 (PutUint32 v) = v.
Proof.
  intros Hv. unfold Uint32, PutUint32. rewrite !Z_of_byte_of_Z.
  apply Z.bits_inj'. intros i Hi.
  replace (v mod 2 ^ 8) with (Z.shiftl (Z.shiftr v 0 mod 2 ^ 8) 0)
    by (by rewrite Z.shiftl_0_r, Z.shiftr_0_r).
  rewrite !Z.lor_spec, !testbit_byte_at by lia.
  assert (Hhigh : 32 <= i -> Z.testbit v i = false).
  { intros Hge. rewrite <- (Z.mod_small v (2 ^ 32)) by done.
    apply Z.mod_pow2_bits_high. lia. }
  destruct (Z.testbit v i) eqn:Hbit; [|by rewrite !andb_false_r].
  rewrite !andb_true_r.
  destruct (Z_lt_le_dec i 32) as [Hlt|Hge]; [|by apply Hhigh in Hge].
  destruct (24 <=? i) eqn:H24; destruct (16 <=? i) eqn:H16;
    destruct (8 <=? i) eqn:H8; destruct (0 <=? i) eqn:H0;
    destruct (i <? 24 + 8) eqn:G24; destruct (i <? 16 + 8) eqn:G16;
    destruct (i <? 8 + 8) eqn:G8; destruct (i <? 0 + 8) eqn:G0; simpl; try done;
    lia.
Qed.

(** ** The broken-pipe class *)

(** The class, spelled out. *)
Lemma isBrokenPipe_class (err : error) :
  isBrokenPipe err = true <->
  err = io_EOF \/ err = io_ErrUnexpectedEOF \/
  Contains (Error err) "broken pipe" = true \/
  Contains (Error err) "write |1:" = true \/
  Contains (Error err) "read |0:" = true.
Proof.
  unfold isBrokenPipe. rewrite !orb_true_iff.
  assert (Heof : is_EOF err = true <-> err = io_EOF) by (by destruct err).
  assert (Hueof : is_ErrUnexpectedEOF err = true <-> err = io_ErrUnexpectedEOF)
    by (by destruct err).
  rewrite Heof, Hueof. tauto.
Qed.

Example broken_pipe_class_members :
  isBrokenPipe io_EOF = true /\
  isBrokenPipe io_ErrUnexpectedEOF = true /\
  isBrokenPipe (errorString "write |1: broken pipe") = true /\
  isBrokenPipe (errorString "read |0: file already closed") = true /\
  isBrokenPipe (errorString "worker request timeout after 100ms") = false /\
  isBrokenPipe syntaxError = false /\
  isBrokenPipe (errorString "EOF") = false.
Proof. vm_compute. repeat split. Qed.

(** ** The relay loop terminates *)

(** [ReadFull] takes exactly the bytes it returns. *)
Lemma ReadFull_Done (p p' : Proc) (n : nat) (b : list byte) :
  ReadFull p n = (Done b, p') ->
  length b = n /\ (length (p_pending p') + n = length (p_pending p))%nat.
Proof.
  unfold ReadFull. destruct (n <=? length (p_pending p))%nat eqn:Hle.
  - apply Nat.leb_le in Hle. intros [= <- <-]. simpl.
    rewrite length_take, length_drop. lia.
  - by destruct (p_end p).
Qed.

Section Totality.

Variable lib : GoLib.

(** The relay loop never runs out of fuel when it is given more fuel than
    there are bytes pending, as [streamInternal] gives it. *)
Lemma streamLoop_total (fuel : nat) :
  forall (w : Worker) (st : RelayState) (rw : Sink),
  (length (p_pending (cmd w)) < fuel)%nat ->
  is_Some (streamLoop lib fuel w st rw).
Proof.
  induction fuel as [|fuel IH]; intros w st rw Hfuel; [lia|]. simpl.
  destruct (ReadFull (cmd w) 4) as [[hdr| e | |m] p1] eqn:Hhdr; try done.
  destruct ((Uint32 hdr =? 0) || (maxFrameLen <? Uint32 hdr)); [done|].
  destruct (ReadFull p1 _) as [[frameJSON| e | |m] p2] eqn:Hbody; try done.
  destruct (json_Unmarshal_frame lib frameJSON) as [e|frame]; [done|].
  destruct (relayFrame lib frame st rw) as [[[|[e|]] st1] rw1]; try done.
  apply IH. simpl.
  apply ReadFull_Done in Hhdr as [_ Hhdr]. apply ReadFull_Done in Hbody as [_ Hbody].
  lia.
Qed.

Lemma streamInternal_total (w : Worker) (req : RequestPayload) (rw : Sink) (p2 : Proc) :
  sendRequest lib (cmd w) req = (None, p2) ->
  is_Some (streamLoop lib (S (length (p_pending p2))) (set_cmd w p2) relayInit rw).
Proof. intros _. apply streamLoop_total. simpl. lia. Qed.

End Totality.

(** ** Flag and state agree *)

Section Flags.

Variable lib : GoLib.

Lemma flags_agree_markDead (w : Worker) : flags_agree (markDead w).
Proof. done. Qed.

Lemma flags_agree_set_cmd (w : Worker) (p : Proc) :
  flags_agree w -> flags_agree (set_cmd w p).
Proof. done. Qed.

Lemma flags_agree_startDraining (w : Worker) :
  flags_agree w -> flags_agree (startDraining w).
Proof.
  unfold flags_agree, startDraining. intros Hag.
  destruct (decide (state w = WorkerDead)); [done|]. simpl.
  split; [|done]. intros Hd. by apply Hag in Hd.
Qed.

Lemma flags_agree_restart (w : Worker) :
  flags_agree w -> flags_agree (snd (restart w)).
Proof. unfold restart. by destruct (children w (spawns w)). Qed.

Lemma flags_agree_enter (w : Worker) :
  isDead w = false -> flags_agree (enter w).
Proof. unfold flags_agree, isDead. simpl. intros ->. done. Qed.

Lemma flags_agree_complete (w : Worker) :
  flags_agree w -> flags_agree (complete w).
Proof.
  unfold flags_agree, complete, decrInFlight, isDead, isDraining, getInFlight.
  destruct w as [p base d k t c s n kids sp]. simpl. intros Hag.
  destruct (0 <? n); simpl;
    destruct (_ =? 0); simpl;
    destruct (bool_decide (s = WorkerDraining)); simpl; try done;
    destruct d; simpl; done.
Qed.

Lemma flags_agree_countRequest (w : Worker) :
  flags_agree w -> flags_agree (countRequest w).
Proof. unfold countRequest. by destruct (_ && _). Qed.

Lemma flags_agree_handleRequest (w : Worker) (req : RequestPayload) :
  flags_agree w -> flags_agree (snd (handleRequest lib w req)).
Proof.
  intros Hag. unfold handleRequest.
  destruct (sendRequest lib (cmd w) req) as [[e|] p2]; [done|].
  destruct (readResponse lib p2) as [[resp|e| |m] p3]; try done.
  by destruct (0 <? requestTimeout w).
Qed.

Lemma flags_agree_handleLoop (n : nat) (w : Worker) (req : RequestPayload) :
  flags_agree w -> flags_agree (snd (handleLoop lib n w req)).
Proof.
  revert w. induction n as [|n IH]; intros w Hag; simpl; [done|].
  assert (Hstep : forall v, flags_agree v ->
            flags_agree (snd
               match handleRequest lib v req with
               | (Done resp, w2) => (Done resp, countRequest w2)
               | (Failed err, w2) =>
                   if isBrokenPipe err then handleLoop lib n (markDead w2) req
                   else (Failed err, w2)
               | (Blocked, w2) => (Blocked, w2)
               | (Panic m, w2) => (Panic m, w2)
               end)).
  { intros v Hv. pose proof (flags_agree_handleRequest v req Hv) as Hreq.
    destruct (handleRequest lib v req) as [[resp|e| |m] w2]; simpl in *; try done.
    - by apply flags_agree_countRequest.
    - destruct (isBrokenPipe e); [|done]. apply IH, flags_agree_markDead. }
  destruct (isDead w); [|by apply Hstep].
  pose proof (flags_agree_restart w Hag) as Hre.
  destruct (restart w) as [[[]|e| |m] w2]; simpl in *; try done.
  by apply Hstep.
Qed.

(** [Handle] keeps flag and state in agreement. *)
Lemma flags_agree_Handle (w : Worker) (req : RequestPayload) :
  flags_agree w -> flags_agree (snd (Handle lib w req)).
Proof.
  intros Hag. unfold Handle.
  destruct (isDead w) eqn:Hd; [done|]. destruct (isDraining w); [done|].
  pose proof (flags_agree_handleLoop 2 (enter w) req (flags_agree_enter w Hd)) as Hloop.
  destruct (handleLoop lib 2 (enter w) req) as [[resp|e| |m] w1]; simpl in *;
    try done; by apply flags_agree_complete.
Qed.

Lemma flags_agree_streamLoop (fuel : nat) :
  forall (w w1 : Worker) (st : RelayState) (rw rw1 : Sink) (res : outcome unit),
  flags_agree w ->
  streamLoop lib fuel w st rw = Some (res, w1, rw1) -> flags_agree w1.
Proof.
  induction fuel as [|fuel IH]; intros w w1 st rw rw1 res Hag; simpl; [done|].
  destruct (ReadFull (cmd w) 4) as [[hdr| e | |m] p1]; try by intros [= _ <- _].
  destruct ((Uint32 hdr =? 0) || (maxFrameLen <? Uint32 hdr));
    [by intros [= _ <- _]|].
  destruct (ReadFull p1 _) as [[frameJSON| e | |m] p2]; try by intros [= _ <- _].
  destruct (json_Unmarshal_frame lib frameJSON) as [e|frame]; [by intros [= _ <- _]|].
  destruct (relayFrame lib frame st rw) as [[[|[e|]] st1] rw2];
    try by intros [= _ <- _].
  by apply IH.
Qed.

(** [Stream] keeps flag and state in agreement. *)
Lemma flags_agree_Stream (w : Worker) (req : RequestPayload) (rw : Sink) :
  flags_agree w -> flags_agree (snd (fst (Stream lib w req rw))).
Proof.
  intros Hag. unfold Stream.
  destruct (isDead w) eqn:Hd; [done|]. destruct (isDraining w); [done|]. simpl.
  pose proof (flags_agree_enter w Hd) as Hin.
  assert (Hint : flags_agree (snd (fst (streamInternal lib (enter w) req rw)))).
  { unfold streamInternal. destruct (isDead (enter w)); [done|].
    destruct (sendRequest lib (cmd (enter w)) req) as [[e|] p2]; [done|].
    destruct (streamLoop lib _ _ _ _) as [[[res w1] rw1]|] eqn:Hloop; [|done].
    simpl. eapply flags_agree_streamLoop; [|exact Hloop].
    by apply flags_agree_set_cmd. }
  destruct (streamInternal lib (enter w) req rw) as [[[[]|e| |m] w1] rw1];
    simpl in *; try by apply flags_agree_complete.
  destruct (0 <? requestTimeout w1); [|done]. simpl.
  by apply flags_agree_complete.
Qed.


End Flags.

(** ** Admission *)

Section Admission.

Variable lib : GoLib.

Lemma Handle_dead (w : Worker) (req : RequestPayload) :
  isDead w = true -> Handle lib w req = (Failed ErrWorkerDead, w).
Proof. intros Hd. unfold Handle. by rewrite Hd. Qed.

Lemma Handle_draining (w : Worker) (req : RequestPayload) :
  isDead w = false -> isDraining w = true ->
  Handle lib w req = (Failed ErrWorkerDraining, w).
Proof. intros Hd Hdr. unfold Handle. by rewrite Hd, Hdr. Qed.

Lemma Handle_entered (w : Worker) (req : RequestPayload) :
  isDead w = false -> isDraining w = false ->
  Handle lib w req = deferred (handleLoop lib 2 (enter w) req).
Proof. intros Hd Hdr. unfold Handle. by rewrite Hd, Hdr. Qed.

Lemma Stream_dead (w : Worker) (req : RequestPayload) (rw : Sink) :
  isDead w = true -> Stream lib w req rw = (Failed ErrWorkerDead, w, rw).
Proof. intros Hd. unfold Stream. by rewrite Hd. Qed.

Lemma Stream_draining (w : Worker) (req : RequestPayload) (rw : Sink) :
  isDraining w = true -> Stream lib w req rw = (Failed ErrWorkerDead, w, rw).
Proof. intros Hdr. unfold Stream. by rewrite Hdr, orb_true_r. Qed.

(** C1.  The claim asks [Stream], like [Handle], to refuse a draining worker
    with [ErrWorkerDraining].  [Handle] does; [Stream] refuses a worker that
    is draining and not dead with [ErrWorkerDead].  Both leave the worker,
    hence its streams, and the sink untouched. *)
Theorem Stream_refuses_draining_as_dead
    (w : Worker) (req : RequestPayload) (rw : Sink) :
  isDead w = false -> isDraining w = true ->
  Handle lib w req = (Failed ErrWorkerDraining, w) /\
  Stream lib w req rw = (Failed ErrWorkerDead, w, rw) /\
  fst (fst (Stream lib w req rw)) <> Failed ErrWorkerDraining.
Proof.
  intros Hd Hdr. split; [by apply Handle_draining|].
  rewrite Stream_draining by done. split; [done|]. simpl. congruence.
Qed.

End Admission.

Lemma Stream_refuses_draining_as_dead_witness :
  isDead w_draining = false /\ isDraining w_draining = true /\
  Stream exampleLib w_draining exampleRequest emptySink
    = (Failed ErrWorkerDead, w_draining, emptySink).
Proof.
  split; [reflexivity|]. split; [reflexivity|].
  apply (Stream_refuses_draining_as_dead exampleLib w_draining exampleRequest
           emptySink); reflexivity.
Defined.

(** ** Selection *)

Section Selection.

Variable h : gmap addr Worker.

Lemma selectable_spec (a : addr) (w : Worker) :
  h !! a = Some w ->
  selectable h (Some a) = true <-> isDead w = false /\ isDraining w = false.
Proof.
  intros Ha. simpl. rewrite Ha, andb_true_iff, !negb_true_iff. tauto.
Qed.

(** With flag and state in agreement, the test of the selection is "neither
    Dead nor Draining". *)
Lemma selectable_state (a : addr) (w : Worker) :
  h !! a = Some w -> flags_agree w ->
  selectable h (Some a) = true <->
  state w <> WorkerDead /\ state w <> WorkerDraining.
Proof.
  intros Ha Hag. rewrite (selectable_spec a w Ha), isDraining_false.
  unfold flags_agree, isDead in *.
  destruct (dead w); split; intros [H1 H2]; split; try done.
  all: try (intros Hs; apply Hag in Hs; done).
  all: try (exfalso; apply H1; by apply Hag).
Qed.

Lemma selectable_dead (a : addr) (w : Worker) :
  h !! a = Some w -> isDead w = true -> selectable h (Some a) = false.
Proof. intros Ha Hd. simpl. by rewrite Ha, Hd. Qed.

Lemma nextLoop_cursor (ws : list (option addr)) (n iters nxt : nat) :
  (nxt < n)%nat -> (snd (nextLoop h ws n iters nxt) < n)%nat.
Proof.
  revert nxt. induction iters as [|i IH]; intros nxt Hlt; simpl; [done|].
  destruct (ws !! nxt) as [slot|]; [|done].
  assert ((nxt + 1) mod n < n)%nat by (apply Nat.mod_upper_bound; lia).
  destruct (selectable h slot); [done|]. by apply IH.
Qed.

(** Whatever the loop returns passed the test and sits in the list. *)
Lemma nextLoop_sound (ws : list (option addr)) (n iters nxt nxt' : nat)
    (slot : option addr) :
  nextLoop h ws n iters nxt = (Done slot, nxt') ->
  slot = None \/ (selectable h slot = true /\ slot ∈ ws).
Proof.
  revert nxt. induction iters as [|i IH]; intros nxt; simpl.
  - intros [= <- _]. by left.
  - destruct (ws !! nxt) as [s|] eqn:Hs; [|done].
    destruct (selectable h s) eqn:Hsel.
    + intros [= <- _]. right. split; [done|]. by eapply list_elem_of_lookup_2.
    + apply IH.
Qed.

Lemma nextLoop_found (ws : list (option addr)) (n : nat) (slot : option addr) :
  forall (k iters nxt : nat),
  (k < iters)%nat -> (nxt < n)%nat ->
  (forall j s, (j < k)%nat -> ws !! ((nxt + j) mod n)%nat = Some s ->
               selectable h s = false) ->
  (forall j, (j < k)%nat -> is_Some (ws !! ((nxt + j) mod n)%nat)) ->
  ws !! ((nxt + k) mod n)%nat = Some slot -> selectable h slot = true ->
  nextLoop h ws n iters nxt = (Done slot, ((nxt + k + 1) mod n)%nat).
Proof.
  induction k as [|k IH]; intros iters nxt Hk Hn Hskip Hin Hslot Hsel;
    (destruct iters as [|i]; [lia|]); simpl.
  - rewrite Nat.add_0_r, Nat.mod_small in Hslot by done.
    by rewrite Hslot, Hsel, Nat.add_0_r.
  - destruct (Hin 0%nat) as [s Hs]; [lia|].
    pose proof (Hskip 0%nat s ltac:(lia) Hs) as Hns.
    rewrite Nat.add_0_r, Nat.mod_small in Hs by done.
    rewrite Hs, Hns.
    assert (Hshift : forall j, (((nxt + 1) mod n + j) mod n = (nxt + S j) mod n)%nat).
    { intros j. rewrite Nat.Div0.add_mod_idemp_l. f_equal. lia. }
    rewrite (IH i ((nxt + 1) mod n)%nat).
    + f_equal. rewrite <- Nat.add_assoc, Hshift. f_equal. lia.
    + lia.
    + apply Nat.mod_upper_bound. lia.
    + intros j s' Hj. rewrite Hshift. apply Hskip. lia.
    + intros j Hj. rewrite Hshift. apply Hin. lia.
    + by rewrite Hshift.
    + done.
Qed.

Lemma nextLoop_none (ws : list (option addr)) (n : nat) :
  forall (iters nxt : nat),
  (nxt < n)%nat ->
  (forall j s, (j < iters)%nat -> ws !! ((nxt + j) mod n)%nat = Some s ->
               selectable h s = false) ->
  (forall j, (j < iters)%nat -> is_Some (ws !! ((nxt + j) mod n)%nat)) ->
  nextLoop h ws n iters nxt = (Done None, ((nxt + iters) mod n)%nat).
Proof.
  induction iters as [|i IH]; intros nxt Hn Hskip Hin; simpl.
  - by rewrite Nat.add_0_r, Nat.mod_small.
  - destruct (Hin 0%nat) as [s Hs]; [lia|].
    pose proof (Hskip 0%nat s ltac:(lia) Hs) as Hns.
    rewrite Nat.add_0_r, Nat.mod_small in Hs by done.
    rewrite Hs, Hns.
    assert (Hshift : forall j, (((nxt + 1) mod n + j) mod n = (nxt + S j) mod n)%nat).
    { intros j. rewrite Nat.Div0.add_mod_idemp_l. f_equal. lia. }
    rewrite IH.
    + f_equal. by rewrite Hshift.
    + apply Nat.mod_upper_bound. lia.
    + intros j s' Hj. rewrite Hshift. apply Hskip. lia.
    + intros j Hj. rewrite Hshift. apply Hin. lia.
Qed.

End Selection.

Section RoundRobin.

Variable h : gmap addr Worker.

Lemma nextLoop_Done (ws : list (option addr)) (iters nxt : nat) :
  (nxt < length ws)%nat ->
  exists slot nxt', nextLoop h ws (length ws) iters nxt = (Done slot, nxt').
Proof.
  revert nxt. induction iters as [|i IH]; intros nxt Hn; simpl; [by eauto|].
  destruct (lookup_lt_is_Some_2 ws nxt Hn) as [s Hs]. rewrite Hs.
  destruct (selectable h s); [by eauto|].
  apply IH, Nat.mod_upper_bound. lia.
Qed.

Lemma nextLoop_none_inv (ws : list (option addr)) (n : nat) :
  forall (iters nxt nxt' : nat),
  (nxt < n)%nat ->
  nextLoop h ws n iters nxt = (Done None, nxt') ->
  forall j s, (j < iters)%nat -> ws !! ((nxt + j) mod n)%nat = Some s ->
              selectable h s = false.
Proof.
  induction iters as [|i IH]; intros nxt nxt' Hn Hrun j s Hj Hs; [lia|].
  simpl in Hrun. destruct (ws !! nxt) as [s0|] eqn:Hs0; [|done].
  destruct (selectable h s0) eqn:Hsel.
  { injection Hrun as -> _. done. }
  destruct j as [|j].
  - rewrite Nat.add_0_r, Nat.mod_small in Hs by done. congruence.
  - apply (IH _ _ ltac:(apply Nat.mod_upper_bound; lia) Hrun j); [lia|].
    rewrite Nat.Div0.add_mod_idemp_l. rewrite <- Hs. f_equal. f_equal. lia.
Qed.

(** Every index is reached from the cursor within one round. *)
Lemma round_reaches (n i nxt : nat) :
  (i < n)%nat -> (nxt < n)%nat ->
  ((nxt + (i + n - nxt) mod n) mod n = i)%nat /\ ((i + n - nxt) mod n < n)%nat.
Proof.
  intros Hi Hn. split; [|apply Nat.mod_upper_bound; lia].
  rewrite Nat.Div0.add_mod_idemp_r.
  replace (nxt + (i + n - nxt))%nat with (i + 1 * n)%nat by lia.
  rewrite Nat.Div0.mod_add. by apply Nat.mod_small.
Qed.

Lemma NextWorker_workers (p : WorkerPool) :
  workers (snd (NextWorker h p)) = workers p.
Proof.
  unfold NextWorker. destruct (length (workers p) =? 0)%nat; [done|].
  by destruct (nextLoop _ _ _ _ _).
Qed.

Lemma NextWorker_cursor (p : WorkerPool) :
  (next p < length (workers p))%nat ->
  (next (snd (NextWorker h p)) < length (workers p))%nat.
Proof.
  intros Hn. unfold NextWorker. destruct (length (workers p) =? 0)%nat; [done|].
  pose proof (nextLoop_cursor h (workers p) _ (length (workers p)) _ Hn) as Hc.
  by destruct (nextLoop _ _ _ _ _).
Qed.

Lemma cursor_ok_NextWorker (p : WorkerPool) :
  cursor_ok p -> cursor_ok (snd (NextWorker h p)).
Proof.
  intros [Hlt | [Hnil Hz]].
  - left. rewrite NextWorker_workers. by apply NextWorker_cursor.
  - right. unfold NextWorker. by rewrite Hnil.
Qed.

(** A pool with a single slot that passes the test returns that slot,
    wherever the cursor stands. *)
Lemma NextWorker_sole (p : WorkerPool) (i : nat) (slot : option addr) :
  (next p < length (workers p))%nat ->
  workers p !! i = Some slot -> selectable h slot = true ->
  (forall j s, j <> i -> workers p !! j = Some s -> selectable h s = false) ->
  fst (NextWorker h p) = Done slot.
Proof.
  intros Hn Hi Hsel Hothers. unfold NextWorker.
  destruct (length (workers p) =? 0)%nat eqn:Hz.
  { apply Nat.eqb_eq in Hz. lia. }
  destruct (nextLoop_Done (workers p) (length (workers p)) (next p) Hn)
    as (slot' & nxt' & Hrun).
  rewrite Hrun. simpl. f_equal.
  pose proof (lookup_lt_Some _ _ _ Hi) as Hilt.
  destruct (nextLoop_sound h _ _ _ _ _ _ Hrun) as [-> | [Hsel' Hin]].
  - destruct (round_reaches _ i (next p) Hilt Hn) as [Hreach Hlt].
    pose proof (nextLoop_none_inv _ _ _ _ _ Hn Hrun _ slot Hlt) as Hno.
    rewrite Hreach in Hno. specialize (Hno Hi). congruence.
  - apply list_elem_of_lookup_1 in Hin as [j Hj].
    destruct (decide (j = i)) as [->|Hne]; [congruence|].
    rewrite (Hothers j slot' Hne Hj) in Hsel'. done.
Qed.

(** C3.  [NextWorker] on a pool of [n > 0] workers with the cursor in range:
    - if, counting from the cursor and wrapping round, the slot [k < n]
      places on is the first that passes the test (not nil, not dead, not
      draining), it is returned and the cursor is left one past it;
    - if no slot passes the test, it returns nil after [n] slots, the cursor
      is back where it was, and [Dispatch] returns [ErrNoWorkers] without
      touching a worker;
    - if exactly one slot passes the test, every one of [m] calls in a row
      returns it (the scenario of the claim has [m = 4]).
    An empty pool gives nil without looking at anything. *)
Theorem NextWorker_round_robin (p : WorkerPool) :
  let n := length (workers p) in
  (workers p = [] -> NextWorker h p = (Done None, p)) /\
  ((next p < n)%nat ->
   (forall k slot, (k < n)%nat ->
      workers p !! ((next p + k) mod n)%nat = Some slot ->
      selectable h slot = true ->
      (forall j s, (j < k)%nat -> workers p !! ((next p + j) mod n)%nat = Some s ->
                   selectable h s = false) ->
      NextWorker h p =
        (Done slot, {| workers := workers p; next := ((next p + k + 1) mod n)%nat |})) /\
   ((forall s, s ∈ workers p -> selectable h s = false) ->
      NextWorker h p = (Done None, p) /\
      forall lib req, Dispatch lib h p req = (Failed ErrNoWorkers, h, p)) /\
   (forall i slot, workers p !! i = Some slot -> selectable h slot = true ->
      (forall j s, j <> i -> workers p !! j = Some s -> selectable h s = false) ->
      forall m, fst (nextWorkerN m h p) = replicate m (Done slot))).
Proof.
  intros n. split.
  { intros Hnil. unfold NextWorker. by rewrite Hnil. }
  intros Hn. subst n.
  assert (Hz : (length (workers p) =? 0)%nat = false) by (apply Nat.eqb_neq; lia).
  assert (Hin : forall j, is_Some (workers p !! ((next p + j) mod length (workers p))%nat)).
  { intros j. apply lookup_lt_is_Some_2, Nat.mod_upper_bound. lia. }
  split; [|split].
  - intros k slot Hk Hslot Hsel Hskip. unfold NextWorker. rewrite Hz.
    by rewrite (nextLoop_found h (workers p) _ slot k _ (next p) Hk Hn Hskip
                  (fun j _ => Hin j) Hslot Hsel).
  - intros Hnone.
    assert (Hnw : NextWorker h p = (Done None, p)).
    { unfold NextWorker. rewrite Hz.
      rewrite (nextLoop_none h (workers p) _ _ (next p) Hn).
      - replace (next p + length (workers p))%nat
          with (next p + 1 * length (workers p))%nat by lia.
        rewrite Nat.Div0.mod_add, Nat.mod_small by done. by destruct p.
      - intros j s _ Hs. apply Hnone. by eapply list_elem_of_lookup_2.
      - intros j _. apply Hin. }
    split; [done|]. intros lib req. unfold Dispatch. by rewrite Hnw.
  - intros i slot Hi Hsel Hothers m. clear Hz Hin. revert p Hn Hi Hothers.
    induction m as [|m IH]; intros p Hn Hi Hothers; [done|].
    simpl.
    pose proof (NextWorker_sole p i slot Hn Hi Hsel Hothers) as Hfst.
    pose proof (NextWorker_workers p) as Hws.
    pose proof (NextWorker_cursor p Hn) as Hcur.
    destruct (NextWorker h p) as [res p1]. simpl in *. subst res.
    specialize (IH p1). rewrite Hws in IH.
    destruct (nextWorkerN m h p1) as [rs p2]. simpl in *. f_equal.
    by apply IH.
Qed.

End RoundRobin.

Lemma NextWorker_round_robin_witness :
  (next threePool < length (workers threePool))%nat /\
  fst (nextWorkerN 4 threeHeap threePool)
    = [Done (Some 2%nat); Done (Some 2%nat); Done (Some 2%nat); Done (Some 2%nat)].
Proof.
  split; [simpl; lia|].
  destruct (NextWorker_round_robin threeHeap threePool) as [_ Hrr].
  destruct (Hrr ltac:(simpl; lia)) as (_ & _ & Hsole).
  apply (Hsole 2%nat (Some 2%nat)).
  - reflexivity.
  - reflexivity.
  - intros j s Hj Hs.
    destruct j as [|[|[|j]]]; unfold threePool in Hs; simpl in Hs;
      try (rewrite lookup_nil in Hs; discriminate Hs);
      try (exfalso; apply Hj; reflexivity);
      injection Hs as <-; reflexivity.
Defined.

(** ** Dead workers *)

Lemma NextWorker_sound (h : gmap addr Worker) (p : WorkerPool) (a : addr) :
  fst (NextWorker h p) = Done (Some a) -> selectable h (Some a) = true.
Proof.
  unfold NextWorker. destruct (length (workers p) =? 0)%nat; [done|].
  destruct (nextLoop _ _ _ _ _) as [res nxt] eqn:Hrun. simpl. intros ->.
  by destruct (nextLoop_sound _ _ _ _ _ _ _ Hrun) as [? | [? _]].
Qed.

(** C2.  The claim has a worker whose dead flag is set restarted on its
    next use.  In the code that next use never comes: [Handle] and [Stream]
    return [ErrWorkerDead] before reaching the restart they contain, leaving
    the worker as it was (no child started), and [NextWorker] never hands
    out a dead worker. *)
Theorem dead_worker_is_refused_not_restarted
    (lib : GoLib) (w : Worker) (req : RequestPayload) (rw : Sink) :
  isDead w = true ->
  Handle lib w req = (Failed ErrWorkerDead, w) /\
  Stream lib w req rw = (Failed ErrWorkerDead, w, rw) /\
  (forall h p a, h !! a = Some w -> fst (NextWorker h p) <> Done (Some a)).
Proof.
  intros Hd. split; [by apply Handle_dead|]. split; [by apply Stream_dead|].
  intros h p a Ha Hnw. apply NextWorker_sound in Hnw.
  rewrite (selectable_dead h a w Ha Hd) in Hnw. done.
Qed.

Lemma dead_worker_is_refused_not_restarted_witness :
  isDead w_dead = true /\
  Handle exampleLib w_dead exampleRequest = (Failed ErrWorkerDead, w_dead).
Proof.
  split; [reflexivity|].
  apply (dead_worker_is_refused_not_restarted exampleLib w_dead exampleRequest
           emptySink); reflexivity.
Defined.

(** Scenario 2 of the specification on the code: a pool of one worker with
    [max_requests = 2].  Two dispatches succeed and leave the worker dead; the
    third finds no worker, and the worker still has its first child. *)
Example recycled_worker_is_not_revived :
  let '(rs, h, p) := dispatchN exampleLib 3 oneHeap onePool exampleRequest in
  rs = [Done okResponse; Done okResponse; Failed ErrNoWorkers] /\
  stats_DeadWorkers (Stats h p) = 1%nat /\
  (spawns <$> h !! 0%nat) = Some 1%nat /\
  (isDead <$> h !! 0%nat) = Some true.
Proof. vm_compute. repeat split. Qed.

(** ** The unary retry loop *)

Section Retry.

Variable lib : GoLib.

Lemma spawns_handleRequest (w : Worker) (req : RequestPayload) :
  spawns (snd (handleRequest lib w req)) = spawns w.
Proof.
  unfold handleRequest. destruct (sendRequest lib (cmd w) req) as [[e|] p2]; [done|].
  destruct (readResponse lib p2) as [[resp|e| |m] p3]; try done.
  by destruct (0 <? requestTimeout w).
Qed.

Lemma spawns_decrInFlight (w : Worker) : spawns (decrInFlight w) = spawns w.
Proof. unfold decrInFlight. by destruct (0 <? inFlight w). Qed.

Lemma isDead_decrInFlight (w : Worker) : isDead (decrInFlight w) = isDead w.
Proof. unfold decrInFlight. by destruct (0 <? inFlight w). Qed.

Lemma state_decrInFlight (w : Worker) : state (decrInFlight w) = state w.
Proof. unfold decrInFlight. by destruct (0 <? inFlight w). Qed.

Lemma spawns_complete (w : Worker) : spawns (complete w) = spawns w.
Proof.
  unfold complete.
  destruct (_ && _); [simpl; apply spawns_decrInFlight|].
  destruct (negb _); simpl; apply spawns_decrInFlight.
Qed.

Lemma cmd_complete (w : Worker) : cmd (complete w) = cmd w.
Proof.
  assert (Hc : cmd (decrInFlight w) = cmd w).
  { unfold decrInFlight. by destruct (0 <? inFlight w). }
  unfold complete. destruct (_ && _); [done|]. by destruct (negb _).
Qed.

(** Completion never clears the dead flag. *)
Lemma isDead_complete (w : Worker) :
  isDead w = true -> isDead (complete w) = true.
Proof.
  intros Hd. unfold complete. destruct (_ && _); [done|].
  rewrite isDead_decrInFlight, Hd. simpl. by rewrite isDead_decrInFlight.
Qed.

Lemma spawns_countRequest (w : Worker) : spawns (countRequest w) = spawns w.
Proof. unfold countRequest. by destruct (_ && _). Qed.

Lemma restart_Done (w w2 : Worker) :
  restart w = (Done tt, w2) ->
  spawns w2 = S (spawns w) /\ isDead w2 = false /\ state w2 = WorkerIdle /\
  inFlight w2 = 0 /\ requestCount w2 = 0 /\
  children w (spawns w) = inr (cmd w2).
Proof.
  unfold restart. destruct (children w (spawns w)) as [e|p]; [done|].
  by intros [= <-].
Qed.

Lemma restart_Failed (w w2 : Worker) (e : error) :
  restart w = (Failed e, w2) ->
  spawns w2 = S (spawns w) /\ isDead w2 = isDead w /\ state w2 = state w /\
  children w (spawns w) = inl e /\ cmd w2 = Kill (Close (cmd w)).
Proof.
  unfold restart. destruct (children w (spawns w)) as [e'|p]; [|done].
  by intros [= <- <-].
Qed.

Lemma restart_returns (w : Worker) :
  (exists w2, restart w = (Done tt, w2)) \/ (exists e w2, restart w = (Failed e, w2)).
Proof.
  unfold restart. destruct (children w (spawns w)); [right|left]; eauto.
Qed.

(** One pass of the loop on a live worker whose request fails. *)
Lemma handleLoop_failed (n : nat) (w w1 : Worker) (req : RequestPayload) (e : error) :
  isDead w = false ->
  handleRequest lib w req = (Failed e, w1) ->
  handleLoop lib (S n) w req =
    if isBrokenPipe e then handleLoop lib n (markDead w1) req
    else (Failed e, w1).
Proof. intros Hd Hrun. simpl. by rewrite Hd, Hrun. Qed.

(** C4.  [Handle] on a worker it lets in whose first attempt fails with
    [e1].
    - [e1] outside the broken-pipe class: [e1] is returned at once; no child
      is started.
    - [e1] in the class: the worker is marked dead and one more pass is
      made, which begins with a restart.  If the restart fails its error is
      returned.  Otherwise exactly one child has been started and the
      request is sent to it once: a reply is returned as success, an error
      outside the class as it is, and an error in the class as
      [io.ErrUnexpectedEOF], the worker staying dead and no further child
      being started. *)
Theorem Handle_retries_once
    (w w1 : Worker) (req : RequestPayload) (e1 : error) :
  isDead w = false -> isDraining w = false ->
  handleRequest lib (enter w) req = (Failed e1, w1) ->
  (isBrokenPipe e1 = false ->
     Handle lib w req = (Failed e1, complete w1) /\
     spawns (complete w1) = spawns w) /\
  (isBrokenPipe e1 = true ->
     isDead (markDead w1) = true /\ state (markDead w1) = WorkerDead /\
     (forall e w2, restart (markDead w1) = (Failed e, w2) ->
        Handle lib w req = (Failed e, complete w2) /\
        isDead (complete w2) = true) /\
     (forall w2, restart (markDead w1) = (Done tt, w2) ->
        spawns w2 = S (spawns w) /\
        (forall resp w3, handleRequest lib w2 req = (Done resp, w3) ->
           Handle lib w req = (Done resp, complete (countRequest w3))) /\
        (forall e2 w3, handleRequest lib w2 req = (Failed e2, w3) ->
           isBrokenPipe e2 = false ->
           Handle lib w req = (Failed e2, complete w3)) /\
        (forall e2 w3, handleRequest lib w2 req = (Failed e2, w3) ->
           isBrokenPipe e2 = true ->
           Handle lib w req = (Failed io_ErrUnexpectedEOF, complete (markDead w3)) /\
           isDead (complete (markDead w3)) = true /\
           spawns (complete (markDead w3)) = S (spawns w)))).
Proof.
  intros Hd Hdr Hfirst.
  pose proof (spawns_handleRequest (enter w) req) as Hsp.
  rewrite Hfirst in Hsp. simpl in Hsp.
  rewrite (Handle_entered lib w req Hd Hdr).
  rewrite (handleLoop_failed 1 (enter w) w1 req e1 Hd Hfirst).
  split; intros Hbp; rewrite Hbp.
  { split; [done|]. by rewrite spawns_complete. }
  split; [done|]. split; [done|]. split.
  - intros e w2 Hre. simpl. rewrite Hre. simpl. split; [done|].
    apply isDead_complete. by destruct (restart_Failed _ _ _ Hre) as (_ & -> & _).
  - intros w2 Hre. destruct (restart_Done _ _ Hre) as (Hsp2 & Hd2 & _).
    assert (Hsp2' : spawns w2 = S (spawns w)) by (rewrite Hsp2; simpl; by rewrite Hsp).
    split; [done|]. simpl. rewrite Hre.
    split; [|split].
    + intros resp w3 Hsecond. by rewrite Hsecond.
    + intros e2 w3 Hsecond Hbp2. by rewrite Hsecond, Hbp2.
    + intros e2 w3 Hsecond Hbp2. rewrite Hsecond, Hbp2. simpl.
      split; [done|]. split; [by apply isDead_complete|].
      pose proof (spawns_handleRequest w2 req) as Hsp3.
      rewrite Hsecond in Hsp3. simpl in Hsp3.
      rewrite spawns_complete. simpl. by rewrite Hsp3.
Qed.

End Retry.

Lemma Handle_retries_once_witness :
  let w := dyingWorker (fun _ => inr exited) in
  isDead w = false /\ isDraining w = false /\
  isBrokenPipe io_EOF = true /\
  fst (handleRequest exampleLib (enter w) exampleRequest) = Failed io_EOF /\
  fst (Handle exampleLib w exampleRequest) = Failed io_ErrUnexpectedEOF.
Proof.
  intros w. repeat (split; [reflexivity|]).
  destruct (Handle_retries_once exampleLib w
              (snd (handleRequest exampleLib (enter w) exampleRequest))
              exampleRequest io_EOF eq_refl eq_refl eq_refl) as [_ Hbp].
  destruct (Hbp eq_refl) as (_ & _ & _ & Hre).
  destruct (Hre _ eq_refl) as (_ & _ & _ & Htwice).
  destruct (Htwice io_EOF _ eq_refl eq_refl) as [-> _].
  reflexivity.
Defined.

(** Scenario 4 on the code: the child exits before answering.  With a
    second child that does the same, [Handle] returns [io.ErrUnexpectedEOF]
    and the worker is dead after one restart; with a second child that
    answers, the call succeeds and the worker is alive. *)
Example broken_pipe_twice :
  let '(res, w) := Handle exampleLib (dyingWorker (fun _ => inr exited)) exampleRequest in
  res = Failed io_ErrUnexpectedEOF /\ isDead w = true /\ spawns w = 2%nat.
Proof. vm_compute. repeat split. Qed.

Example broken_pipe_then_answer :
  let '(res, w) := Handle exampleLib (dyingWorker (fun _ => inr answering)) exampleRequest in
  res = Done okResponse /\ isDead w = false /\ state w = WorkerIdle /\
  spawns w = 2%nat.
Proof. vm_compute. repeat split. Qed.

Example broken_pipe_then_spawn_failure :
  let '(res, w) := Handle exampleLib (dyingWorker (fun _ => inl spawnFails)) exampleRequest in
  res = Failed spawnFails /\ isDead w = true /\ spawns w = 2%nat.
Proof. vm_compute. repeat split. Qed.

(** ** Request accounting *)

Section Accounting.

Variable lib : GoLib.

(** [handleRequest] touches the child, and on a timeout the flags; nothing
    else. *)
Lemma handleRequest_config (w : Worker) (req : RequestPayload) :
  let w2 := snd (handleRequest lib w req) in
  maxRequests w2 = maxRequests w /\ requestCount w2 = requestCount w /\
  inFlight w2 = inFlight w /\ children w2 = children w.
Proof.
  unfold handleRequest. destruct (sendRequest lib (cmd w) req) as [[e|] p2]; [done|].
  destruct (readResponse lib p2) as [[resp|e| |m] p3]; try done.
  by destruct (0 <? requestTimeout w).
Qed.

Lemma handleRequest_Done (w w2 : Worker) (req : RequestPayload) (resp : ResponsePayload) :
  handleRequest lib w req = (Done resp, w2) -> w2 = set_cmd w (cmd w2).
Proof.
  unfold handleRequest. destruct (sendRequest lib (cmd w) req) as [[e|] p2]; [done|].
  destruct (readResponse lib p2) as [[resp'|e| |m] p3]; try done.
  - by intros [= _ <-].
  - by destruct (0 <? requestTimeout w).
Qed.

Lemma spawns_handleLoop (n : nat) (w : Worker) (req : RequestPayload) :
  (spawns w <= spawns (snd (handleLoop lib n w req)))%nat.
Proof.
  revert w. induction n as [|n IH]; intros w; simpl; [done|].
  assert (Hstep : forall v, (spawns w <= spawns v)%nat ->
            (spawns w <= spawns (snd
               match handleRequest lib v req with
               | (Done resp, w2) => (Done resp, countRequest w2)
               | (Failed err, w2) =>
                   if isBrokenPipe err then handleLoop lib n (markDead w2) req
                   else (Failed err, w2)
               | (Blocked, w2) => (Blocked, w2)
               | (Panic m, w2) => (Panic m, w2)
               end))%nat).
  { intros v Hv. pose proof (spawns_handleRequest lib v req) as Hsp.
    destruct (handleRequest lib v req) as [[resp|e| |m] w2]; simpl in *.
    - rewrite spawns_countRequest. lia.
    - destruct (isBrokenPipe e); simpl; [|lia].
      etrans; [|apply IH]. simpl. lia.
    - lia.
    - lia. }
  destruct (isDead w); [|by apply Hstep].
  destruct (restart_returns w) as [[w2 Hre] | (e & w2 & Hre)]; rewrite Hre.
  - apply Hstep. destruct (restart_Done _ _ Hre) as [-> _]. lia.
  - simpl. destruct (restart_Failed _ _ _ Hre) as [-> _]. lia.
Qed.

(** A call that succeeds on the child it started with counts one request
    and recycles the worker exactly when the count has reached the bound. *)
Lemma Handle_counts (w w1 : Worker) (req : RequestPayload) (resp : ResponsePayload) :
  isDead w = false -> isDraining w = false ->
  Handle lib w req = (Done resp, w1) -> spawns w1 = spawns w ->
  let n := wrap_uint64 (requestCount w + 1) in
  requestCount w1 = n /\ maxRequests w1 = maxRequests w /\
  isDead w1 = (0 <? maxRequests w) && (maxRequests w <=? wrap_int n) /\
  state w1 = (if isDead w1 then WorkerDead else WorkerIdle).
Proof.
  intros Hd Hdr Hrun Hsp n. rewrite (Handle_entered lib w req Hd Hdr) in Hrun.
  change (handleLoop lib 2 (enter w) req) with
    (match (if isDead (enter w) then restart (enter w) else (Done tt, enter w)) with
     | (Done _, v) =>
         match handleRequest lib v req with
         | (Failed err, w2) =>
             if isBrokenPipe err then handleLoop lib 1 (markDead w2) req
             else (Failed err, w2)
         | (Done resp, w2) => (Done resp, countRequest w2)
         | (Blocked, w2) => (Blocked, w2)
         | (Panic m, w2) => (Panic m, w2)
         end
     | (Failed err, v) => (Failed err, v)
     | (Blocked, v) => (Blocked, v)
     | (Panic m, v) => (Panic m, v)
     end) in Hrun.
  replace (isDead (enter w)) with false in Hrun by (symmetry; exact Hd).
  pose proof (handleRequest_config (enter w) req) as Hcfg.
  pose proof (spawns_handleRequest lib (enter w) req) as Hsp1.
  destruct (handleRequest lib (enter w) req) as [[resp'|e| |m] w2] eqn:Hreq;
    simpl in Hcfg, Hsp1; try done.
  - (* served at the first attempt *)
    apply handleRequest_Done in Hreq. injection Hrun as <- <-.
    destruct Hcfg as (Hmax & Hcnt & Hfl & _).
    rewrite Hreq. unfold countRequest, complete, decrInFlight, isDraining.
    unfold isDead in *. simpl. subst n.
    destruct ((0 <? maxRequests w) && (maxRequests w <=? _)); simpl;
      destruct (0 <? wrap_int (inFlight w + 1)); simpl; rewrite ?Hd; simpl;
      try done; destruct (_ =? 0); simpl; rewrite ?Hd; done.
  - (* a failure: either returned, or followed by a restart *)
    destruct (isBrokenPipe e); [|done]. exfalso.
    simpl in Hrun.
    destruct (restart_returns (markDead w2)) as [[v Hre] | (e' & v & Hre)];
      rewrite Hre in Hrun; [|done].
    destruct (restart_Done _ _ Hre) as (Hspv & _). simpl in Hspv.
    pose proof (spawns_handleRequest lib v req) as Hsp2.
    destruct (handleRequest lib v req) as [[resp'|e2| |m] w3]; simpl in *; try done.
    + injection Hrun as _ <-. rewrite spawns_complete, spawns_countRequest in Hsp. lia.
    + destruct (isBrokenPipe e2); done.
Qed.

End Accounting.

Section Recycling.

Variable lib : GoLib.

Lemma wrap_uint64_small (z : Z) : 0 <= z < 2 ^ 64 -> wrap_uint64 z = z.
Proof. intros Hz. unfold wrap_uint64. by apply Z.mod_small. Qed.

Lemma wrap_int_small (z : Z) : - 2 ^ 63 <= z < 2 ^ 63 -> wrap_int z = z.
Proof. intros Hz. unfold wrap_int. rewrite Z.mod_small; lia. Qed.

Lemma spawns_Handle (w : Worker) (req : RequestPayload) :
  (spawns w <= spawns (snd (Handle lib w req)))%nat.
Proof.
  unfold Handle. destruct (isDead w); [done|]. destruct (isDraining w); [done|].
  pose proof (spawns_handleLoop lib 2 (enter w) req) as Hle.
  destruct (handleLoop lib 2 (enter w) req) as [[resp|e| |m] w1];
    simpl in *; rewrite ?spawns_complete; done.
Qed.

Lemma spawns_handleAll (reqs : list RequestPayload) (w : Worker) :
  (spawns w <= spawns (snd (handleAll lib reqs w)))%nat.
Proof.
  revert w. induction reqs as [|req rest IH]; intros w; simpl; [done|].
  pose proof (spawns_Handle w req) as H1.
  destruct (Handle lib w req) as [res w1]. specialize (IH w1).
  destruct (handleAll lib rest w1) as [rs w2]. simpl in *. lia.
Qed.

Lemma handleAll_app (l1 l2 : list RequestPayload) (w : Worker) :
  handleAll lib (l1 ++ l2) w =
    (fst (handleAll lib l1 w) ++ fst (handleAll lib l2 (snd (handleAll lib l1 w))),
     snd (handleAll lib l2 (snd (handleAll lib l1 w)))).
Proof.
  revert w. induction l1 as [|req l1 IH]; intros w; simpl.
  - by destruct (handleAll lib l2 w).
  - destruct (Handle lib w req) as [res w1]. rewrite IH.
    by destruct (handleAll lib l1 w1).
Qed.

(** Successes on one child add up, and the worker dies with the one that
    reaches the bound. *)
Lemma handleAll_counts (reqs : list RequestPayload) :
  forall (w w' : Worker) (rs : list (outcome ResponsePayload)),
  0 < maxRequests w < 2 ^ 63 -> 0 <= requestCount w ->
  requestCount w + Z.of_nat (length reqs) <= maxRequests w ->
  isDead w = false -> isDraining w = false ->
  handleAll lib reqs w = (rs, w') -> Forall is_Done rs -> spawns w' = spawns w ->
  requestCount w' = requestCount w + Z.of_nat (length reqs) /\
  maxRequests w' = maxRequests w /\
  (reqs <> [] ->
   isDead w' = (maxRequests w <=? requestCount w') /\
   state w' = (if isDead w' then WorkerDead else WorkerIdle)).
Proof.
  induction reqs as [|req rest IH]; intros w w' rs Hmax Hcnt Hroom Hd Hdr Hrun Hok Hsp.
  { injection Hrun as _ <-. simpl. split; [lia|done]. }
  simpl in Hrun, Hroom.
  pose proof (spawns_Handle w req) as Hle1.
  destruct (Handle lib w req) as [res w1] eqn:Hcall.
  pose proof (spawns_handleAll rest w1) as Hle2.
  destruct (handleAll lib rest w1) as [rs' w2] eqn:Hrest.
  injection Hrun as <- <-. apply Forall_cons in Hok as [Hres Hok].
  destruct res as [resp|?| |?]; try done. simpl in Hle1, Hle2.
  assert (Hsp1 : spawns w1 = spawns w) by lia.
  destruct (Handle_counts lib w w1 req resp Hd Hdr Hcall Hsp1) as (Hc1 & Hm1 & Hd1 & Hs1).
  rewrite wrap_uint64_small in Hc1, Hd1 by lia.
  rewrite wrap_int_small in Hd1 by lia.
  replace (0 <? maxRequests w) with true in Hd1 by (symmetry; apply Z.ltb_lt; lia).
  simpl in Hd1.
  destruct rest as [|req' rest'].
  - injection Hrest as _ <-. simpl.
    split; [lia|]. split; [done|]. intros _. by rewrite Hc1.
  - assert (Hd1' : isDead w1 = false).
    { rewrite Hd1. apply Z.leb_gt. simpl in Hroom. lia. }
    rewrite Hd1' in Hs1.
    destruct (IH w1 w2 rs') as (Hc2 & Hm2 & Hrest2); try done.
    + lia.
    + lia.
    + rewrite Hm1, Hc1. simpl in *. lia.
    + by apply isDraining_false; rewrite Hs1.
    + lia.
    + split; [rewrite Hc2, Hc1; simpl length; lia|]. split; [congruence|].
      intros _. rewrite <- Hm1. by apply Hrest2.
Qed.

(** C5, as the code has it.  Take a worker with [max_requests = k > 0] that
    has served nothing yet.  After [k] calls of [Handle] that all succeed on
    the child the worker started with, it is dead, the last success being
    returned like the others; after fewer it is alive and idle.  A restart
    that starts a child sets the request count to 0, the state to Idle, the
    in-flight count to 0 and clears the dead flag. *)
Theorem recycled_after_max_requests
    (w w' : Worker) (reqs : list RequestPayload) (rs : list (outcome ResponsePayload)) :
  0 < maxRequests w < 2 ^ 63 -> requestCount w = 0 ->
  isDead w = false -> isDraining w = false ->
  Z.of_nat (length reqs) = maxRequests w ->
  handleAll lib reqs w = (rs, w') -> Forall is_Done rs -> spawns w' = spawns w ->
  (isDead w' = true /\ state w' = WorkerDead) /\
  (forall j, (0 < j < length reqs)%nat ->
     isDead (snd (handleAll lib (take j reqs) w)) = false /\
     state (snd (handleAll lib (take j reqs) w)) = WorkerIdle) /\
  (forall v v2, restart v = (Done tt, v2) ->
     requestCount v2 = 0 /\ state v2 = WorkerIdle /\ inFlight v2 = 0 /\
     isDead v2 = false).
Proof.
  intros Hmax Hcnt Hd Hdr Hlen Hrun Hok Hsp. split; [|split].
  - destruct (handleAll_counts reqs w w' rs) as (Hc & _ & Hlast); try done; try lia.
    destruct Hlast as [Hdead Hst].
    { intros ->. simpl in Hlen. lia. }
    assert (isDead w' = true) as Hdw.
    { rewrite Hdead. apply Z.leb_le. lia. }
    by rewrite Hdw in Hst.
  - intros j Hj.
    pose proof (handleAll_app (take j reqs) (drop j reqs) w) as Happ.
    rewrite take_drop, Hrun in Happ.
    pose proof (spawns_handleAll (take j reqs) w) as Hle1.
    pose proof (spawns_handleAll (drop j reqs) (snd (handleAll lib (take j reqs) w))) as Hle2.
    destruct (handleAll lib (take j reqs) w) as [rs1 w1] eqn:Hpre. simpl in *.
    injection Happ as Hrs Hw'. rewrite <- Hw' in Hle2.
    assert (Hok1 : Forall is_Done rs1).
    { rewrite Hrs in Hok. by apply Forall_app in Hok as [? _]. }
    assert (Hlen1 : length (take j reqs) = j) by (rewrite length_take; lia).
    destruct (handleAll_counts (take j reqs) w w1 rs1) as (Hc & _ & Hlast);
      try done; try lia.
    destruct Hlast as [Hdead Hst].
    { intros Hnil. rewrite Hnil in Hlen1. simpl in Hlen1. lia. }
    assert (isDead w1 = false) as Hdw.
    { rewrite Hdead. apply Z.leb_gt. lia. }
    by rewrite Hdw in Hst.
  - intros v v2 Hre. destruct (restart_Done _ _ Hre) as (_ & ? & ? & ? & ? & _).
    done.
Qed.

End Recycling.

Lemma recycled_after_max_requests_witness :
  0 < maxRequests recyclingWorker < 2 ^ 63 /\
  isDead (snd (handleAll exampleLib [exampleRequest; exampleRequest] recyclingWorker))
    = true.
Proof.
  split; [vm_compute; split; reflexivity|].
  assert (Hok : Forall (@is_Done ResponsePayload) [Done okResponse; Done okResponse])
    by (repeat constructor).
  assert (Hmax : 0 < maxRequests recyclingWorker < 2 ^ 63)
    by (vm_compute; split; reflexivity).
  assert (Hrun : handleAll exampleLib [exampleRequest; exampleRequest] recyclingWorker
                 = ([Done okResponse; Done okResponse],
                    snd (handleAll exampleLib [exampleRequest; exampleRequest]
                           recyclingWorker)))
    by (vm_compute; reflexivity).
  assert (Hsp : spawns (snd (handleAll exampleLib [exampleRequest; exampleRequest]
                               recyclingWorker)) = spawns recyclingWorker)
    by (vm_compute; reflexivity).
  exact (proj1 (proj1 (recycled_after_max_requests exampleLib recyclingWorker _
                         [exampleRequest; exampleRequest] _
                         Hmax eq_refl eq_refl eq_refl eq_refl Hrun Hok Hsp))).
Defined.

(** C5, as the claim has it, fails: at the second request the first child
    has exited, [Handle] restarts the worker and the new child answers.  Both
    calls succeeded, the bound is 2, and the worker is alive with a count
    of 1. *)
Lemma two_successes_without_recycling :
  let '(rs, w) := handleAll exampleLib [exampleRequest; exampleRequest] retriedWorker in
  maxRequests retriedWorker = 2 /\
  rs = [Done okResponse; Done okResponse] /\
  isDead w = false /\ state w = WorkerIdle /\ requestCount w = 1.
Proof. vm_compute. repeat split. Qed.

(** ** Frame lengths *)

Section FrameLength.

Variable lib : GoLib.

Lemma complete_markDead (w : Worker) :
  isDead (complete (markDead w)) = true /\ state (complete (markDead w)) = WorkerDead.
Proof.
  unfold complete, decrInFlight, isDraining, isDead, getInFlight. simpl.
  destruct (0 <? inFlight w); simpl; by destruct (_ =? 0).
Qed.

Lemma bad_length_test (L : Z) :
  L = 0 \/ maxFrameLen < L -> (L =? 0) || (maxFrameLen <? L) = true.
Proof.
  intros [-> | Hbig]; [done|].
  apply orb_true_iff. right. by apply Z.ltb_lt.
Qed.

Lemma good_length_test (L : Z) :
  0 < L <= maxFrameLen -> (L =? 0) || (maxFrameLen <? L) = false.
Proof.
  intros [Hpos Hle]. apply orb_false_iff. split; [apply Z.eqb_neq|apply Z.ltb_ge]; lia.
Qed.

(** What [Stream] returns is what the relay returned, after the deferred
    completion; a worker the relay left dead stays dead. *)
Lemma Stream_returns (w w1 : Worker) (req : RequestPayload) (rw rw1 : Sink)
    (res : outcome unit) :
  isDead w = false -> isDraining w = false ->
  streamInternal lib (enter w) req rw = (res, w1, rw1) -> res <> Blocked ->
  Stream lib w req rw = (res, complete w1, rw1).
Proof.
  intros Hd Hdr Hrun Hres. unfold Stream. rewrite Hd, Hdr, Hrun. simpl.
  by destruct res.
Qed.

(** A reply from the child a restart has just started leaves the worker
    alive and Idle, unless [maxRequests] is 1. *)
Lemma restarted_reply_alive (v w2 w3 : Worker) (req : RequestPayload)
    (resp : ResponsePayload) :
  restart v = (Done tt, w2) ->
  handleRequest lib w2 req = (Done resp, w3) ->
  maxRequests v <> 1 ->
  isDead (complete (countRequest w3)) = false /\
  state (complete (countRequest w3)) = WorkerIdle /\
  requestCount (complete (countRequest w3)) = 1 /\
  spawns (complete (countRequest w3)) = S (spawns v).
Proof.
  intros Hre Hreq Hmax. apply handleRequest_Done in Hreq. rewrite Hreq.
  revert Hre. unfold restart. destruct (children v (spawns v)) as [e|q]; [done|].
  intros [= <-]. unfold countRequest. simpl. change (0 + 1) with 1.
  rewrite (wrap_uint64_small 1), (wrap_int_small 1) by lia.
  replace ((0 <? maxRequests v) && (maxRequests v <=? 1)) with false; [done|].
  symmetry. apply andb_false_iff.
  destruct (Z.ltb_spec 0 (maxRequests v)); [right; apply Z.leb_gt; lia | by left].
Qed.

(** C6, as the code has it.  Let the next four bytes on the child's stdout
    declare a length [L] with [L = 0] or [L > 10 MiB].  The reader reports
    [io.ErrUnexpectedEOF] without reading further.
    - Stream frame: whatever pass of the relay loop meets the header ends the
      loop with [io.ErrUnexpectedEOF] and the worker marked dead, and the
      worker is still dead after the completion that [Stream] defers.
    - Unary reply: [handleRequest] returns the error and the pass of
      [Handle]'s loop that made the request marks the worker dead; the error
      being in the broken-pipe class, [Handle] then restarts the worker and
      sends the request once more.  If no child starts, the restart's error
      is returned and the worker is dead.  If the second attempt fails in
      the class again, [io.ErrUnexpectedEOF] is returned and the worker is
      dead.  Otherwise the caller gets the outcome of the second attempt: an
      error outside the class as it is, or the reply, which leaves the
      worker alive and Idle on its new child unless [maxRequests] is 1. *)
Theorem bad_frame_length_is_refused (p p1 : Proc) (hdr : list byte) :
  ReadFull p 4 = (Done hdr, p1) ->
  Uint32 hdr = 0 \/ maxFrameLen < Uint32 hdr ->
  readResponse lib p = (Failed io_ErrUnexpectedEOF, p1) /\
  (forall v req n,
     isDead v = false -> sendRequest lib (cmd v) req = (None, p) ->
     handleRequest lib v req = (Failed io_ErrUnexpectedEOF, set_cmd v p1) /\
     handleLoop lib (S n) v req = handleLoop lib n (markDead (set_cmd v p1)) req /\
     isDead (markDead (set_cmd v p1)) = true /\
     state (markDead (set_cmd v p1)) = WorkerDead) /\
  (forall w req,
     isDead w = false -> isDraining w = false ->
     sendRequest lib (cmd w) req = (None, p) ->
     let v := markDead (set_cmd (enter w) p1) in
     (forall e w2, restart v = (Failed e, w2) ->
        Handle lib w req = (Failed e, complete w2) /\
        isDead (complete w2) = true) /\
     (forall w2, restart v = (Done tt, w2) ->
        spawns w2 = S (spawns w) /\
        (forall resp w3, handleRequest lib w2 req = (Done resp, w3) ->
           Handle lib w req = (Done resp, complete (countRequest w3)) /\
           (maxRequests w <> 1 ->
              isDead (complete (countRequest w3)) = false /\
              state (complete (countRequest w3)) = WorkerIdle)) /\
        (forall e2 w3, handleRequest lib w2 req = (Failed e2, w3) ->
           isBrokenPipe e2 = true ->
           Handle lib w req = (Failed io_ErrUnexpectedEOF, complete (markDead w3)) /\
           isDead (complete (markDead w3)) = true) /\
        (forall e2 w3, handleRequest lib w2 req = (Failed e2, w3) ->
           isBrokenPipe e2 = false ->
           Handle lib w req = (Failed e2, complete w3)))) /\
  (forall w fuel st rw,
     cmd w = p ->
     streamLoop lib (S fuel) w st rw
       = Some (Failed io_ErrUnexpectedEOF, markDead (set_cmd w p1), rw) /\
     isDead (complete (markDead (set_cmd w p1))) = true /\
     state (complete (markDead (set_cmd w p1))) = WorkerDead).
Proof.
  intros Hread Hbad. apply bad_length_test in Hbad.
  assert (Hresp : readResponse lib p = (Failed io_ErrUnexpectedEOF, p1)).
  { unfold readResponse. by rewrite Hread, Hbad. }
  split; [done|]. split; [|split].
  - intros v req n Hd Hsend.
    assert (Hreq : handleRequest lib v req = (Failed io_ErrUnexpectedEOF, set_cmd v p1)).
    { unfold handleRequest. by rewrite Hsend, Hresp. }
    split; [done|]. split; [|done].
    by rewrite (handleLoop_failed lib n v _ req _ Hd Hreq).
  - intros w req Hd Hdr Hsend.
    assert (Hreq : handleRequest lib (enter w) req
                   = (Failed io_ErrUnexpectedEOF, set_cmd (enter w) p1)).
    { unfold handleRequest.
      change (cmd (enter w)) with (cmd w). by rewrite Hsend, Hresp. }
    assert (Hmax : maxRequests (markDead (set_cmd (enter w) p1)) = maxRequests w)
      by done.
    assert (Hsp : spawns (markDead (set_cmd (enter w) p1)) = spawns w) by done.
    revert Hreq Hmax Hsp. generalize (set_cmd (enter w) p1). intros w1 Hreq Hmax Hsp v.
    subst v.
    assert (Hhandle : Handle lib w req = deferred (handleLoop lib 1 (markDead w1) req)).
    { rewrite (Handle_entered lib w req Hd Hdr).
      by rewrite (handleLoop_failed lib 1 (enter w) w1 req _ Hd Hreq). }
    rewrite Hhandle. split.
    + intros e w2 Hre. simpl. rewrite Hre. simpl. split; [done|].
      apply isDead_complete. by destruct (restart_Failed _ _ _ Hre) as (_ & -> & _).
    + intros w2 Hre. destruct (restart_Done _ _ Hre) as (Hsp2 & Hd2 & _).
      split; [by rewrite Hsp2, Hsp|]. simpl. rewrite Hre.
      split; [|split].
      * intros resp w3 Hsecond. rewrite Hsecond. split; [done|].
        intros Hone. rewrite <- Hmax in Hone.
        by destruct (restarted_reply_alive _ _ _ _ _ Hre Hsecond Hone) as (? & ? & _).
      * intros e2 w3 Hsecond Hbp2. rewrite Hsecond, Hbp2. simpl.
        split; [done|]. by apply isDead_complete.
      * intros e2 w3 Hsecond Hbp2. by rewrite Hsecond, Hbp2.
  - intros w fuel st rw <-. split; [|apply complete_markDead].
    simpl. by rewrite Hread, Hbad.
Qed.

End FrameLength.

Lemma bad_frame_length_is_refused_witness :
  Uint32 (PutUint32 0) = 0 /\
  readResponse exampleLib declaresZero
    = (Failed io_ErrUnexpectedEOF, set_pending declaresZero []).
Proof.
  split; [reflexivity|].
  apply (bad_frame_length_is_refused exampleLib declaresZero
           (set_pending declaresZero []) (PutUint32 0)).
  - reflexivity.
  - left. reflexivity.
Defined.

(** C6, as the claim has it, fails on a unary reply: the child declares a
    length of 0 (or of 10 MiB + 1), [Handle] marks the worker dead, restarts
    it and retries, and the new child answers.  The caller gets the reply,
    not an error, and the worker is alive and Idle on its second child. *)
Lemma bad_length_reply_is_retried :
  Uint32 (PutUint32 0) = 0 /\
  Uint32 (PutUint32 (maxFrameLen + 1)) = maxFrameLen + 1 /\
  (let w := freshWorker declaresZero 0 (fun _ => inr answering) in
   let '(res, w1) := Handle exampleLib w exampleRequest in
   res = Done okResponse /\ isDead w1 = false /\ state w1 = WorkerIdle /\
   spawns w1 = 2%nat) /\
  (let w := freshWorker declaresTooMuch 0 (fun _ => inr answering) in
   let '(res, w1) := Handle exampleLib w exampleRequest in
   res = Done okResponse /\ isDead w1 = false /\ state w1 = WorkerIdle /\
   spawns w1 = 2%nat).
Proof. vm_compute. repeat split. Qed.

(** The two boundary cases of the specification on a unary call, and a bad
    length in the middle of a stream. *)
Example zero_length_reply :
  let w := freshWorker declaresZero 0 (fun _ => inr declaresZero) in
  let '(res, w1) := Handle exampleLib w exampleRequest in
  res = Failed io_ErrUnexpectedEOF /\ isDead w1 = true /\ state w1 = WorkerDead.
Proof. vm_compute. repeat split. Qed.

Example oversized_reply :
  let w := freshWorker declaresTooMuch 0 (fun _ => inr declaresTooMuch) in
  Uint32 (PutUint32 (maxFrameLen + 1)) = maxFrameLen + 1 /\
  let '(res, w1) := Handle exampleLib w exampleRequest in
  res = Failed io_ErrUnexpectedEOF /\ isDead w1 = true /\ state w1 = WorkerDead.
Proof. vm_compute. repeat split. Qed.

Example zero_length_frame_in_stream :
  let w := freshWorker headersThenZero 0 (fun _ => inr answering) in
  let '(res, w1, rw) := Stream exampleLib w exampleRequest emptySink in
  res = Failed io_ErrUnexpectedEOF /\ isDead w1 = true /\ state w1 = WorkerDead /\
  spawns w1 = 1%nat.
Proof. vm_compute. repeat split. Qed.

(** ** Relaying frames *)

Section Relay.

Variable lib : GoLib.

Lemma set_calls_id (rw : Sink) : set_calls rw (calls rw) = rw.
Proof. by destruct rw. Qed.

Lemma call_set_calls (rw : Sink) (l : list SinkCall) (c : SinkCall) :
  call (set_calls rw l) c = set_calls rw (l ++ [c]).
Proof. reflexivity. Qed.

Lemma add_each_value (k : string) (vs : list string) (rw : Sink) (l : list SinkCall) :
  fold_left (fun rw v => call rw (Header_Add k v)) vs (set_calls rw l)
    = set_calls rw (l ++ map (Header_Add k) vs).
Proof.
  revert l. induction vs as [|v vs IH]; intros l; simpl.
  - by rewrite app_nil_r.
  - rewrite call_set_calls, IH. by rewrite <- app_assoc.
Qed.

(** The loop over the header map makes the calls the specification lists,
    entry by entry in the order of the iteration. *)
Lemma applyHeaders_lines (hs : list (string * list string)) (rw : Sink)
    (l : list SinkCall) :
  applyHeaders lib hs (set_calls rw l)
    = set_calls rw (l ++ allHeaderLines lib (Some hs)).
Proof.
  unfold allHeaderLines. simpl.
  revert l. induction hs as [|[k vs] hs IH]; intros l; simpl.
  - by rewrite app_nil_r.
  - destruct vs as [|v vs]; simpl; [apply IH|].
    destruct (String.eqb (ToLower lib k) "set-cookie").
    + rewrite call_set_calls, add_each_value, IH. simpl.
      by rewrite <- !app_assoc.
    + rewrite call_set_calls, IH. by rewrite <- !app_assoc.
Qed.

Lemma relay_body (data : string) (rw : Sink) (l : list SinkCall) (st1 : RelayState) :
  match writeData data (set_calls rw l) with
  | (Some e, rw3) => (Return (Some e), st1, rw3)
  | (None, rw3) => (Continue, st1, rw3)
  end = (bodyStep rw l data, st1, set_calls rw (l ++ bodyCalls rw l data)).
Proof.
  unfold writeData, bodyStep, bodyCalls. simpl.
  destruct (String.eqb data ""); [by rewrite app_nil_r|].
  destruct (write_err rw l); [done|].
  destruct (flusher rw); [|done]. rewrite !call_set_calls.
  by rewrite <- app_assoc.
Qed.


Lemma relay_inv_step (frame : StreamFrame) (st : RelayState) (rw : Sink) :
  relay_inv st -> relay_inv (snd (fst (relayFrame lib frame st rw))).
Proof.
  intros Hinv. unfold relayFrame.
  destruct (String.eqb (frame_Type frame) "headers").
  { by destruct (writeData _ _) as [[e|] rw3]. }
  destruct (String.eqb (frame_Type frame) "chunk").
  { by destruct (writeData _ _) as [[e|] rw3]. }
  destruct (String.eqb (frame_Type frame) "end"); [done|].
  by destruct (String.eqb (frame_Type frame) "error").
Qed.


(** A headers frame in any state of the loop: the flag [headersSent] is not
    consulted, and a status of 0 leaves the status variable as it is. *)
Lemma relayFrame_headers (frame : StreamFrame) (st : RelayState) (rw : Sink) :
  frame_Type frame = "headers" ->
  let status := if frame_Status frame =? 0 then statusCode st else frame_Status frame in
  let before := calls rw ++ allHeaderLines lib (frame_Headers frame) ++
                [WriteHeader status] in
  relayFrame lib frame st rw =
    (bodyStep rw before (frame_Data frame),
     {| headersSent := true; statusCode := status |},
     set_calls rw (before ++ bodyCalls rw before (frame_Data frame))).
Proof.
  intros Hty status before. unfold relayFrame. rewrite Hty. simpl. fold status.
  assert (Hhs : match frame_Headers frame with
                | Some hs => applyHeaders lib hs rw
                | None => rw
                end = set_calls rw (calls rw ++ allHeaderLines lib (frame_Headers frame))).
  { destruct (frame_Headers frame) as [hs|].
    - by rewrite <- (set_calls_id rw) at 1; rewrite applyHeaders_lines.
    - unfold allHeaderLines. simpl. by rewrite app_nil_r, set_calls_id. }
  rewrite Hhs, call_set_calls, <- app_assoc. fold before.
  apply relay_body.
Qed.


End Relay.


(** The name is compared in lower case and passed on as the frame spells
    it. *)
Example set_cookie_any_case :
  headerLines exampleLib "SET-Cookie" ["a=1"; "b=2"]
    = [Header_Add "SET-Cookie" "a=1"; Header_Add "SET-Cookie" "b=2"] /\
  headerLines exampleLib "Cookie" ["a=1"; "b=2"] = [Header_Set "Cookie" "a=1, b=2"].
Proof. vm_compute. repeat split. Qed.

(** Scenario 5 on the code, and a stream that begins with a chunk. *)
Example stream_multi_valued_headers :
  let w := freshWorker scenario5 0 (fun _ => inr answering) in
  let '(res, w1, rw) := Stream exampleLib w exampleRequest emptySink in
  res = Done tt /\ isDead w1 = false /\ state w1 = WorkerIdle /\
  calls rw = [Header_Add "Set-Cookie" "a=1"; Header_Add "Set-Cookie" "b=2";
              Header_Set "X-Tag" "x, y"; WriteHeader 201; Write "hi"; Flush;
              Write " world"; Flush].
Proof. vm_compute. repeat split. Qed.

Example stream_chunk_before_headers :
  let w := freshWorker chunkFirst 0 (fun _ => inr answering) in
  let '(res, w1, rw) := Stream exampleLib w exampleRequest emptySink in
  res = Done tt /\
  calls rw = [WriteHeader 200; Write " world"; Flush].
Proof. vm_compute. repeat split. Qed.

(** ** A second headers frame *)

Section LateHeaders.

Variable lib : GoLib.

(** One pass of the relay loop over a well-formed frame. *)
Lemma streamLoop_pass (fuel : nat) (w : Worker) (st : RelayState) (rw : Sink)
    (hdr frameJSON : list byte) (p1 p2 : Proc) (frame : StreamFrame) :
  ReadFull (cmd w) 4 = (Done hdr, p1) ->
  0 < Uint32 hdr <= maxFrameLen ->
  ReadFull p1 (Z.to_nat (Uint32 hdr)) = (Done frameJSON, p2) ->
  json_Unmarshal_frame lib frameJSON = inr frame ->
  streamLoop lib (S fuel) w st rw =
    match relayFrame lib frame st rw with
    | (Continue, st1, rw1) => streamLoop lib fuel (set_cmd w p2) st1 rw1
    | (Return None, _, rw1) => Some (Done tt, set_cmd w p2, rw1)
    | (Return (Some e), _, rw1) => Some (Failed e, set_cmd w p2, rw1)
    end.
Proof.
  intros Hhdr Hlen Hbody Hjson. simpl.
  by rewrite Hhdr, (good_length_test _ Hlen), Hbody, Hjson.
Qed.

(** C8, as the code has it.  A headers frame that arrives when headers have
    already been sent is not an error.  The pass relays it like the first:
    the header calls, [WriteHeader] again (with the frame's status, or the
    status already in force when the frame has none), the frame's data.  The
    loop then goes on to the next frame; it stops only if the sink refuses
    the data.  In neither case is the worker marked dead. *)
Theorem late_headers_frame_is_relayed
    (fuel : nat) (w : Worker) (st : RelayState) (rw : Sink)
    (hdr frameJSON : list byte) (p1 p2 : Proc) (frame : StreamFrame) :
  headersSent st = true ->
  ReadFull (cmd w) 4 = (Done hdr, p1) ->
  0 < Uint32 hdr <= maxFrameLen ->
  ReadFull p1 (Z.to_nat (Uint32 hdr)) = (Done frameJSON, p2) ->
  json_Unmarshal_frame lib frameJSON = inr frame ->
  frame_Type frame = "headers" ->
  let status := if frame_Status frame =? 0 then statusCode st else frame_Status frame in
  let before := calls rw ++ allHeaderLines lib (frame_Headers frame) ++
                [WriteHeader status] in
  let rw1 := set_calls rw (before ++ bodyCalls rw before (frame_Data frame)) in
  isDead (set_cmd w p2) = isDead w /\ state (set_cmd w p2) = state w /\
  (bodyStep rw before (frame_Data frame) = Continue ->
     streamLoop lib (S fuel) w st rw =
       streamLoop lib fuel (set_cmd w p2)
         {| headersSent := true; statusCode := status |} rw1) /\
  (forall e, bodyStep rw before (frame_Data frame) = Return (Some e) ->
     streamLoop lib (S fuel) w st rw = Some (Failed e, set_cmd w p2, rw1)).
Proof.
  intros _ Hhdr Hlen Hbody Hjson Hty status before rw1.
  split; [done|]. split; [done|].
  rewrite (streamLoop_pass fuel w st rw hdr frameJSON p1 p2 frame Hhdr Hlen Hbody Hjson).
  rewrite (relayFrame_headers lib frame st rw Hty). fold status before rw1.
  split.
  - by intros ->.
  - by intros e ->.
Qed.

End LateHeaders.

Lemma late_headers_frame_is_relayed_witness :
  let w := freshWorker lateChild 0 (fun _ => inr answering) in
  headersSent sentState = true /\
  json_Unmarshal_frame exampleLib (list_byte_of_string lateHeadersJSON)
    = inr lateHeadersFrame /\
  streamLoop exampleLib 2 w sentState emptySink =
    streamLoop exampleLib 1 (set_cmd w lateChild2) sentState
      (set_calls emptySink [Header_Set "X-Late" "1"; WriteHeader 201]).
Proof.
  intros w. split; [reflexivity|]. split; [vm_compute; reflexivity|].
  assert (Hhdr : ReadFull (cmd w) 4
                 = (Done (PutUint32 (Z.of_nat (String.length lateHeadersJSON))),
                    lateChild1)) by (vm_compute; reflexivity).
  assert (Hlen : 0 < Uint32 (PutUint32 (Z.of_nat (String.length lateHeadersJSON)))
                 <= maxFrameLen) by (vm_compute; split; [reflexivity|discriminate]).
  assert (Hbody : ReadFull lateChild1
                    (Z.to_nat (Uint32 (PutUint32 (Z.of_nat (String.length lateHeadersJSON)))))
                  = (Done (list_byte_of_string lateHeadersJSON), lateChild2))
    by (vm_compute; reflexivity).
  assert (Hjson : json_Unmarshal_frame exampleLib (list_byte_of_string lateHeadersJSON)
                  = inr lateHeadersFrame) by (vm_compute; reflexivity).
  exact (proj1 (proj2 (proj2
           (late_headers_frame_is_relayed exampleLib 1 w sentState emptySink _ _ _ _ _
              eq_refl Hhdr Hlen Hbody Hjson eq_refl))) eq_refl).
Defined.

(** C8, as the claim has it, fails: a stream with two headers frames ends
    in success, the second frame's header reaches the sink, [WriteHeader] is
    called a second time, and the worker is alive and idle. *)
Lemma second_headers_frame_is_not_an_error :
  let w := freshWorker headersTwice 0 (fun _ => inr answering) in
  let '(res, w1, rw) := Stream exampleLib w exampleRequest emptySink in
  res = Done tt /\ isDead w1 = false /\ state w1 = WorkerIdle /\
  calls rw = [Header_Add "Set-Cookie" "a=1"; Header_Add "Set-Cookie" "b=2";
              Header_Set "X-Tag" "x, y"; WriteHeader 201; Write "hi"; Flush;
              Header_Set "X-Late" "1"; WriteHeader 201].
Proof. vm_compute. repeat split. Qed.

(** ** Scaling *)

Lemma startDraining_state (w : Worker) :
  state (startDraining w)
    = (if decide (state w = WorkerDead) then WorkerDead else WorkerDraining) /\
  isDead (startDraining w) = isDead w.
Proof. unfold startDraining. by destruct (decide (state w = WorkerDead)). Qed.

Lemma startDraining_idemp (w : Worker) :
  startDraining (startDraining w) = startDraining w.
Proof.
  unfold startDraining. destruct (decide (state w = WorkerDead)) as [Hd|Hd].
  - by rewrite decide_True.
  - by rewrite decide_False.
Qed.

(** The shrinking loop applies [startDraining] to the workers in the slots
    it walks over and to no other. *)
Lemma drainExtras_lookup (extras : list (option addr)) (h : gmap addr Worker) (a : addr) :
  drainExtras h extras !! a =
    if bool_decide (Some a ∈ extras) then startDraining <$> h !! a else h !! a.
Proof.
  unfold drainExtras. revert h.
  induction extras as [|slot rest IH]; intros h; simpl.
  { done. }
  rewrite IH. destruct slot as [b|].
  - destruct (decide (b = a)) as [->|Hne].
    + rewrite lookup_alter_eq.
      rewrite (bool_decide_eq_true_2 (Some a ∈ Some a :: rest)) by (apply list_elem_of_here).
      destruct (bool_decide (Some a ∈ rest)); [|done].
      destruct (h !! a); simpl; [|done]. by rewrite startDraining_idemp.
    + rewrite lookup_alter_ne by done.
      apply (f_equal (fun b : bool => if b then startDraining <$> h !! a else h !! a)).
      apply bool_decide_ext. rewrite elem_of_cons.
      split; [by right | intros [[= Heq]|Hin]; [by destruct Hne|done]].
  - apply (f_equal (fun b : bool => if b then startDraining <$> h !! a else h !! a)).
    apply bool_decide_ext. rewrite elem_of_cons.
    split; [by right | intros [Heq|Hin]; done].
Qed.

Section Growing.

Context {S : Type}.
Implicit Types (f : @Factory S) (s : S) (h : gmap addr Worker).

(** The growing loop makes the invocations of [factoryCalls] and appends
    what they return. *)
Lemma growLoop_calls (k : nat) f s h (ws : list (option addr)) :
  growLoop k f s h ws =
    (failure (fst (fst (factoryCalls k f s h))),
     snd (fst (factoryCalls k f s h)),
     snd (factoryCalls k f s h),
     ws ++ created (fst (fst (factoryCalls k f s h)))).
Proof.
  revert s h ws. induction k as [|k IH]; intros s h ws; simpl.
  { by rewrite app_nil_r. }
  destruct (f s h) as [[[err|w] s1] h1]; simpl.
  { by rewrite app_nil_r. }
  rewrite IH. destruct (factoryCalls k f s1 h1) as [[rs s2] h2]. simpl.
  rewrite <- app_assoc. simpl. f_equal. f_equal.
  unfold failure. destruct rs; simpl; done.
Qed.

(** Only the last invocation can have failed; without a failure there were
    [k] invocations, with one there were at most [k]. *)
Lemma factoryCalls_shape (k : nat) f s h :
  let rs := fst (fst (factoryCalls k f s h)) in
  (failure rs = Done tt -> length rs = k /\ length (created rs) = k) /\
  (forall e, failure rs = Failed e ->
     (0 < length rs <= k)%nat /\ Datatypes.S (length (created rs)) = length rs).
Proof.
  revert s h. induction k as [|k IH]; intros s h; simpl.
  { split; [done|]. intros e. unfold failure. simpl. done. }
  destruct (f s h) as [[[err|w] s1] h1]; simpl.
  { split; [done|]. intros e _. simpl. lia. }
  specialize (IH s1 h1).
  destruct (factoryCalls k f s1 h1) as [[rs s2] h2]. simpl in *.
  assert (Hf : failure (inr w :: rs) = failure rs).
  { unfold failure. by destruct rs. }
  rewrite Hf. destruct IH as [IHok IHfail]. split.
  - intros Hok. destruct (IHok Hok). split; simpl; lia.
  - intros e He. destruct (IHfail e He). split; simpl; lia.
Qed.

(** Scaling leaves the cursor in range. *)
Lemma cursor_ok_ScaleTo s h (p : WorkerPool) (n : Z) (factory : option (@Factory S)) :
  cursor_ok p -> cursor_ok (snd (ScaleTo s h p n factory)).
Proof.
  intros Hok. unfold ScaleTo.
  destruct (n =? _); [done|].
  destruct (n <? Z.of_nat (length (workers p))) eqn:Hlt.
  - destruct (n <? 0) eqn:Hneg; [done|]. simpl.
    apply Z.ltb_lt in Hlt. apply Z.ltb_ge in Hneg.
    unfold cursor_ok. simpl. rewrite length_take.
    destruct (n <=? Z.of_nat (next p)) eqn:Hle.
    + destruct (decide (n = 0)) as [->|Hnz]; [by right|]. left. lia.
    + apply Z.leb_gt in Hle. left. lia.
  - destruct factory as [f|]; [|done].
    rewrite growLoop_calls. unfold cursor_ok. simpl.
    destruct Hok as [Hin | [Hnil Hz]].
    + left. rewrite length_app. lia.
    + rewrite Hnil, Hz. simpl.
      destruct (created _) as [|w ws]; [by right|]. left. simpl. lia.
Qed.

(** C9, as the code has it.  [ScaleTo(n, factory)] on a pool of [cur]
    workers:
    - [n = cur]: nothing changes and the factory is not invoked;
    - [0 <= n < cur]: [startDraining] is applied to the workers in the slots
      [n .. cur-1] and to no other, so that those among them that are not
      dead become Draining with their dead flag as it was, and those that are
      dead stay Dead; the list is cut to its first [n] slots; the cursor
      becomes 0 if it was [n] or more and is kept otherwise;
    - [n > cur]: the factory is invoked until it has been invoked [n - cur]
      times or has failed; the workers it returned are appended in order;
      the first failure is returned as the error, after at most [n - cur]
      invocations, with the workers of the earlier invocations in the pool;
    - [n < 0]: the shrinking loop indexes the slice at [n] and panics, the
      pool being as it was. *)
Theorem ScaleTo_cases s h (p : WorkerPool) (n : Z) (factory : option (@Factory S)) :
  let cur := Z.of_nat (length (workers p)) in
  (n = cur -> ScaleTo s h p n factory = (Done tt, s, h, p)) /\
  (0 <= n < cur ->
     let extras := drop (Z.to_nat n) (workers p) in
     ScaleTo s h p n factory =
       (Done tt, s, drainExtras h extras,
        {| workers := take (Z.to_nat n) (workers p);
           next := if n <=? Z.of_nat (next p) then 0%nat else next p |}) /\
     Z.of_nat (length (take (Z.to_nat n) (workers p))) = n /\
     (forall a, drainExtras h extras !! a =
        if bool_decide (Some a ∈ extras) then startDraining <$> h !! a else h !! a) /\
     (forall w, state (startDraining w)
                  = (if decide (state w = WorkerDead) then WorkerDead else WorkerDraining) /\
                isDead (startDraining w) = isDead w)) /\
  (cur < n -> forall f, factory = Some f ->
     let k := Z.to_nat (n - cur) in
     let rs := fst (fst (factoryCalls k f s h)) in
     ScaleTo s h p n factory =
       (failure rs, snd (fst (factoryCalls k f s h)), snd (factoryCalls k f s h),
        {| workers := workers p ++ created rs; next := next p |}) /\
     (failure rs = Done tt -> length rs = k /\ length (created rs) = k) /\
     (forall e, failure rs = Failed e ->
        (0 < length rs <= k)%nat /\ Datatypes.S (length (created rs)) = length rs)) /\
  (n < 0 -> ScaleTo s h p n factory = (Panic "index out of range", s, h, p)).
Proof.
  intros cur. split; [|split; [|split]].
  - intros ->. unfold ScaleTo. fold cur. by rewrite Z.eqb_refl.
  - intros Hn extras. unfold ScaleTo. fold cur.
    replace (n =? cur) with false by (symmetry; apply Z.eqb_neq; lia).
    replace (n <? cur) with true by (symmetry; apply Z.ltb_lt; lia).
    replace (n <? 0) with false by (symmetry; apply Z.ltb_ge; lia).
    split; [done|]. split; [|split].
    + rewrite length_take. subst cur. lia.
    + apply drainExtras_lookup.
    + apply startDraining_state.
  - intros Hn f -> k rs. unfold ScaleTo. fold cur.
    replace (n =? cur) with false by (symmetry; apply Z.eqb_neq; lia).
    replace (n <? cur) with false by (symmetry; apply Z.ltb_ge; lia).
    fold k. rewrite growLoop_calls. split; [done|].
    apply (factoryCalls_shape k f s h).
  - intros Hn. unfold ScaleTo. fold cur.
    replace (n =? cur) with false by (symmetry; apply Z.eqb_neq; lia).
    replace (n <? cur) with true by (symmetry; apply Z.ltb_lt; lia).
    by replace (n <? 0) with true by (symmetry; apply Z.ltb_lt; lia).
Qed.

End Growing.

Lemma ScaleTo_cases_witness :
  0 <= 1 < Z.of_nat (length (workers threePool)) /\
  ScaleTo tt healthyHeap threePool 1 None =
    (Done tt, tt, drainExtras healthyHeap [Some 1%nat; Some 2%nat],
     {| workers := [Some 0%nat]; next := 0 |}).
Proof.
  split; [simpl; lia|].
  exact (proj1 (proj1 (proj2 (ScaleTo_cases tt healthyHeap threePool 1 None))
                  ltac:(simpl; lia))).
Defined.

(** C9, as the claim has it, fails: the worker in the slot that is cut off
    is dead already, and after [ScaleTo(1)] it is Dead, not Draining. *)
Lemma shrink_leaves_dead_worker_dead :
  let '(res, _, h, p) := ScaleTo tt deadTailHeap deadTailPool 1 None in
  res = Done tt /\ workers p = [Some 0%nat] /\
  (state <$> h !! 1%nat) = Some WorkerDead /\
  (isDraining <$> h !! 1%nat) = Some false.
Proof. vm_compute. repeat split. Qed.

(** Scenario 6 on the code: three workers scaled down to one, then up to
    three with a factory that is invoked twice; and a growth from one to four
    whose factory fails at its second invocation. *)
Example scale_down_then_up :
  let '(res1, _, h1, p1) := ScaleTo 0%nat healthyHeap threePool 1 None in
  let '(res2, count, h2, p2) := ScaleTo 0%nat h1 p1 3 (Some (countingFactory 0)) in
  res1 = Done tt /\ workers p1 = [Some 0%nat] /\
  (state <$> h1 !! 0%nat) = Some WorkerIdle /\
  (state <$> h1 !! 1%nat) = Some WorkerDraining /\
  (state <$> h1 !! 2%nat) = Some WorkerDraining /\
  (isDead <$> h1 !! 1%nat) = Some false /\
  res2 = Done tt /\ count = 2%nat /\
  workers p2 = [Some 0%nat; Some 10%nat; Some 11%nat].
Proof. vm_compute. repeat split. Qed.

Example grow_with_failing_factory :
  let p := {| workers := [Some 0%nat]; next := 0 |} in
  let '(res, count, h, p1) := ScaleTo 0%nat healthyHeap p 4 (Some (countingFactory 2)) in
  res = Failed spawnFails /\ count = 2%nat /\
  workers p1 = [Some 0%nat; Some 10%nat] /\
  is_Some (h !! 10%nat).
Proof. vm_compute. repeat split. by eexists. Qed.

(** The test [TestDrainAllMarksWorkersAsDraining] on the three healthy
    workers. *)
Example drain_all_marks_draining :
  let h := DrainAll healthyHeap threePool in
  (state <$> h !! 0%nat) = Some WorkerDraining /\
  (state <$> h !! 1%nat) = Some WorkerDraining /\
  (state <$> h !! 2%nat) = Some WorkerDraining /\
  (isDead <$> h !! 2%nat) = Some false.
Proof. vm_compute. repeat split. Qed.

(** ** The hub *)

(** C10.  [Unsubscribe(channel, c)] for a client [c] of the hub.
    - The channel has a subscriber set: the done channel of [c] is closed,
      whether or not [c] is in the set; if it was closed already, the call
      panics.
    - Hence a second [Unsubscribe] with the same handle panics when other
      subscribers remained on the channel after the first.
    - The channel has no subscriber set: the call returns and nothing
      changes.  It is the only case in which the call returns with the done
      channel of [c] still open. *)
Theorem Unsubscribe_closes_done (h : SSEHub) (channel : string) (c : addr)
    (cl : sseClient) :
  store h !! c = Some cl ->
  (forall subs, clients h !! channel = Some subs ->
     (done cl = ChanOpen ->
        exists h', Unsubscribe h channel c = (Done tt, h') /\
                   doneOf h' c = Some ChanClosed) /\
     (done cl = ChanClosed ->
        fst (Unsubscribe h channel c) = Panic "close of closed channel")) /\
  (forall subs h1 c',
     clients h !! channel = Some subs -> c' ∈ subs -> c' <> c ->
     Unsubscribe h channel c = (Done tt, h1) ->
     fst (Unsubscribe h1 channel c) = Panic "close of closed channel") /\
  (clients h !! channel = None -> Unsubscribe h channel c = (Done tt, h)) /\
  (forall h', Unsubscribe h channel c = (Done tt, h') ->
     doneOf h' c = Some ChanOpen -> clients h !! channel = None).
Proof.
  intros Hc. split; [|split; [|split]].
  - intros subs Hsubs. unfold Unsubscribe. rewrite Hsubs, Hc. split; intros ->.
    + eexists. split; [done|]. unfold doneOf. simpl. by rewrite lookup_insert_eq.
    + done.
  - intros subs h1 c' Hsubs Hin Hne. unfold Unsubscribe at 1. rewrite Hsubs, Hc.
    destruct (done cl) eqn:Hdone; [|done]. intros [= <-].
    assert (Hsize : (size (subs ∖ {[c]}) =? 0)%nat = false).
    { apply Nat.eqb_neq. apply size_non_empty_iff. intros Hempty.
      assert (c' ∈ subs ∖ {[c]}) as Hin' by set_solver.
      rewrite Hempty in Hin'. set_solver. }
    rewrite Hsize. unfold Unsubscribe. simpl.
    by rewrite !lookup_insert_eq.
  - intros Hnone. unfold Unsubscribe. by rewrite Hnone.
  - intros h' Hrun Hopen. unfold Unsubscribe in Hrun.
    destruct (clients h !! channel) as [subs|]; [|done].
    rewrite Hc in Hrun. destruct (done cl); [|done].
    injection Hrun as <-. unfold doneOf in Hopen. simpl in Hopen.
    by rewrite lookup_insert_eq in Hopen.
Qed.

Lemma Unsubscribe_closes_done_witness :
  doneOf hub3 sub0 = Some ChanOpen /\
  fst (Unsubscribe (snd (Unsubscribe hub3 "news" sub0)) "news" sub0)
    = Panic "close of closed channel".
Proof.
  split; [vm_compute; reflexivity|].
  assert (Hc : store hub3 !! sub0 = Some {| ch := []; done := ChanOpen |})
    by (vm_compute; reflexivity).
  assert (Hsubs : clients hub3 !! "news" = Some ({[sub1]} ∪ ({[sub0]} ∪ ∅)))
    by (vm_compute; reflexivity).
  assert (Hin : sub1 ∈ ({[sub1]} ∪ ({[sub0]} ∪ ∅) : gset addr)) by set_solver.
  assert (Hne : sub1 <> sub0) by (vm_compute; discriminate).
  destruct (Unsubscribe hub3 "news" sub0) as [res h1] eqn:Hrun.
  assert (Hres : res = Done tt).
  { apply (f_equal fst) in Hrun. simpl in Hrun. rewrite <- Hrun.
    vm_compute. reflexivity. }
  subst res.
  exact (proj1 (proj2 (Unsubscribe_closes_done hub3 "news" sub0 _ Hc))
           _ h1 sub1 Hsubs Hin Hne Hrun).
Defined.

(** Three runs on the hub with subscribers [sub0], [sub1] on "news" and
    [sub2] on "sport": the handle [sub2] unsubscribed from "news", where it
    never was, has its done channel closed and stays registered on "sport";
    [sub0] unsubscribed twice from "news" panics the second time; [sub2]
    unsubscribed twice from "sport", where it is alone, does not. *)
Example unsubscribe_foreign_handle :
  let '(res, h) := Unsubscribe hub3 "news" sub2 in
  res = Done tt /\ doneOf h sub2 = Some ChanClosed /\
  clients h !! "news" = clients hub3 !! "news" /\
  clients h !! "sport" = clients hub3 !! "sport".
Proof. vm_compute. repeat split. Qed.

Example unsubscribe_twice_with_others :
  let '(res1, h1) := Unsubscribe hub3 "news" sub0 in
  let '(res2, h2) := Unsubscribe h1 "news" sub0 in
  res1 = Done tt /\ res2 = Panic "close of closed channel".
Proof. vm_compute. repeat split. Qed.

Example unsubscribe_twice_alone :
  let '(res1, h1) := Unsubscribe hub3 "sport" sub2 in
  let '(res2, h2) := Unsubscribe h1 "sport" sub2 in
  res1 = Done tt /\ clients h1 !! "sport" = None /\
  res2 = Done tt /\ h2 = h1.
Proof. vm_compute. repeat split. Qed.

(** * Further properties *)

(** ** Worker: what a call leaves behind *)

Section CallInvariants.

Variable lib : GoLib.

(** X1.  The dead flag and the state agree after every method, if they did
    before: [markDead], [startDraining], [restart], [Handle], [Stream]. *)
Theorem flags_agree_kept (w : Worker) (req : RequestPayload) (rw : Sink) :
  flags_agree w ->
  flags_agree (markDead w) /\ flags_agree (startDraining w) /\
  flags_agree (snd (restart w)) /\
  flags_agree (snd (Handle lib w req)) /\
  flags_agree (snd (fst (Stream lib w req rw))).
Proof.
  intros Hag.
  split; [apply flags_agree_markDead|].
  split; [by apply flags_agree_startDraining|].
  split; [by apply flags_agree_restart|].
  split; [by apply flags_agree_Handle|by apply flags_agree_Stream].
Qed.

Lemma in_call_enter (w : Worker) :
  isDead w = false -> inFlight w = 0 -> in_call (enter w).
Proof.
  intros Hd Hfl. unfold in_call. split; [|split].
  - right. unfold enter, incrInFlight. simpl. by rewrite Hfl.
  - done.
  - by apply flags_agree_enter.
Qed.

Lemma in_call_markDead (w : Worker) : in_call w -> in_call (markDead w).
Proof. intros (Hfl & _ & _). by split. Qed.

Lemma in_call_set_cmd (w : Worker) (p : Proc) : in_call w -> in_call (set_cmd w p).
Proof. done. Qed.

Lemma in_call_restart (w : Worker) : in_call w -> in_call (snd (restart w)).
Proof.
  intros Hin. unfold restart. destruct (children w (spawns w)); [done|].
  simpl. split; [by left|]. by split.
Qed.

Lemma in_call_countRequest (w : Worker) : in_call w -> in_call (countRequest w).
Proof.
  intros Hin. unfold countRequest. destruct (_ && _); [|done].
  by apply (in_call_markDead (set_requestCount w _)).
Qed.

Lemma in_call_handleRequest (w : Worker) (req : RequestPayload) :
  in_call w -> in_call (snd (handleRequest lib w req)).
Proof.
  intros Hin. unfold handleRequest.
  destruct (sendRequest lib (cmd w) req) as [[e|] p2]; [done|].
  destruct (readResponse lib p2) as [[resp|e| |m] p3]; try done.
  destruct (0 <? requestTimeout w); [|done]. simpl.
  apply in_call_set_cmd, in_call_markDead. done.
Qed.

Lemma in_call_handleLoop (n : nat) (w : Worker) (req : RequestPayload) :
  in_call w -> in_call (snd (handleLoop lib n w req)).
Proof.
  revert w. induction n as [|n IH]; intros w Hin; simpl; [done|].
  assert (Hstep : forall v, in_call v ->
            in_call (snd
               match handleRequest lib v req with
               | (Done resp, w2) => (Done resp, countRequest w2)
               | (Failed err, w2) =>
                   if isBrokenPipe err then handleLoop lib n (markDead w2) req
                   else (Failed err, w2)
               | (Blocked, w2) => (Blocked, w2)
               | (Panic m, w2) => (Panic m, w2)
               end)).
  { intros v Hv. pose proof (in_call_handleRequest v req Hv) as Hreq.
    destruct (handleRequest lib v req) as [[resp|e| |m] w2]; simpl in *; try done.
    - by apply in_call_countRequest.
    - destruct (isBrokenPipe e); [|done]. by apply IH, in_call_markDead. }
  destruct (isDead w); [|by apply Hstep].
  pose proof (in_call_restart w Hin) as Hre.
  destruct (restart w) as [[[]|e| |m] w2]; simpl in *; try done.
  by apply Hstep.
Qed.

Lemma in_call_streamLoop (fuel : nat) :
  forall (w w1 : Worker) (st : RelayState) (rw rw1 : Sink) (res : outcome unit),
  in_call w -> streamLoop lib fuel w st rw = Some (res, w1, rw1) -> in_call w1.
Proof.
  induction fuel as [|fuel IH]; intros w w1 st rw rw1 res Hin; simpl; [done|].
  pose proof (in_call_markDead w Hin) as Hmd.
  destruct (ReadFull (cmd w) 4) as [[hdr| e | |m] p1]; try by intros [= _ <- _].
  destruct ((Uint32 hdr =? 0) || (maxFrameLen <? Uint32 hdr));
    [by intros [= _ <- _]|].
  destruct (ReadFull p1 _) as [[frameJSON| e | |m] p2]; try by intros [= _ <- _].
  destruct (json_Unmarshal_frame lib frameJSON) as [e|frame]; [by intros [= _ <- _]|].
  destruct (relayFrame lib frame st rw) as [[[|[e|]] st1] rw2];
    try by intros [= _ <- _].
  by apply IH.
Qed.

(** The completion of a call in that state leaves nothing in flight and
    the worker Idle, or Dead if it was marked dead. *)
Lemma complete_in_call (w : Worker) :
  in_call w ->
  inFlight (complete w) = 0 /\
  (state (complete w) = WorkerIdle /\ isDead (complete w) = false \/
   state (complete w) = WorkerDead /\ isDead (complete w) = true).
Proof.
  unfold in_call, flags_agree, complete, decrInFlight, isDead, isDraining, getInFlight.
  destruct w as [p base d k t c s n kids sp]. simpl.
  intros (Hfl & Hnd & Hag).
  assert (Hdr : bool_decide (s = WorkerDraining) = false) by by apply bool_decide_eq_false.
  destruct Hfl as [-> | ->]; simpl; rewrite Hdr; simpl;
    destruct d; simpl; split; try done; try (by left); right; split; try done;
    by apply Hag.
Qed.

(** X2.  A worker with nothing in flight that [Handle] or [Stream] lets in
    is, when the call returns, again without anything in flight, and either
    Idle and alive or Dead with its flag set: never Busy, never Draining. *)
Theorem call_leaves_idle_or_dead (w : Worker) (req : RequestPayload) (rw : Sink) :
  isDead w = false -> isDraining w = false -> inFlight w = 0 ->
  let settled (w' : Worker) :=
    inFlight w' = 0 /\
    (state w' = WorkerIdle /\ isDead w' = false \/
     state w' = WorkerDead /\ isDead w' = true) in
  (fst (Handle lib w req) <> Blocked -> settled (snd (Handle lib w req))) /\
  (fst (fst (Stream lib w req rw)) <> Blocked ->
   settled (snd (fst (Stream lib w req rw)))).
Proof.
  intros Hd Hdr Hfl settled. pose proof (in_call_enter w Hd Hfl) as Hin. split.
  - rewrite (Handle_entered lib w req Hd Hdr).
    pose proof (in_call_handleLoop 2 (enter w) req Hin) as Hloop.
    destruct (handleLoop lib 2 (enter w) req) as [[resp|e| |m] w1]; simpl in *;
      try done; intros _; by apply complete_in_call.
  - unfold Stream. rewrite Hd, Hdr. simpl.
    assert (Hint : in_call (snd (fst (streamInternal lib (enter w) req rw)))).
    { unfold streamInternal. destruct (isDead (enter w)); [done|].
      destruct (sendRequest lib (cmd (enter w)) req) as [[e|] p2]; [done|].
      destruct (streamLoop lib _ _ _ _) as [[[res w1] rw1]|] eqn:Hloop; [|done].
      simpl. eapply in_call_streamLoop; [|exact Hloop]. done. }
    destruct (streamInternal lib (enter w) req rw) as [[[[]|e| |m] w1] rw1];
      simpl in *; try (intros _; by apply complete_in_call).
    destruct (0 <? requestTimeout w1); [|done]. simpl. intros _.
    apply complete_in_call. by apply in_call_set_cmd, in_call_markDead.
Qed.

(** The loop of [Handle] starts a child only when it finds the worker dead
    at the top of a pass. *)
Lemma spawns_handleLoop_bound (n : nat) (w : Worker) (req : RequestPayload) :
  (spawns (snd (handleLoop lib n w req))
   <= spawns w + (if isDead w then n else pred n))%nat.
Proof.
  revert w. induction n as [|n IH]; intros w; simpl.
  { destruct (isDead w); lia. }
  assert (Hstep : forall v, isDead v = false ->
            (spawns (snd
               match handleRequest lib v req with
               | (Done resp, w2) => (Done resp, countRequest w2)
               | (Failed err, w2) =>
                   if isBrokenPipe err then handleLoop lib n (markDead w2) req
                   else (Failed err, w2)
               | (Blocked, w2) => (Blocked, w2)
               | (Panic m, w2) => (Panic m, w2)
               end) <= spawns v + n)%nat).
  { intros v Hv. pose proof (spawns_handleRequest lib v req) as Hsp.
    destruct (handleRequest lib v req) as [[resp|e| |m] w2]; simpl in *.
    - rewrite spawns_countRequest. lia.
    - destruct (isBrokenPipe e); simpl; [|lia].
      specialize (IH (markDead w2)). simpl in IH. lia.
    - lia.
    - lia. }
  destruct (isDead w) eqn:Hd; [|by apply Hstep].
  destruct (restart_returns w) as [[w2 Hre] | (e & w2 & Hre)]; rewrite Hre.
  - destruct (restart_Done _ _ Hre) as (Hsp & Hd2 & _).
    specialize (Hstep w2 Hd2). lia.
  - simpl. destruct (restart_Failed _ _ _ Hre) as [-> _]. lia.
Qed.

(** X3.  A call of [Handle] starts at most one child; a call of [Stream]
    starts none. *)
Theorem one_child_per_call (w : Worker) (req : RequestPayload) (rw : Sink) :
  (spawns w <= spawns (snd (Handle lib w req)) <= S (spawns w))%nat /\
  spawns (snd (fst (Stream lib w req rw))) = spawns w.
Proof.
  split.
  - split; [apply spawns_Handle|]. unfold Handle.
    destruct (isDead w) eqn:Hd; [simpl; lia|]. destruct (isDraining w); [simpl; lia|].
    assert (Hb : (spawns (snd (handleLoop lib 2 (enter w) req)) <= S (spawns w))%nat).
    { etrans; [apply spawns_handleLoop_bound|].
      replace (isDead (enter w)) with false by done. simpl. lia. }
    destruct (handleLoop lib 2 (enter w) req) as [[resp|e| |m] w1]; simpl in *;
      rewrite ?spawns_complete; lia.
  - unfold Stream. destruct (isDead w) eqn:Hd; [done|].
    destruct (isDraining w); [done|]. simpl.
    assert (Hint : spawns (snd (fst (streamInternal lib (enter w) req rw))) = spawns w).
    { unfold streamInternal. replace (isDead (enter w)) with false by done.
      destruct (sendRequest lib (cmd (enter w)) req) as [[e|] p2]; [done|].
      destruct (streamLoop lib _ _ _ _) as [[[res w1] rw1]|] eqn:Hloop; [|done].
      simpl. revert Hloop. generalize (S (length (p_pending p2))).
      generalize relayInit. generalize rw.
      assert (Hw : spawns (set_cmd (enter w) p2) = spawns w) by done.
      revert Hw. generalize (set_cmd (enter w) p2).
      intros v Hv rw0 st0 fuel. revert v rw0 st0 Hv.
      induction fuel as [|fuel IH]; intros v rw0 st0 Hv; simpl; [done|].
      destruct (ReadFull (cmd v) 4) as [[hdr| e | |m] p1]; try by intros [= _ <- _].
      destruct ((Uint32 hdr =? 0) || (maxFrameLen <? Uint32 hdr));
        [by intros [= _ <- _]|].
      destruct (ReadFull p1 _) as [[frameJSON| e | |m] p3]; try by intros [= _ <- _].
      destruct (json_Unmarshal_frame lib frameJSON) as [e|frame];
        [by intros [= _ <- _]|].
      destruct (relayFrame lib frame st0 rw0) as [[[|[e|]] st1] rw2];
        try by intros [= _ <- _].
      by apply IH. }
    destruct (streamInternal lib (enter w) req rw) as [[[[]|e| |m] w1] rw1];
      simpl in *; rewrite ?spawns_complete; try done.
    destruct (0 <? requestTimeout w1); [|done]. simpl.
    by rewrite spawns_complete.
Qed.

End CallInvariants.

Lemma flags_agree_kept_witness :
  flags_agree w_healthy /\
  flags_agree (snd (Handle exampleLib w_healthy exampleRequest)).
Proof.
  assert (Hag : flags_agree w_healthy) by (split; discriminate).
  split; [exact Hag|].
  exact (proj1 (proj2 (proj2 (proj2
           (flags_agree_kept exampleLib w_healthy exampleRequest emptySink Hag))))).
Defined.

Lemma call_leaves_idle_or_dead_witness :
  isDead w_healthy = false /\ isDraining w_healthy = false /\
  inFlight w_healthy = 0 /\
  inFlight (snd (Handle exampleLib w_healthy exampleRequest)) = 0.
Proof.
  repeat (split; [reflexivity|]).
  refine (proj1 (proj1 (call_leaves_idle_or_dead exampleLib w_healthy exampleRequest
                   emptySink eq_refl eq_refl eq_refl) _)).
  vm_compute. discriminate.
Defined.

(** ** Framing *)

Lemma ReadFull_app (p : Proc) (b rest : list byte) :
  p_pending p = b ++ rest ->
  ReadFull p (length b) = (Done b, set_pending p rest).
Proof.
  intros Hp. unfold ReadFull. rewrite Hp.
  replace (length b <=? length (b ++ rest))%nat with true
    by (symmetry; apply Nat.leb_le; rewrite length_app; lia).
  by rewrite take_app_length, drop_app_length.
Qed.

(** Reading a frame off the child's stdout: the header, then the payload. *)
Lemma ReadFull_framed (p : Proc) (b rest : list byte) :
  0 <= Z.of_nat (length b) < 2 ^ 32 ->
  p_pending p = framed b rest ->
  exists hdr,
    ReadFull p 4 = (Done hdr, set_pending p (b ++ rest)) /\
    Uint32 hdr = Z.of_nat (length b) /\
    ReadFull (set_pending p (b ++ rest)) (Z.to_nat (Uint32 hdr))
      = (Done b, set_pending p rest).
Proof.
  intros Hlen Hp. exists (PutUint32 (Z.of_nat (length b))).
  rewrite (Uint32_PutUint32 _ Hlen), Nat2Z.id. split; [|split; [done|]].
  - by apply (ReadFull_app p (PutUint32 (Z.of_nat (length b))) (b ++ rest)).
  - by apply (ReadFull_app (set_pending p (b ++ rest)) b rest).
Qed.

Section Framing.

Variable lib : GoLib.

(** X4.  The request on the wire.  When the payload encodes to [b] and the
    child takes the writes, its stdin receives the four-byte big-endian
    value of [len(b)] truncated to 32 bits, then [b], and nothing else; that
    header decodes to [len(b) mod 2^32], which is [len(b)] for a payload under
    4 GiB.  When the payload does not encode, nothing is written. *)
Theorem sendRequest_frames (p : Proc) (req : RequestPayload) :
  (forall b, json_Marshal lib req = inr b ->
     (forall n, p_refuse p n = None) ->
     let hdr := PutUint32 (wrap_uint32 (Z.of_nat (length b))) in
     sendRequest lib p req = (None, set_written p (p_written p ++ hdr ++ b)) /\
     Uint32 hdr = Z.of_nat (length b) mod 2 ^ 32 /\
     (Z.of_nat (length b) < 2 ^ 32 -> hdr ++ b = framed b [])) /\
  (forall e, json_Marshal lib req = inl e -> sendRequest lib p req = (Some e, p)).
Proof.
  split.
  - intros b Hb Hok hdr. unfold sendRequest, stdin_Write. rewrite Hb.
    rewrite Hok. simpl. rewrite Hok. split; [|split].
    + unfold set_written. simpl. by rewrite <- app_assoc.
    + subst hdr. unfold wrap_uint32. apply Uint32_PutUint32.
      apply Z.mod_pos_bound. lia.
    + intros Hlt. subst hdr. unfold framed, wrap_uint32.
      rewrite Z.mod_small by lia. by rewrite app_nil_r.
  - intros e He. unfold sendRequest. by rewrite He.
Qed.

(** X5.  The reply off the wire.  When the child's stdout holds a frame
    of [b] (not empty, at most 10 MiB) followed by [rest], the reader hands
    exactly [b] to the decoder and leaves exactly [rest] unread; [Handle] on a
    worker it lets in returns the decoded reply at the first attempt. *)
Theorem readResponse_framed (p : Proc) (b rest : list byte) :
  0 < Z.of_nat (length b) <= maxFrameLen ->
  p_pending p = framed b rest ->
  readResponse lib p =
    (match json_Unmarshal_resp lib b with
     | inl e => Failed e
     | inr resp => Done resp
     end, set_pending p rest) /\
  (forall w req resp,
     isDead w = false -> isDraining w = false ->
     sendRequest lib (cmd w) req = (None, p) ->
     json_Unmarshal_resp lib b = inr resp ->
     Handle lib w req =
       (Done resp, complete (countRequest (set_cmd (enter w) (set_pending p rest))))).
Proof.
  intros Hlen Hp.
  assert (Hlen32 : 0 <= Z.of_nat (length b) < 2 ^ 32).
  { unfold maxFrameLen in Hlen. lia. }
  destruct (ReadFull_framed p b rest Hlen32 Hp) as (hdr & Hhdr & Hu & Hbody).
  assert (Hread : readResponse lib p =
    (match json_Unmarshal_resp lib b with
     | inl e => Failed e
     | inr resp => Done resp
     end, set_pending p rest)).
  { unfold readResponse. rewrite Hhdr.
    rewrite (good_length_test (Uint32 hdr)) by (rewrite Hu; done).
    rewrite Hbody. by destruct (json_Unmarshal_resp lib b). }
  split; [done|].
  intros w req resp Hd Hdr Hsend Hjson.
  rewrite (Handle_entered lib w req Hd Hdr).
  change (handleLoop lib 2 (enter w) req) with
    (match (if isDead (enter w) then restart (enter w) else (Done tt, enter w)) with
     | (Done _, v) =>
         match handleRequest lib v req with
         | (Failed err, w2) =>
             if isBrokenPipe err then handleLoop lib 1 (markDead w2) req
             else (Failed err, w2)
         | (Done resp, w2) => (Done resp, countRequest w2)
         | (Blocked, w2) => (Blocked, w2)
         | (Panic m, w2) => (Panic m, w2)
         end
     | (Failed err, v) => (Failed err, v)
     | (Blocked, v) => (Blocked, v)
     | (Panic m, v) => (Panic m, v)
     end).
  replace (isDead (enter w)) with false by done.
  unfold handleRequest. change (cmd (enter w)) with (cmd w).
  by rewrite Hsend, Hread, Hjson.
Qed.

(** One pass of the relay loop over a frame of [b] followed by [rest]. *)
Lemma streamLoop_framed (fuel : nat) (w : Worker) (st : RelayState) (rw : Sink)
    (b rest : list byte) (frame : StreamFrame) :
  0 < Z.of_nat (length b) <= maxFrameLen ->
  p_pending (cmd w) = framed b rest ->
  json_Unmarshal_frame lib b = inr frame ->
  let w2 := set_cmd w (set_pending (cmd w) rest) in
  streamLoop lib (S fuel) w st rw =
    match relayFrame lib frame st rw with
    | (Continue, st1, rw1) => streamLoop lib fuel w2 st1 rw1
    | (Return None, _, rw1) => Some (Done tt, w2, rw1)
    | (Return (Some e), _, rw1) => Some (Failed e, w2, rw1)
    end.
Proof.
  intros Hlen Hp Hjson w2.
  assert (Hlen32 : 0 <= Z.of_nat (length b) < 2 ^ 32).
  { unfold maxFrameLen in Hlen. lia. }
  destruct (ReadFull_framed (cmd w) b rest Hlen32 Hp) as (hdr & Hhdr & Hu & Hbody).
  apply (streamLoop_pass lib fuel w st rw hdr b _ _ frame Hhdr); try done.
  by rewrite Hu.
Qed.

End Framing.

Lemma sendRequest_frames_witness :
  json_Marshal exampleLib exampleRequest = inr (list_byte_of_string requestJSON) /\
  p_written (snd (sendRequest exampleLib answering exampleRequest))
    = framed (list_byte_of_string requestJSON) [].
Proof.
  split; [reflexivity|].
  destruct (proj1 (sendRequest_frames exampleLib answering exampleRequest)
              (list_byte_of_string requestJSON) eq_refl (fun _ => eq_refl))
    as (Hsend & _ & Hframed).
  rewrite Hsend. simpl. apply Hframed. vm_compute. reflexivity.
Defined.

Lemma readResponse_framed_witness :
  0 < Z.of_nat (length (list_byte_of_string okJSON)) <= maxFrameLen /\
  readResponse exampleLib answering = (Done okResponse, set_pending answering []).
Proof.
  assert (Hlen : 0 < Z.of_nat (length (list_byte_of_string okJSON)) <= maxFrameLen)
    by (vm_compute; split; [reflexivity|discriminate]).
  split; [exact Hlen|].
  exact (proj1 (readResponse_framed exampleLib answering
                  (list_byte_of_string okJSON) [] Hlen
                  ltac:(vm_compute; reflexivity))).
Defined.

(** ** Timeouts *)

Section Timeouts.

Variable lib : GoLib.

Lemma readResponse_silent (p : Proc) :
  (length (p_pending p) < 4)%nat -> p_end p = EndSilent ->
  readResponse lib p = (Blocked, set_pending p []).
Proof.
  intros Hlen Hend. unfold readResponse, ReadFull.
  replace (4 <=? length (p_pending p))%nat with false
    by (symmetry; apply Nat.leb_gt; lia).
  by rewrite Hend.
Qed.

(** X6.  A child that takes the request and then stays silent, without
    even a length header.  With a request timeout configured, [Handle]
    returns the error "worker request timeout after <timeout>", the worker
    is Dead, its child has been killed, and no retry was made and no child
    started (the timeout error is not in the broken-pipe class).  Without a
    timeout, [Handle] never returns. *)
Theorem Handle_times_out (w : Worker) (req : RequestPayload) (p2 : Proc) :
  isDead w = false -> isDraining w = false ->
  sendRequest lib (cmd w) req = (None, p2) ->
  (length (p_pending p2) < 4)%nat -> p_end p2 = EndSilent ->
  let err := errorString ("worker request timeout after " +:+
                          Duration_String lib (requestTimeout w)) in
  (0 < requestTimeout w -> isBrokenPipe err = false ->
     exists w',
       Handle lib w req = (Failed err, w') /\
       isDead w' = true /\ state w' = WorkerDead /\
       p_killed (cmd w') = true /\ spawns w' = spawns w /\
       p_written (cmd w') = p_written p2) /\
  (requestTimeout w <= 0 -> fst (Handle lib w req) = Blocked).
Proof.
  intros Hd Hdr Hsend Hlen Hend err.
  pose proof (readResponse_silent p2 Hlen Hend) as Hread.
  rewrite (Handle_entered lib w req Hd Hdr).
  split.
  - intros Ht Hbp.
    assert (Hreq : handleRequest lib (enter w) req =
                   (Failed err,
                    set_cmd (markDead (set_cmd (enter w) (set_pending p2 [])))
                      (Kill (set_pending p2 [])))).
    { unfold handleRequest. change (cmd (enter w)) with (cmd w).
      rewrite Hsend, Hread. change (requestTimeout (enter w)) with (requestTimeout w).
      by replace (0 <? requestTimeout w) with true by (symmetry; by apply Z.ltb_lt). }
    rewrite (handleLoop_failed lib 1 (enter w) _ req err Hd Hreq), Hbp.
    eexists. split; [reflexivity|].
    split; [by apply isDead_complete|].
    split; [exact (proj2 (complete_markDead
                            (set_cmd (enter w) (Kill (set_pending p2 [])))))|].
    rewrite cmd_complete, spawns_complete. done.
  - intros Ht.
    change (handleLoop lib 2 (enter w) req) with
      (match (if isDead (enter w) then restart (enter w) else (Done tt, enter w)) with
       | (Done _, v) =>
           match handleRequest lib v req with
           | (Failed err, w2) =>
               if isBrokenPipe err then handleLoop lib 1 (markDead w2) req
               else (Failed err, w2)
           | (Done resp, w2) => (Done resp, countRequest w2)
           | (Blocked, w2) => (Blocked, w2)
           | (Panic m, w2) => (Panic m, w2)
           end
       | (Failed err, v) => (Failed err, v)
       | (Blocked, v) => (Blocked, v)
       | (Panic m, v) => (Panic m, v)
       end).
    replace (isDead (enter w)) with false by done.
    unfold handleRequest. change (cmd (enter w)) with (cmd w).
    rewrite Hsend, Hread. change (requestTimeout (enter w)) with (requestTimeout w).
    by replace (0 <? requestTimeout w) with false by (symmetry; by apply Z.ltb_ge).
Qed.

(** The relay changes nothing of the worker's configuration. *)
Lemma requestTimeout_streamLoop (fuel : nat) :
  forall (w w1 : Worker) (st : RelayState) (rw rw1 : Sink) (res : outcome unit),
  streamLoop lib fuel w st rw = Some (res, w1, rw1) ->
  requestTimeout w1 = requestTimeout w.
Proof.
  induction fuel as [|fuel IH]; intros w w1 st rw rw1 res; simpl; [done|].
  destruct (ReadFull (cmd w) 4) as [[hdr| e | |m] p1]; try by intros [= _ <- _].
  destruct ((Uint32 hdr =? 0) || (maxFrameLen <? Uint32 hdr));
    [by intros [= _ <- _]|].
  destruct (ReadFull p1 _) as [[frameJSON| e | |m] p2]; try by intros [= _ <- _].
  destruct (json_Unmarshal_frame lib frameJSON) as [e|frame]; [by intros [= _ <- _]|].
  destruct (relayFrame lib frame st rw) as [[[|[e|]] st1] rw2];
    try by intros [= _ <- _].
  intros Hrun. by rewrite (IH _ _ _ _ _ _ Hrun).
Qed.

Lemma requestTimeout_streamInternal (w : Worker) (req : RequestPayload) (rw : Sink) :
  requestTimeout (snd (fst (streamInternal lib w req rw))) = requestTimeout w.
Proof.
  unfold streamInternal. destruct (isDead w); [done|].
  destruct (sendRequest lib (cmd w) req) as [[e|] p2]; [done|].
  destruct (streamLoop lib _ _ _ _) as [[[res w1] rw1]|] eqn:Hloop; [|done].
  simpl. by rewrite (requestTimeout_streamLoop _ _ _ _ _ _ _ Hloop).
Qed.

(** X7.  A stream whose relay comes to wait for bytes that never arrive,
    at whatever frame.  With a request timeout configured, [Stream] returns
    the error "worker stream timeout after <timeout>", the worker is Dead
    and its child killed, and the sink keeps what had been relayed.  Without
    a timeout, [Stream] never returns. *)
Theorem Stream_times_out (w w1 : Worker) (req : RequestPayload) (rw rw1 : Sink) :
  isDead w = false -> isDraining w = false ->
  streamInternal lib (enter w) req rw = (Blocked, w1, rw1) ->
  (0 < requestTimeout w ->
     exists w',
       Stream lib w req rw =
         (Failed (errorString ("worker stream timeout after " +:+
                               Duration_String lib (requestTimeout w))), w', rw1) /\
       isDead w' = true /\ state w' = WorkerDead /\ p_killed (cmd w') = true) /\
  (requestTimeout w <= 0 -> Stream lib w req rw = (Blocked, w1, rw1)).
Proof.
  intros Hd Hdr Hrun.
  pose proof (requestTimeout_streamInternal (enter w) req rw) as Ht1.
  rewrite Hrun in Ht1. simpl in Ht1.
  unfold Stream. rewrite Hd, Hdr, Hrun. simpl. rewrite Ht1. split; intros Ht.
  - replace (0 <? requestTimeout w) with true by (symmetry; by apply Z.ltb_lt).
    eexists. split; [reflexivity|].
    split; [by apply isDead_complete|].
    split; [exact (proj2 (complete_markDead (set_cmd w1 (Kill (cmd w1)))))|].
    by rewrite cmd_complete.
  - by replace (0 <? requestTimeout w) with false by (symmetry; by apply Z.ltb_ge).
Qed.

End Timeouts.

Lemma Handle_times_out_witness :
  isDead (timedWorker silent) = false /\ 0 < requestTimeout (timedWorker silent) /\
  fst (Handle exampleLib (timedWorker silent) exampleRequest)
    = Failed (errorString "worker request timeout after 100ms").
Proof.
  split; [reflexivity|]. split; [reflexivity|].
  destruct (proj1 (Handle_times_out exampleLib (timedWorker silent) exampleRequest
                     (snd (sendRequest exampleLib silent exampleRequest))
                     eq_refl eq_refl eq_refl ltac:(simpl; lia) eq_refl)
              eq_refl eq_refl) as (w' & -> & _).
  reflexivity.
Defined.

Lemma Stream_times_out_witness :
  isDead (timedWorker silentAfterHeaders) = false /\
  fst (fst (Stream exampleLib (timedWorker silentAfterHeaders) exampleRequest emptySink))
    = Failed (errorString "worker stream timeout after 100ms") /\
  calls (snd (Stream exampleLib (timedWorker silentAfterHeaders) exampleRequest emptySink))
    = [Header_Add "Set-Cookie" "a=1"; Header_Add "Set-Cookie" "b=2";
       Header_Set "X-Tag" "x, y"; WriteHeader 201; Write "hi"; Flush].
Proof.
  split; [reflexivity|].
  assert (Hrun : streamInternal exampleLib (enter (timedWorker silentAfterHeaders))
                   exampleRequest emptySink
                 = (Blocked,
                    snd (fst (streamInternal exampleLib
                                (enter (timedWorker silentAfterHeaders))
                                exampleRequest emptySink)),
                    snd (streamInternal exampleLib
                           (enter (timedWorker silentAfterHeaders))
                           exampleRequest emptySink)))
    by (vm_compute; reflexivity).
  destruct (proj1 (Stream_times_out exampleLib (timedWorker silentAfterHeaders) _
                     exampleRequest emptySink _ eq_refl eq_refl Hrun) eq_refl)
    as (w' & -> & _).
  split; [reflexivity|]. vm_compute. reflexivity.
Defined.

(** ** How a stream ends *)

Section StreamEnds.

Variable lib : GoLib.

Lemma complete_busy (w : Worker) :
  isDead w = false -> state w = WorkerBusy -> inFlight w = 1 ->
  isDead (complete w) = false /\ state (complete w) = WorkerIdle /\
  inFlight (complete w) = 0.
Proof.
  unfold complete, decrInFlight, isDead, isDraining, getInFlight.
  destruct w as [p base d k t c s n kids sp]. simpl. by intros -> -> ->.
Qed.

(** X8.  A pass of the relay over a frame of type "end", "error" or of a
    type it does not know, during a [Stream] call (worker Busy, one request
    in flight).  An end frame ends the stream with nil; an error frame with
    "stream error from worker: <message>"; an unknown type with "unknown
    stream frame type: <quoted type>".  None of them marks the worker dead or
    touches the sink: after the deferred completion the worker is alive and
    Idle, with exactly the bytes after the frame left on its stdout. *)
Theorem relay_terminal_frames (fuel : nat) (w : Worker) (st : RelayState) (rw : Sink)
    (b rest : list byte) (frame : StreamFrame) :
  0 < Z.of_nat (length b) <= maxFrameLen ->
  p_pending (cmd w) = framed b rest ->
  json_Unmarshal_frame lib b = inr frame ->
  isDead w = false -> state w = WorkerBusy -> inFlight w = 1 ->
  let w2 := set_cmd w (set_pending (cmd w) rest) in
  (frame_Type frame = "end" ->
     streamLoop lib (S fuel) w st rw = Some (Done tt, w2, rw)) /\
  (frame_Type frame = "error" ->
     streamLoop lib (S fuel) w st rw =
       Some (Failed (errorString ("stream error from worker: " +:+ frame_Error frame)),
             w2, rw)) /\
  (frame_Type frame <> "headers" -> frame_Type frame <> "chunk" ->
   frame_Type frame <> "end" -> frame_Type frame <> "error" ->
     streamLoop lib (S fuel) w st rw =
       Some (Failed (errorString ("unknown stream frame type: " +:+
                                  quote lib (frame_Type frame))),
             w2, rw)) /\
  isDead (complete w2) = false /\ state (complete w2) = WorkerIdle /\
  p_pending (cmd (complete w2)) = rest.
Proof.
  intros Hlen Hp Hjson Hd Hst Hfl w2.
  pose proof (streamLoop_framed lib fuel w st rw b rest frame Hlen Hp Hjson) as Hpass.
  cbv zeta in Hpass. fold w2 in Hpass. rewrite Hpass. unfold relayFrame.
  split; [|split; [|split]].
  - by intros ->.
  - by intros ->.
  - intros H1 H2 H3 H4.
    apply String.eqb_neq in H1, H2, H3, H4. by rewrite H1, H2, H3, H4.
  - destruct (complete_busy w2 Hd Hst Hfl) as (? & ? & _).
    by rewrite cmd_complete.
Qed.

(** The calls a chunk frame makes before it writes its data. *)
Lemma relayFrame_chunk (frame : StreamFrame) (st : RelayState) (rw : Sink) :
  frame_Type frame = "chunk" ->
  let before := calls rw ++
                (if headersSent st then [] else [WriteHeader (statusCode st)]) in
  relayFrame lib frame st rw =
    (bodyStep rw before (frame_Data frame),
     {| headersSent := true; statusCode := statusCode st |},
     set_calls rw (before ++ bodyCalls rw before (frame_Data frame))).
Proof.
  intros Hty before. unfold relayFrame. rewrite Hty. simpl.
  assert (Hrw : (if headersSent st then rw else call rw (WriteHeader (statusCode st)))
                = set_calls rw before).
  { subst before. destruct (headersSent st).
    - by rewrite app_nil_r, set_calls_id.
    - by rewrite <- (set_calls_id rw) at 1. }
  rewrite Hrw. apply relay_body.
Qed.

(** X9.  A chunk whose data the client no longer takes.  The relay
    returns the error of the [Write] and stops there: no flush, the worker is
    not marked dead, and the frames that follow stay unread on the child's
    stdout, where the next request on this worker will find them. *)
Theorem relay_client_write_fails (fuel : nat) (w : Worker) (st : RelayState)
    (rw : Sink) (b rest : list byte) (frame : StreamFrame) (e : error) :
  0 < Z.of_nat (length b) <= maxFrameLen ->
  p_pending (cmd w) = framed b rest ->
  json_Unmarshal_frame lib b = inr frame ->
  frame_Type frame = "chunk" -> frame_Data frame <> "" ->
  let before := calls rw ++
                (if headersSent st then [] else [WriteHeader (statusCode st)]) in
  write_err rw before = Some e ->
  exists w2 rw2,
    streamLoop lib (S fuel) w st rw = Some (Failed e, w2, rw2) /\
    calls rw2 = before ++ [Write (frame_Data frame)] /\
    isDead w2 = isDead w /\ state w2 = state w /\
    p_pending (cmd w2) = rest.
Proof.
  intros Hlen Hp Hjson Hty Hdata before Hfail.
  pose proof (streamLoop_framed lib fuel w st rw b rest frame Hlen Hp Hjson) as Hpass.
  cbv zeta in Hpass. rewrite Hpass, (relayFrame_chunk frame st rw Hty). fold before.
  unfold bodyStep, bodyCalls.
  destruct (String.eqb_spec (frame_Data frame) ""); [done|]. rewrite Hfail.
  eexists _, _. split; [reflexivity|]. done.
Qed.

End StreamEnds.

Lemma relay_terminal_frames_witness :
  let w := enter (freshWorker (child (onWire endJSON) EndSilent) 0
                    (fun _ => inr answering)) in
  p_pending (cmd w) = framed (list_byte_of_string endJSON) [] /\
  streamLoop exampleLib 1 w relayInit emptySink
    = Some (Done tt, set_cmd w (set_pending (cmd w) []), emptySink).
Proof.
  intros w.
  assert (Hp : p_pending (cmd w) = framed (list_byte_of_string endJSON) [])
    by (vm_compute; reflexivity).
  split; [exact Hp|].
  exact (proj1 (relay_terminal_frames exampleLib 0 w relayInit emptySink
                  (list_byte_of_string endJSON) [] endFrame
                  ltac:(vm_compute; split; [reflexivity|discriminate]) Hp
                  ltac:(vm_compute; reflexivity) eq_refl eq_refl eq_refl) eq_refl).
Defined.

Lemma relay_client_write_fails_witness :
  let w := enter (freshWorker chunkFirst 0 (fun _ => inr answering)) in
  p_pending (cmd w) = framed (list_byte_of_string chunkJSON) (onWire endJSON) /\
  exists w2 rw2,
    streamLoop exampleLib 1 w relayInit brokenSink = Some (Failed clientGone, w2, rw2) /\
    calls rw2 = [WriteHeader 200; Write " world"] /\
    p_pending (cmd w2) = onWire endJSON.
Proof.
  intros w.
  assert (Hp : p_pending (cmd w)
               = framed (list_byte_of_string chunkJSON) (onWire endJSON))
    by (vm_compute; reflexivity).
  split; [exact Hp|].
  destruct (relay_client_write_fails exampleLib 0 w relayInit brokenSink
              (list_byte_of_string chunkJSON) (onWire endJSON) chunkFrame clientGone
              ltac:(vm_compute; split; [reflexivity|discriminate]) Hp
              ltac:(vm_compute; reflexivity) eq_refl ltac:(discriminate) eq_refl)
    as (w2 & rw2 & Hrun & Hcalls & _ & _ & Hrest).
  exists w2, rw2. split; [exact Hrun|]. split; [exact Hcalls|exact Hrest].
Defined.

(** The same run through [Stream], followed by a unary call on the worker:
    the call consumes the end frame the stream left behind as if it were its
    reply. *)
Example stale_frame_after_write_failure :
  let w := freshWorker chunkFirst 0 (fun _ => inr answering) in
  let '(res1, w1, rw1) := Stream exampleLib w exampleRequest brokenSink in
  let '(res2, w2) := Handle exampleLib w1 exampleRequest in
  res1 = Failed clientGone /\ isDead w1 = false /\ state w1 = WorkerIdle /\
  p_pending (cmd w1) = onWire endJSON /\ p_pending (cmd w2) = [].
Proof. vm_compute. repeat split. Qed.

(** ** Pool: selection in sequence *)

Section Turns.

Variable h : gmap addr Worker.

Lemma NextWorker_none (p : WorkerPool) :
  cursor_ok p ->
  (forall s, s ∈ workers p -> selectable h s = false) ->
  NextWorker h p = (Done None, p).
Proof.
  intros [Hn | [Hnil _]] Hnone; unfold NextWorker; [|by rewrite Hnil].
  replace (length (workers p) =? 0)%nat with false
    by (symmetry; apply Nat.eqb_neq; lia).
  rewrite (nextLoop_none h (workers p) _ _ (next p) Hn).
  - replace (next p + length (workers p))%nat
      with (next p + 1 * length (workers p))%nat by lia.
    rewrite Nat.Div0.mod_add, Nat.mod_small by done. by destruct p.
  - intros j s _ Hs. apply Hnone. by eapply list_elem_of_lookup_2.
  - intros j _. apply lookup_lt_is_Some_2, Nat.mod_upper_bound. lia.
Qed.

Lemma NextWorker_first (p : WorkerPool) (slot : option addr) :
  workers p !! next p = Some slot -> selectable h slot = true ->
  NextWorker h p =
    (Done slot,
     {| workers := workers p;
        next := ((next p + 1) mod length (workers p))%nat |}).
Proof.
  intros Hslot Hsel. pose proof (lookup_lt_Some _ _ _ Hslot) as Hn.
  unfold NextWorker.
  replace (length (workers p) =? 0)%nat with false
    by (symmetry; apply Nat.eqb_neq; lia).
  rewrite (nextLoop_found h (workers p) _ slot 0 _ (next p)); try done.
  - by rewrite Nat.add_0_r.
  - lia.
  - intros j s Hj. lia.
  - intros j Hj. lia.
  - by rewrite Nat.add_0_r, Nat.mod_small.
Qed.

(** X10.  A pool in which every worker passes the test hands its workers
    out in turn: the [k]-th of [m] calls in a row returns the worker [k]
    slots after the cursor, wrapping round, and the cursor ends [m] slots on. *)
Theorem NextWorker_takes_turns (p : WorkerPool) :
  (next p < length (workers p))%nat ->
  (forall s, s ∈ workers p -> selectable h s = true) ->
  forall m,
    (forall k, (k < m)%nat ->
       fst (nextWorkerN m h p) !! k
         = Done <$> workers p !! ((next p + k) mod length (workers p))%nat) /\
    next (snd (nextWorkerN m h p)) = ((next p + m) mod length (workers p))%nat /\
    workers (snd (nextWorkerN m h p)) = workers p.
Proof.
  intros Hn Hall m. revert p Hn Hall.
  induction m as [|m IH]; intros p Hn Hall.
  { simpl. split; [intros k Hk; lia|]. split; [|done].
    by rewrite Nat.add_0_r, Nat.mod_small. }
  destruct (lookup_lt_is_Some_2 (workers p) (next p) Hn) as [slot Hslot].
  assert (Hsel : selectable h slot = true).
  { apply Hall. by eapply list_elem_of_lookup_2. }
  simpl. rewrite (NextWorker_first p slot Hslot Hsel).
  set (p1 := {| workers := workers p;
                next := ((next p + 1) mod length (workers p))%nat |}).
  destruct (IH p1) as (Hks & Hnext & Hws).
  { simpl. apply Nat.mod_upper_bound. lia. }
  { done. }
  destruct (nextWorkerN m h p1) as [rs p2]. simpl in *.
  assert (Hshift : forall j,
            (((next p + 1) mod length (workers p) + j) mod length (workers p)
             = (next p + S j) mod length (workers p))%nat).
  { intros j. rewrite Nat.Div0.add_mod_idemp_l. f_equal. lia. }
  split; [|split; [|done]].
  - intros [|k] Hk; simpl.
    + by rewrite Nat.add_0_r, Nat.mod_small, Hslot.
    + rewrite Hks by lia. by rewrite Hshift.
  - by rewrite Hnext, Hshift.
Qed.

(** X11.  With the cursor in range (or the pool empty), [NextWorker] never
    indexes outside the list: it returns nil, or a worker of the list that
    exists and is neither dead nor draining; it leaves the list as it is and
    the cursor in range.  [Dispatch] leaves the pool in the same condition. *)
Theorem NextWorker_stays_in_range (p : WorkerPool) :
  cursor_ok p ->
  (exists slot, fst (NextWorker h p) = Done slot /\
     (slot = None \/
      exists a w, slot = Some a /\ Some a ∈ workers p /\ h !! a = Some w /\
                  isDead w = false /\ isDraining w = false)) /\
  workers (snd (NextWorker h p)) = workers p /\
  cursor_ok (snd (NextWorker h p)) /\
  (forall lib req,
     workers (snd (Dispatch lib h p req)) = workers p /\
     cursor_ok (snd (Dispatch lib h p req))).
Proof.
  intros Hok.
  pose proof (NextWorker_workers h p) as Hws.
  pose proof (cursor_ok_NextWorker h p Hok) as Hok1.
  split; [|split; [done|split; [done|]]].
  - destruct Hok as [Hn | [Hnil _]].
    + unfold NextWorker.
      replace (length (workers p) =? 0)%nat with false
        by (symmetry; apply Nat.eqb_neq; lia).
      destruct (nextLoop_Done h (workers p) (length (workers p)) (next p) Hn)
        as (slot & nxt' & Hrun).
      rewrite Hrun. exists slot. split; [done|].
      destruct (nextLoop_sound h _ _ _ _ _ _ Hrun) as [-> | [Hsel Hin]]; [by left|].
      right. destruct slot as [a|]; [|done]. simpl in Hsel.
      destruct (h !! a) as [w|] eqn:Ha; [|done].
      apply andb_true_iff in Hsel as [Hd Hdr]. apply negb_true_iff in Hd, Hdr.
      by exists a, w.
    + exists None. split; [|by left]. unfold NextWorker. by rewrite Hnil.
  - intros lib req. unfold Dispatch.
    destruct (NextWorker h p) as [[[a|]|e| |m] p1]; simpl in *; try done.
    destruct (h !! a) as [w|]; [|done]. by destruct (Handle lib w req).
Qed.

End Turns.

Lemma NextWorker_takes_turns_witness :
  (next threePool < length (workers threePool))%nat /\
  fst (nextWorkerN 4 healthyHeap threePool) !! 3%nat = Some (Done (Some 0%nat)).
Proof.
  split; [simpl; lia|].
  refine (proj1 (NextWorker_takes_turns healthyHeap threePool
                   ltac:(simpl; lia) _ 4%nat) 3%nat ltac:(lia)).
  intros s Hs. unfold threePool in Hs. simpl in Hs.
  apply elem_of_cons in Hs as [->|Hs]; [reflexivity|].
  apply elem_of_cons in Hs as [->|Hs]; [reflexivity|].
  apply elem_of_cons in Hs as [->|Hs]; [reflexivity|].
  by apply elem_of_nil in Hs.
Defined.

Lemma NextWorker_stays_in_range_witness :
  cursor_ok threePool /\ cursor_ok (snd (NextWorker threeHeap threePool)).
Proof.
  assert (Hok : cursor_ok threePool) by (left; simpl; lia).
  split; [exact Hok|].
  exact (proj1 (proj2 (proj2 (NextWorker_stays_in_range threeHeap threePool Hok)))).
Defined.

(** ** Pool: draining *)

Lemma drainLive_idemp (w : Worker) : drainLive (drainLive w) = drainLive w.
Proof.
  unfold drainLive. destruct (isDead w) eqn:Hd; [by rewrite Hd|].
  rewrite (proj2 (startDraining_state w)), Hd. apply startDraining_idemp.
Qed.

Lemma DrainAll_lookup (h : gmap addr Worker) (p : WorkerPool) (a : addr) :
  DrainAll h p !! a =
    if bool_decide (Some a ∈ workers p) then drainLive <$> h !! a else h !! a.
Proof.
  unfold DrainAll. generalize (workers p). intros ws. revert h.
  induction ws as [|slot rest IH]; intros h; simpl; [done|].
  rewrite IH.
  assert (Hstep : forall b,
    match h !! b with
    | Some w => if isDead w then h else <[b:=startDraining w]> h
    | None => h
    end !! a = if decide (b = a) then drainLive <$> h !! a else h !! a).
  { intros b. destruct (decide (b = a)) as [->|Hne].
    - unfold drainLive, isDead.
      destruct (h !! a) as [w|] eqn:Ha; [|by rewrite Ha]. simpl.
      destruct (dead w); [done|]. by rewrite lookup_insert_eq.
    - unfold isDead. destruct (h !! b) as [w|]; [|done].
      destruct (dead w); [done|]. by rewrite lookup_insert_ne. }
  destruct slot as [b|].
  - rewrite Hstep. destruct (decide (b = a)) as [->|Hne].
    + rewrite (bool_decide_eq_true_2 (Some a ∈ Some a :: rest)) by (apply list_elem_of_here).
      destruct (bool_decide (Some a ∈ rest)); [|done].
      destruct (h !! a); simpl; [|done]. by rewrite drainLive_idemp.
    + apply (f_equal (fun c : bool => if c then drainLive <$> h !! a else h !! a)).
      apply bool_decide_ext. rewrite elem_of_cons.
      split; [by right | intros [[= Heq]|Hin]; [by destruct Hne|done]].
  - apply (f_equal (fun c : bool => if c then drainLive <$> h !! a else h !! a)).
    apply bool_decide_ext. rewrite elem_of_cons.
    split; [by right | intros [Heq|Hin]; done].
Qed.

(** X12.  [DrainAll] applies [startDraining] to the workers of the pool
    that are not dead and to nothing else: those become Draining and stay
    alive, the dead ones and the workers outside the pool are untouched.
    Afterwards no worker of the pool is selected: [NextWorker] returns nil
    and [Dispatch] returns [ErrNoWorkers] without touching a worker.
    Draining a second time changes nothing. *)
Theorem DrainAll_closes_pool (h : gmap addr Worker) (p : WorkerPool) :
  pool_sound h p -> cursor_ok p ->
  (forall a, DrainAll h p !! a =
     if bool_decide (Some a ∈ workers p) then drainLive <$> h !! a else h !! a) /\
  (forall a w, Some a ∈ workers p -> h !! a = Some w -> isDead w = false ->
     exists w', DrainAll h p !! a = Some w' /\
                state w' = WorkerDraining /\ isDead w' = false) /\
  NextWorker (DrainAll h p) p = (Done None, p) /\
  (forall lib req,
     Dispatch lib (DrainAll h p) p req = (Failed ErrNoWorkers, DrainAll h p, p)) /\
  DrainAll (DrainAll h p) p = DrainAll h p.
Proof.
  intros Hsound Hok.
  assert (Hlive : forall w, flags_agree w -> isDead w = false ->
            state (drainLive w) = WorkerDraining /\ isDead (drainLive w) = false).
  { intros w Hag Hd. unfold drainLive. rewrite Hd.
    destruct (startDraining_state w) as [Hst Hdd]. rewrite Hst, Hdd.
    split; [|done]. destruct (decide (state w = WorkerDead)) as [Hs|]; [|done].
    apply Hag in Hs. unfold isDead in Hd. congruence. }
  assert (Hnw : NextWorker (DrainAll h p) p = (Done None, p)).
  { apply NextWorker_none; [done|]. intros [a|] Hin; [|done]. simpl.
    rewrite DrainAll_lookup, bool_decide_eq_true_2 by done.
    destruct (Hsound a Hin) as (w & Ha & Hag). rewrite Ha. simpl.
    destruct (isDead w) eqn:Hd.
    - unfold drainLive. by rewrite Hd, Hd.
    - destruct (Hlive w Hag Hd) as [Hst Hdd]. rewrite Hdd. simpl.
      apply negb_false_iff. by apply isDraining_true. }
  split; [apply DrainAll_lookup|]. split; [|split; [done|split]].
  - intros a w Hin Ha Hd. destruct (Hsound a Hin) as (w0 & Ha0 & Hag).
    assert (w0 = w) as -> by congruence.
    exists (drainLive w). rewrite DrainAll_lookup, bool_decide_eq_true_2, Ha by done.
    split; [done|]. by apply Hlive.
  - intros lib req. unfold Dispatch. by rewrite Hnw.
  - apply map_eq. intros a. rewrite !DrainAll_lookup.
    destruct (bool_decide (Some a ∈ workers p)); [|done].
    destruct (h !! a); simpl; [|done]. by rewrite drainLive_idemp.
Qed.

Lemma DrainAll_closes_pool_witness :
  cursor_ok threePool /\
  NextWorker (DrainAll healthyHeap threePool) threePool = (Done None, threePool).
Proof.
  assert (Hok : cursor_ok threePool) by (left; simpl; lia).
  split; [exact Hok|].
  refine (proj1 (proj2 (proj2 (DrainAll_closes_pool healthyHeap threePool _ Hok)))).
  intros a Hin. unfold threePool in Hin. simpl in Hin.
  assert (Hag : flags_agree w_healthy) by (split; discriminate).
  apply elem_of_cons in Hin as [[= ->]|Hin]; [by exists w_healthy|].
  apply elem_of_cons in Hin as [[= ->]|Hin]; [by exists w_healthy|].
  apply elem_of_cons in Hin as [[= ->]|Hin]; [by exists w_healthy|].
  by apply elem_of_nil in Hin.
Defined.

(** ** The two-pool front *)

Lemma markDead_idemp (w : Worker) : markDead (markDead w) = markDead w.
Proof. by destruct w. Qed.

Lemma markAllDead_lookup (ws : list (option addr)) :
  forall h : gmap addr Worker,
  (forall slot, slot ∈ ws -> exists a w, slot = Some a /\ h !! a = Some w) ->
  exists h', markAllDead h ws = (Done tt, h') /\
    forall a, h' !! a =
      if bool_decide (Some a ∈ ws) then markDead <$> h !! a else h !! a.
Proof.
  induction ws as [|slot rest IH]; intros h Hfull.
  { exists h. split; [done|]. intros a.
    by rewrite bool_decide_eq_false_2 by (apply not_elem_of_nil). }
  destruct (Hfull slot) as (b & w & -> & Hb); [apply list_elem_of_here|].
  cbn [markAllDead]. rewrite Hb.
  destruct (IH (<[b := markDead w]> h)) as (h' & Hrun & Hlook).
  { intros slot Hin. destruct (Hfull slot) as (a & wa & -> & Ha).
    { by apply list_elem_of_further. }
    exists a. destruct (decide (a = b)) as [->|Hne].
    - exists (markDead w). by rewrite lookup_insert_eq.
    - exists wa. by rewrite lookup_insert_ne. }
  exists h'. split; [done|]. intros a. rewrite Hlook.
  destruct (decide (a = b)) as [->|Hne].
  - rewrite lookup_insert_eq, Hb.
    rewrite (bool_decide_eq_true_2 (Some b ∈ Some b :: rest))
      by (apply list_elem_of_here).
    destruct (bool_decide (Some b ∈ rest)); simpl; [|done].
    by rewrite markDead_idemp.
  - rewrite lookup_insert_ne by done.
    apply (f_equal (fun c : bool => if c then markDead <$> h !! a else h !! a)).
    apply bool_decide_ext. rewrite elem_of_cons.
    split; [by right | intros [[= Heq]|Hin]; [by destruct Hne|done]].
Qed.

Lemma countDead_all (h : gmap addr Worker) (ws : list (option addr)) :
  (forall slot, slot ∈ ws ->
     exists a w, slot = Some a /\ h !! a = Some w /\ isDead w = true) ->
  countDead h ws = length ws.
Proof.
  induction ws as [|slot rest IH]; intros Hall; simpl; [done|].
  destruct (Hall slot) as (a & w & -> & Ha & Hd); [apply list_elem_of_here|].
  rewrite Ha, Hd, IH; [done|].
  intros s Hs. apply Hall. by apply list_elem_of_further.
Qed.

(** X13.  On pools without nil slots [markAllWorkersDead] marks every
    worker of both pools dead and touches no other worker; [Stats] then
    counts every worker of either pool as dead.  Nothing recreates them:
    every later [Server.Dispatch] returns [ErrNoWorkers] and leaves workers
    and pools as they are. *)
Theorem markAllWorkersDead_stops_service (h : gmap addr Worker) (s : Server) :
  pool_full h (fastPool s) -> pool_full h (slowPool s) ->
  cursor_ok (fastPool s) -> cursor_ok (slowPool s) ->
  exists h', markAllWorkersDead h s = (Done tt, h') /\
    (forall a, h' !! a =
       if bool_decide (Some a ∈ workers (fastPool s) ++ workers (slowPool s))
       then markDead <$> h !! a else h !! a) /\
    stats_DeadWorkers (Stats h' (fastPool s)) = stats_Workers (Stats h' (fastPool s)) /\
    stats_DeadWorkers (Stats h' (slowPool s)) = stats_Workers (Stats h' (slowPool s)) /\
    forall lib req, Server_Dispatch lib h' s req = (Failed ErrNoWorkers, h', s).
Proof.
  intros Hfast Hslow Hokf Hoks. unfold markAllWorkersDead.
  destruct (markAllDead_lookup (workers (fastPool s)) h Hfast) as (h1 & Hrun1 & Hl1).
  rewrite Hrun1.
  destruct (markAllDead_lookup (workers (slowPool s)) h1) as (h2 & Hrun2 & Hl2).
  { intros slot Hin. destruct (Hslow slot Hin) as (a & w & -> & Ha).
    exists a. rewrite Hl1, Ha.
    destruct (bool_decide _); simpl; eauto. }
  exists h2. split; [done|].
  assert (Hlook : forall a, h2 !! a =
       if bool_decide (Some a ∈ workers (fastPool s) ++ workers (slowPool s))
       then markDead <$> h !! a else h !! a).
  { intros a. rewrite Hl2, Hl1.
    destruct (decide (Some a ∈ workers (fastPool s))) as [Hf|Hf];
      destruct (decide (Some a ∈ workers (slowPool s))) as [Hs|Hs].
    - rewrite !bool_decide_eq_true_2 by (done || (apply elem_of_app; by left)).
      destruct (h !! a); simpl; [|done]. by rewrite markDead_idemp.
    - rewrite (bool_decide_eq_false_2 _ Hs), (bool_decide_eq_true_2 _ Hf).
      by rewrite bool_decide_eq_true_2 by (apply elem_of_app; by left).
    - rewrite (bool_decide_eq_true_2 _ Hs), (bool_decide_eq_false_2 _ Hf).
      by rewrite bool_decide_eq_true_2 by (apply elem_of_app; by right).
    - rewrite (bool_decide_eq_false_2 _ Hs), (bool_decide_eq_false_2 _ Hf).
      rewrite bool_decide_eq_false_2; [done|].
      intros [?|?]%elem_of_app; done. }
  assert (Hdead : forall p, pool_full h p ->
            (forall slot, slot ∈ workers p -> slot ∈ workers (fastPool s) ++ workers (slowPool s)) ->
            forall slot, slot ∈ workers p ->
              exists a w, slot = Some a /\ h2 !! a = Some w /\ isDead w = true).
  { intros p Hp Hsub slot Hin. destruct (Hp slot Hin) as (a & w & -> & Ha).
    exists a, (markDead w). split; [done|].
    rewrite Hlook, bool_decide_eq_true_2, Ha by (by apply Hsub).
    split; [done|]. apply isDead_markDead. }
  assert (Hdf := Hdead (fastPool s) Hfast
            (fun slot Hin => proj2 (elem_of_app _ _ slot) (or_introl Hin))).
  assert (Hds := Hdead (slowPool s) Hslow
            (fun slot Hin => proj2 (elem_of_app _ _ slot) (or_intror Hin))).
  assert (Hnone : forall p,
            (forall slot, slot ∈ workers p ->
               exists a w, slot = Some a /\ h2 !! a = Some w /\ isDead w = true) ->
            forall slot, slot ∈ workers p -> selectable h2 slot = false).
  { intros p Hp slot Hin. destruct (Hp slot Hin) as (a & w & -> & Ha & Hd).
    simpl. by rewrite Ha, Hd. }
  split; [done|]. split; [by apply countDead_all|]. split; [by apply countDead_all|].
  intros lib req. unfold Server_Dispatch, Dispatch.
  destruct (IsSlowRequest req).
  - rewrite (NextWorker_none h2 (slowPool s) Hoks (Hnone _ Hds)). by destruct s.
  - rewrite (NextWorker_none h2 (fastPool s) Hokf (Hnone _ Hdf)). by destruct s.
Qed.

(** X14.  [markAllWorkersDead] has no nil check: a nil slot in the fast
    pool, which [Stats], [DrainAll] and [NextWorker] pass over, makes it
    panic on the nil dereference. *)
Theorem markAllWorkersDead_nil_slot (h : gmap addr Worker) (s : Server) :
  (forall a, Some a ∈ workers (fastPool s) -> is_Some (h !! a)) ->
  None ∈ workers (fastPool s) ->
  fst (markAllWorkersDead h s)
    = Panic "invalid memory address or nil pointer dereference".
Proof.
  intros Hex Hnil. unfold markAllWorkersDead.
  assert (Hp : forall ws h0,
            (forall a, Some a ∈ ws -> is_Some (h0 !! a)) -> None ∈ ws ->
            fst (markAllDead h0 ws)
              = Panic "invalid memory address or nil pointer dereference").
  { induction ws as [|slot rest IH]; intros h0 Hs Hin.
    { by apply elem_of_nil in Hin. }
    simpl. destruct slot as [a|]; [|done].
    destruct (Hs a) as [w Ha]; [apply list_elem_of_here|]. rewrite Ha.
    apply IH.
    - intros b Hb. destruct (decide (b = a)) as [->|Hne].
      + by rewrite lookup_insert_eq.
      + rewrite lookup_insert_ne by done. apply Hs. by apply list_elem_of_further.
    - apply elem_of_cons in Hin as [?|?]; done. }
  specialize (Hp _ h Hex Hnil).
  destruct (markAllDead h (workers (fastPool s))) as [[[]|e| |m] h1];
    simpl in Hp; try discriminate. done.
Qed.

(** X15.  [Server.Dispatch] keeps to the pool its classification picks:
    the other pool's list and cursor are unchanged, no worker outside the
    picked pool changes, and when the picked pool has no worker to give the
    answer is [ErrNoWorkers] whatever the other pool holds. *)
Theorem Server_Dispatch_keeps_to_one_pool
    (lib : GoLib) (h : gmap addr Worker) (s : Server) (req : RequestPayload) :
  cursor_ok (fastPool s) -> cursor_ok (slowPool s) ->
  let p := if IsSlowRequest req then slowPool s else fastPool s in
  let r := Server_Dispatch lib h s req in
  (if IsSlowRequest req then fastPool (snd r) = fastPool s
   else slowPool (snd r) = slowPool s) /\
  (forall a, Some a ∉ workers p -> snd (fst r) !! a = h !! a) /\
  ((forall slot, slot ∈ workers p -> selectable h slot = false) ->
   r = (Failed ErrNoWorkers, h, s)).
Proof.
  intros Hokf Hoks p r.
  assert (Houtside : forall q a, Some a ∉ workers q ->
            snd (fst (Dispatch lib h q req)) !! a = h !! a).
  { intros q a Hout. unfold Dispatch.
    destruct (NextWorker h q) as [res q1] eqn:Hnw.
    destruct res as [[b|]|e| |m]; try done.
    destruct (h !! b) as [w|] eqn:Hb; [|done].
    destruct (Handle lib w req) as [res w1]. simpl.
    rewrite lookup_insert_ne; [done|]. intros ->. apply Hout.
    revert Hnw. unfold NextWorker.
    destruct (length (workers q) =? 0)%nat; [done|].
    destruct (nextLoop _ _ _ _ _) as [res1 nxt] eqn:Hrun. intros [= -> _].
    by destruct (nextLoop_sound _ _ _ _ _ _ _ Hrun) as [? | [_ ?]]. }
  subst p r. unfold Server_Dispatch. destruct (IsSlowRequest req).
  - specialize (Houtside (slowPool s)).
    destruct (Dispatch lib h (slowPool s) req) as [[res h1] p1] eqn:Hd.
    split; [done|]. split; [done|]. intros Hnone.
    revert Hd. unfold Dispatch. rewrite (NextWorker_none h _ Hoks Hnone).
    intros [= <- <- <-]. by destruct s.
  - specialize (Houtside (fastPool s)).
    destruct (Dispatch lib h (fastPool s) req) as [[res h1] p1] eqn:Hd.
    split; [done|]. split; [done|]. intros Hnone.
    revert Hd. unfold Dispatch. rewrite (NextWorker_none h _ Hokf Hnone).
    intros [= <- <- <-]. by destruct s.
Qed.

Lemma twoPools_full : pool_full healthyHeap (fastPool twoPools) /\
                      pool_full healthyHeap (slowPool twoPools).
Proof.
  split; intros slot Hin; simpl in Hin.
  - apply elem_of_cons in Hin as [->|Hin]; [by exists 0%nat, w_healthy|].
    apply elem_of_cons in Hin as [->|Hin]; [by exists 1%nat, w_healthy|].
    by apply elem_of_nil in Hin.
  - apply elem_of_cons in Hin as [->|Hin]; [by exists 2%nat, w_healthy|].
    by apply elem_of_nil in Hin.
Qed.

Lemma markAllWorkersDead_stops_service_witness :
  pool_full healthyHeap (fastPool twoPools) /\
  exists h', markAllWorkersDead healthyHeap twoPools = (Done tt, h') /\
    Server_Dispatch exampleLib h' twoPools exampleRequest
      = (Failed ErrNoWorkers, h', twoPools).
Proof.
  split; [exact (proj1 twoPools_full)|].
  assert (Hokf : cursor_ok (fastPool twoPools)) by (left; simpl; lia).
  assert (Hoks : cursor_ok (slowPool twoPools)) by (left; simpl; lia).
  destruct (markAllWorkersDead_stops_service healthyHeap twoPools
              (proj1 twoPools_full) (proj2 twoPools_full) Hokf Hoks)
    as (h' & Hrun & _ & _ & _ & Hdisp).
  exists h'. split; [exact Hrun | exact (Hdisp exampleLib exampleRequest)].
Defined.

Lemma markAllWorkersDead_nil_slot_witness :
  None ∈ workers (fastPool nilSlotPools) /\
  fst (markAllWorkersDead healthyHeap nilSlotPools)
    = Panic "invalid memory address or nil pointer dereference".
Proof.
  assert (Hnil : None ∈ workers (fastPool nilSlotPools)).
  { simpl. apply list_elem_of_further, list_elem_of_here. }
  split; [exact Hnil|].
  refine (markAllWorkersDead_nil_slot healthyHeap nilSlotPools _ Hnil).
  intros a Hin. simpl in Hin.
  apply elem_of_cons in Hin as [[= ->]|Hin]; [by exists w_healthy|].
  apply elem_of_cons in Hin as [[=]|Hin]. by apply elem_of_nil in Hin.
Defined.

Lemma Server_Dispatch_keeps_to_one_pool_witness :
  IsSlowRequest slowRequest = true /\
  Server_Dispatch exampleLib (<[2%nat := w_dead]> healthyHeap) twoPools slowRequest
    = (Failed ErrNoWorkers, <[2%nat := w_dead]> healthyHeap, twoPools).
Proof.
  split; [reflexivity|].
  assert (Hokf : cursor_ok (fastPool twoPools)) by (left; simpl; lia).
  assert (Hoks : cursor_ok (slowPool twoPools)) by (left; simpl; lia).
  refine (proj2 (proj2 (Server_Dispatch_keeps_to_one_pool exampleLib
            (<[2%nat := w_dead]> healthyHeap) twoPools slowRequest
            Hokf Hoks)) _).
  intros slot Hin. simpl in Hin.
  apply elem_of_cons in Hin as [->|Hin]; [reflexivity|].
  by apply elem_of_nil in Hin.
Defined.

(** ** Building a pool *)

Section NewPoolFacts.

Variable base : string.
Variable envs : nat -> nat -> error + Proc.
Variables maxReq timeout : Z.





End NewPoolFacts.



(** ** Hub: subscriptions and fan-out *)

Lemma trySend_lookup (ev : sseEvent) (c c' : addr) (st : gmap addr sseClient) :
  trySend ev c st !! c' =
    if decide (c' = c) then deliver ev <$> st !! c' else st !! c'.
Proof.
  unfold trySend. destruct (decide (c' = c)) as [->|Hne].
  - destruct (st !! c) as [cl|] eqn:Hc; [|by rewrite Hc]. simpl.
    unfold deliver. destruct (length (ch cl) <? clientCap)%nat.
    + by rewrite lookup_insert_eq.
    + done.
  - destruct (st !! c) as [cl|]; [|done].
    destruct (length (ch cl) <? clientCap)%nat; [|done].
    by rewrite lookup_insert_ne.
Qed.

Lemma foldr_trySend (ev : sseEvent) (st : gmap addr sseClient) (l : list addr) :
  NoDup l -> forall c,
  foldr (trySend ev) st l !! c =
    if bool_decide (c ∈ l) then deliver ev <$> st !! c else st !! c.
Proof.
  induction 1 as [|c0 l Hnotin Hnd IH]; intros c.
  { by rewrite bool_decide_eq_false_2 by (apply not_elem_of_nil). }
  cbn [foldr]. rewrite trySend_lookup. destruct (decide (c = c0)) as [->|Hne].
  - rewrite IH, (bool_decide_eq_false_2 _ Hnotin).
    by rewrite bool_decide_eq_true_2 by (apply list_elem_of_here).
  - rewrite IH.
    apply (f_equal (fun b : bool => if b then deliver ev <$> st !! c else st !! c)).
    apply bool_decide_ext. rewrite elem_of_cons.
    split; [by right | intros [?|?]; done].
Qed.

Lemma fanout_clients (h : SSEHub) (ev : sseEvent) : clients (fanout h ev) = clients h.
Proof. unfold fanout. by destruct (clients h !! ev_Channel ev). Qed.

Lemma fanout_store (h : SSEHub) (ev : sseEvent) (c : addr) :
  store (fanout h ev) !! c =
    if subscribed h c ev then deliver ev <$> store h !! c else store h !! c.
Proof.
  unfold fanout, subscribed.
  destruct (clients h !! ev_Channel ev) as [subs|]; [|done].
  cbn [store]. unfold set_fold. cbn [compose].
  rewrite foldr_trySend by apply NoDup_elements.
  apply (f_equal (fun b : bool =>
                    if b then deliver ev <$> store h !! c else store h !! c)).
  apply bool_decide_ext, elem_of_elements.
Qed.

Lemma run_clients (h : SSEHub) (evs : list sseEvent) : clients (run h evs) = clients h.
Proof.
  revert h. induction evs as [|ev evs IH]; intros h; [done|].
  unfold run in *. cbn [fold_left]. by rewrite IH, fanout_clients.
Qed.

Lemma subscribed_clients (h h' : SSEHub) (c : addr) (ev : sseEvent) :
  clients h' = clients h -> subscribed h' c ev = subscribed h c ev.
Proof. unfold subscribed. by intros ->. Qed.

Lemma run_snoc (h : SSEHub) (evs : list sseEvent) (ev : sseEvent) :
  run h (evs ++ [ev]) = fanout (run h evs) ev.
Proof. unfold run. by rewrite fold_left_app. Qed.

Lemma run_not_subscribed (evs : list sseEvent) (c : addr) :
  forall h, (forall ev, ev ∈ evs -> subscribed h c ev = false) ->
  store (run h evs) !! c = store h !! c.
Proof.
  induction evs as [|ev evs IH]; intros h Hnot; [done|].
  unfold run in *. cbn [fold_left]. rewrite IH.
  - by rewrite fanout_store, (Hnot ev) by (apply list_elem_of_here).
  - intros ev' Hin. rewrite (subscribed_clients h) by apply fanout_clients.
    apply Hnot. by apply list_elem_of_further.
Qed.

Lemma run_queue (evs : list sseEvent) (c : addr) :
  forall (h : SSEHub) (cl : sseClient),
  store h !! c = Some cl -> (length (ch cl) <= clientCap)%nat ->
  store (run h evs) !! c =
    Some {| ch := take clientCap (ch cl ++ List.filter (subscribed h c) evs);
            done := done cl |}.
Proof.
  induction evs as [|ev evs IH]; intros h cl Hc Hlen.
  { simpl. rewrite app_nil_r, take_ge by done. rewrite Hc. by destruct cl. }
  unfold run in *. cbn [fold_left List.filter].
  assert (Hsub : forall e, subscribed (fanout h ev) c e = subscribed h c e).
  { intros e. apply subscribed_clients, fanout_clients. }
  assert (Hfilter : List.filter (subscribed (fanout h ev) c) evs
                    = List.filter (subscribed h c) evs).
  { apply List.filter_ext. intros e. apply Hsub. }
  pose proof (fanout_store h ev c) as Hst. rewrite Hc in Hst.
  destruct (subscribed h c ev) eqn:Hs.
  - simpl in Hst. unfold deliver in Hst.
    destruct (length (ch cl) <? clientCap)%nat eqn:Hroom.
    + apply Nat.ltb_lt in Hroom.
      rewrite (IH _ _ Hst); cbn [ch done].
      * by rewrite Hfilter, <- app_assoc.
      * rewrite length_app. simpl. lia.
    + apply Nat.ltb_ge in Hroom.
      rewrite (IH _ _ Hst Hlen), Hfilter.
      by rewrite !take_app_le by lia.
  - rewrite (IH _ _ Hst Hlen). by rewrite Hfilter.
Qed.

Lemma hub_wf_New : hub_wf NewSSEHub.
Proof. intros channel subs Hl. cbn in Hl. by rewrite lookup_empty in Hl. Qed.

Lemma hub_wf_Subscribe (h : SSEHub) (channel : string) :
  hub_wf h -> hub_wf (snd (Subscribe h channel)).
Proof.
  intros Hwf ch' subs. cbn [Subscribe snd clients store].
  destruct (decide (ch' = channel)) as [->|Hne].
  - rewrite lookup_insert_eq. intros [= <-]. split.
    { intros Hempty.
      apply (not_elem_of_empty (C := gset addr) (fresh (dom (store h)))).
      rewrite <- Hempty. apply elem_of_union_l. by apply elem_of_singleton_2. }
    intros c Hin. apply elem_of_union in Hin as [Hin|Hin].
    + apply elem_of_singleton in Hin as ->. by rewrite lookup_insert_eq.
    + apply lookup_insert_is_Some'. right.
      destruct (clients h !! channel) as [subs0|] eqn:Hsubs; simpl in Hin.
      * by apply (Hwf _ _ Hsubs).
      * by apply elem_of_empty in Hin.
  - rewrite lookup_insert_ne by done. intros Hl.
    destruct (Hwf _ _ Hl) as [Hnon Hex]. split; [done|].
    intros c Hin. apply lookup_insert_is_Some'. right. by apply Hex.
Qed.

Lemma hub_wf_Unsubscribe (h h' : SSEHub) (channel : string) (c : addr) :
  hub_wf h -> Unsubscribe h channel c = (Done tt, h') -> hub_wf h'.
Proof.
  intros Hwf. unfold Unsubscribe.
  destruct (clients h !! channel) as [subs|] eqn:Hsubs; [|by intros [= <-]].
  destruct (store h !! c) as [cl|] eqn:Hc; [|done].
  destruct (done cl); [|done].
  destruct (size (subs ∖ {[c]}) =? 0)%nat eqn:Hsize; intros [= <-];
    intros ch' subs'; cbn [clients store].
  - destruct (decide (ch' = channel)) as [->|Hne].
    + by rewrite lookup_delete_eq.
    + rewrite lookup_delete_ne by done. intros Hl.
      destruct (Hwf _ _ Hl) as [Hnon Hex]. split; [done|].
      intros c' Hin. apply lookup_insert_is_Some'. right. by apply Hex.
  - destruct (decide (ch' = channel)) as [->|Hne].
    + rewrite lookup_insert_eq. intros [= <-]. split.
      * intros Hempty. apply Nat.eqb_neq in Hsize. apply Hsize.
        by apply size_empty_iff, leibniz_equiv_iff.
      * intros c' Hin. apply lookup_insert_is_Some'. right.
        apply (proj2 (Hwf _ _ Hsubs)). by apply elem_of_difference in Hin as [? _].
    + rewrite lookup_insert_ne by done. intros Hl.
      destruct (Hwf _ _ Hl) as [Hnon Hex]. split; [done|].
      intros c' Hin. apply lookup_insert_is_Some'. right. by apply Hex.
Qed.

Lemma hub_wf_run (evs : list sseEvent) :
  forall h, hub_wf h -> hub_wf (run h evs).
Proof.
  induction evs as [|ev evs IH]; intros h Hwf; [done|].
  unfold run in *. cbn [fold_left]. apply IH.
  intros channel subs. rewrite fanout_clients. intros Hl.
  destruct (Hwf _ _ Hl) as [Hnon Hex]. split; [done|].
  intros c Hin. rewrite fanout_store.
  destruct (subscribed h c ev); [|by apply Hex].
  apply fmap_is_Some. by apply Hex.
Qed.

Lemma hub3_wf : hub_wf hub3.
Proof.
  unfold hub3, hub2, hub1.
  do 3 apply hub_wf_Subscribe. apply hub_wf_New.
Qed.

(** X18.  The hub's map stays well formed: in the new hub, and after
    [Subscribe], after an [Unsubscribe] that returns, and after [run] has
    fanned out any events, no channel is left with an empty set of
    subscribers and every registered client exists. *)
Theorem hub_wf_kept (h : SSEHub) :
  hub_wf NewSSEHub /\
  (hub_wf h ->
   (forall channel, hub_wf (snd (Subscribe h channel))) /\
   (forall channel c h', Unsubscribe h channel c = (Done tt, h') -> hub_wf h') /\
   (forall evs, hub_wf (run h evs))).
Proof.
  split; [apply hub_wf_New|]. intros Hwf. split; [|split].
  - intros channel. by apply hub_wf_Subscribe.
  - intros channel c h'. by apply hub_wf_Unsubscribe.
  - intros evs. by apply hub_wf_run.
Qed.

Lemma hub_wf_kept_witness :
  hub_wf hub3 /\ hub_wf (run hub3 [newsEvent 1; sportEvent]).
Proof.
  split; [exact hub3_wf|].
  exact (proj2 (proj2 (proj2 (hub_wf_kept hub3) hub3_wf)) [newsEvent 1; sportEvent]).
Defined.

(** X19.  A subscription undone: [Subscribe] returns a client that did not
    exist, with an empty buffer and an open done channel, subscribed to its
    channel only, and changes nobody else's subscriptions; [Unsubscribe] of
    that client from that channel returns, closes its done channel and
    leaves the channel map exactly as it was before the [Subscribe]. *)
Theorem Subscribe_then_Unsubscribe (h : SSEHub) (channel : string) :
  hub_wf h ->
  let c := fst (Subscribe h channel) in
  let h1 := snd (Subscribe h channel) in
  store h !! c = None /\
  store h1 !! c = Some {| ch := []; done := ChanOpen |} /\
  (forall ev, subscribed h1 c ev = bool_decide (ev_Channel ev = channel)) /\
  (forall c' ev, c' <> c -> subscribed h1 c' ev = subscribed h c' ev) /\
  exists h2,
    Unsubscribe h1 channel c = (Done tt, h2) /\
    clients h2 = clients h /\
    doneOf h2 c = Some ChanClosed /\
    (forall c', c' <> c -> store h2 !! c' = store h !! c').
Proof.
  intros Hwf c h1. subst c h1. unfold Subscribe. cbn [fst snd].
  set (c := fresh (dom (store h))).
  set (subs0 := default ∅ (clients h !! channel)).
  assert (Hfresh : store h !! c = None) by (apply not_elem_of_dom, is_fresh).
  assert (Hnotin : forall ch' subs, clients h !! ch' = Some subs -> c ∉ subs).
  { intros ch' subs Hl Hin. destruct (proj2 (Hwf _ _ Hl) c Hin) as [cl Hcl].
    congruence. }
  assert (Hc0 : c ∉ subs0).
  { unfold subs0. destruct (clients h !! channel) as [subs|] eqn:Hl; simpl.
    - by eapply Hnotin.
    - apply not_elem_of_empty. }
  split; [done|]. split; [by apply lookup_insert_eq|]. split; [|split].
  - intros ev. unfold subscribed. cbn [clients].
    destruct (decide (ev_Channel ev = channel)) as [Heq|Hne].
    + rewrite Heq, lookup_insert_eq.
      rewrite bool_decide_eq_true_2 by (apply elem_of_union_l, elem_of_singleton_2; done).
      by rewrite bool_decide_eq_true_2.
    + rewrite lookup_insert_ne by done.
      rewrite (bool_decide_eq_false_2 _ Hne).
      destruct (clients h !! ev_Channel ev) as [subs|] eqn:Hl; [|done].
      apply bool_decide_eq_false_2. by eapply Hnotin.
  - intros c' ev Hne. unfold subscribed. cbn [clients].
    destruct (decide (ev_Channel ev = channel)) as [Heq|Hch].
    + rewrite Heq, lookup_insert_eq.
      unfold subs0. destruct (clients h !! channel) as [subs|]; simpl.
      * apply bool_decide_ext. rewrite elem_of_union, elem_of_singleton.
        split; [intros [?|?]; done | by right].
      * apply bool_decide_eq_false_2.
        rewrite elem_of_union, elem_of_singleton.
        intros [?|Hin]; [done|]. by apply elem_of_empty in Hin.
    + by rewrite lookup_insert_ne.
  - unfold Unsubscribe. cbn [clients store].
    rewrite !lookup_insert_eq. cbn [done ch].
    assert (Hback : ({[c]} ∪ subs0) ∖ {[c]} = subs0).
    { apply set_eq. intros x.
      rewrite elem_of_difference, elem_of_union, elem_of_singleton.
      split; [intros [[?|?] ?]; done|].
      intros Hx. split; [by right|]. by intros ->. }
    rewrite Hback.
    destruct (clients h !! channel) as [subs|] eqn:Hl.
    + assert (Hsize : (size subs0 =? 0)%nat = false).
      { apply Nat.eqb_neq. intros Hz. apply size_empty_iff in Hz.
        apply leibniz_equiv_iff in Hz. unfold subs0 in Hz. simpl in Hz.
        by destruct (Hwf _ _ Hl). }
      rewrite Hsize. eexists. split; [done|]. cbn [clients store].
      split; [|split].
      * rewrite insert_insert_eq. by apply insert_id.
      * unfold doneOf. cbn [store]. by rewrite lookup_insert_eq.
      * intros c' Hne. by rewrite !lookup_insert_ne.
    + assert (Hsize : (size subs0 =? 0)%nat = true).
      { apply Nat.eqb_eq. change subs0 with (∅ : gset addr).
        by apply size_empty_iff. }
      rewrite Hsize. eexists. split; [done|]. cbn [clients store].
      split; [|split].
      * rewrite delete_insert_eq. by apply delete_id.
      * unfold doneOf. cbn [store]. by rewrite lookup_insert_eq.
      * intros c' Hne. by rewrite !lookup_insert_ne.
Qed.

Lemma Subscribe_then_Unsubscribe_witness :
  hub_wf hub3 /\
  exists h2,
    Unsubscribe (snd (Subscribe hub3 "news")) "news" (fst (Subscribe hub3 "news"))
      = (Done tt, h2) /\
    clients h2 = clients hub3.
Proof.
  split; [exact hub3_wf|].
  destruct (Subscribe_then_Unsubscribe hub3 "news" hub3_wf)
    as (_ & _ & _ & _ & h2 & Hrun & Hclients & _).
  exists h2. split; [exact Hrun | exact Hclients].
Defined.

(** X20.  [run] delivers in publication order and drops what does not fit:
    with nobody reading, a client's buffer after a batch of events is its
    old content followed by the events of the channels it is subscribed to,
    in order, cut at 16 entries; its done channel and the channel map are
    untouched, and a client subscribed to none of the events keeps its
    buffer. *)
Theorem run_delivers_in_order (h : SSEHub) (evs : list sseEvent) (c : addr)
    (cl : sseClient) :
  hub_wf h ->
  store h !! c = Some cl -> (length (ch cl) <= clientCap)%nat ->
  queueOf (run h evs) c
    = Some (take clientCap (ch cl ++ List.filter (subscribed h c) evs)) /\
  doneOf (run h evs) c = Some (done cl) /\
  clients (run h evs) = clients h /\
  ((forall ev, ev ∈ evs -> subscribed h c ev = false) ->
   queueOf (run h evs) c = Some (ch cl)).
Proof.
  intros _ Hc Hlen. unfold queueOf, doneOf.
  rewrite (run_queue evs c h cl Hc Hlen). cbn [fmap option_fmap option_map ch done].
  split; [done|]. split; [done|]. split; [apply run_clients|].
  intros Hnot. f_equal.
  pose proof (run_not_subscribed evs c h Hnot) as Hsame.
  rewrite (run_queue evs c h cl Hc Hlen), Hc in Hsame.
  injection Hsame as Heq. by apply (f_equal ch) in Heq.
Qed.

Lemma run_delivers_in_order_witness :
  hub_wf hub3 /\
  store hub3 !! sub0 = Some {| ch := []; done := ChanOpen |} /\
  queueOf (run hub3 [newsEvent 1; sportEvent; newsEvent 2]) sub0
    = Some [newsEvent 1; newsEvent 2].
Proof.
  assert (Hc : store hub3 !! sub0 = Some {| ch := []; done := ChanOpen |})
    by (vm_compute; reflexivity).
  split; [exact hub3_wf|]. split; [exact Hc|].
  assert (Hlen : (length (ch {| ch := []; done := ChanOpen |}) <= clientCap)%nat)
    by (vm_compute; lia).
  etrans; [exact (proj1 (run_delivers_in_order hub3
                    [newsEvent 1; sportEvent; newsEvent 2] sub0 _ hub3_wf Hc Hlen))|].
  vm_compute. reflexivity.
Defined.

(** X21.  [Publish] followed by the fan-out: a payload that encodes, with
    room in the hub's queue of 256, is queued last with its encoding as
    data, and when [run] reaches it every subscriber of the channel with
    room in its buffer gets it at the end of the buffer, while full buffers
    and other clients are left as they are.  With the queue full the
    publisher waits; a payload that does not encode is dropped and nothing
    is queued. *)
Theorem Publish_reaches_subscribers {A : Type} (marshal : A -> error + list byte)
    (incoming : list sseEvent) (channel event : string) (payload : A)
    (h : SSEHub) :
  hub_wf h ->
  (forall data, marshal payload = inr data ->
     let ev := {| ev_Channel := channel; ev_Event := event; ev_Data := data |} in
     ((length incoming < incomingCap)%nat ->
      Publish marshal incoming channel event payload = Done (incoming ++ [ev]) /\
      forall c q, queueOf (run h incoming) c = Some q ->
        queueOf (run h (incoming ++ [ev])) c =
          Some (if subscribed h c ev && (length q <? clientCap)%nat
                then q ++ [ev] else q)) /\
     ((incomingCap <= length incoming)%nat ->
      Publish marshal incoming channel event payload = Blocked)) /\
  (forall e, marshal payload = inl e ->
     Publish marshal incoming channel event payload = Done incoming).
Proof.
  intros _. split.
  - intros data Hdata ev. unfold Publish. rewrite Hdata. split.
    + intros Hroom.
      replace (length incoming <? incomingCap)%nat with true
        by (symmetry; by apply Nat.ltb_lt).
      split; [done|]. intros c q. unfold queueOf.
      rewrite run_snoc, fanout_store.
      rewrite (subscribed_clients h) by apply run_clients.
      destruct (store (run h incoming) !! c) as [cl|]; [|done].
      simpl. intros [= <-]. destruct (subscribed h c ev); [|done].
      simpl. unfold deliver. by destruct (length (ch cl) <? clientCap)%nat.
    + intros Hfull.
      by replace (length incoming <? incomingCap)%nat with false
        by (symmetry; by apply Nat.ltb_ge).
  - intros e He. unfold Publish. by rewrite He.
Qed.

Lemma Publish_reaches_subscribers_witness :
  hub_wf hub3 /\
  (length (@nil sseEvent) < incomingCap)%nat /\
  forall q, queueOf (run hub3 []) sub2 = Some q ->
    queueOf (run hub3 ([] ++ [sportEvent])) sub2 =
      Some (if subscribed hub3 sub2 sportEvent && (length q <? clientCap)%nat
            then q ++ [sportEvent] else q).
Proof.
  assert (Hroom : (length (@nil sseEvent) < incomingCap)%nat)
    by (vm_compute; lia).
  split; [exact hub3_wf|]. split; [exact Hroom|].
  exact (proj2 (proj1 (proj1 (Publish_reaches_subscribers
                  (fun _ : unit => inr []) [] "sport" "score" tt hub3 hub3_wf)
                  [] eq_refl) Hroom) sub2).
Defined.

(** X22.  An [Unsubscribe] that finds the channel takes the client off
    that channel and changes nothing else: events of the channel no longer
    reach the client, whose buffer keeps what it held; the client's other
    subscriptions and every other client's subscriptions are as before. *)
Theorem Unsubscribe_stops_delivery (h h' : SSEHub) (channel : string) (c : addr)
    (subs : gset addr) :
  hub_wf h ->
  clients h !! channel = Some subs ->
  Unsubscribe h channel c = (Done tt, h') ->
  (forall ev, ev_Channel ev = channel -> subscribed h' c ev = false) /\
  (forall ev, ev_Channel ev <> channel -> subscribed h' c ev = subscribed h c ev) /\
  (forall c' ev, c' <> c -> subscribed h' c' ev = subscribed h c' ev) /\
  (forall evs, (forall ev, ev ∈ evs -> ev_Channel ev = channel) ->
     queueOf (run h' evs) c = queueOf h c).
Proof.
  intros _ Hsubs. unfold Unsubscribe. rewrite Hsubs.
  destruct (store h !! c) as [cl|] eqn:Hc; [|done].
  destruct (done cl); [|done].
  intros [= <-].
  set (h' := {| clients := _; store := _ |}).
  assert (Hlook : forall ch', ch' <> channel -> clients h' !! ch' = clients h !! ch').
  { intros ch' Hne. unfold h'. cbn [clients].
    destruct (size (subs ∖ {[c]}) =? 0)%nat.
    - by rewrite lookup_delete_ne.
    - by rewrite lookup_insert_ne. }
  assert (Hat : clients h' !! channel = None /\ subs ∖ {[c]} = ∅ \/
                clients h' !! channel = Some (subs ∖ {[c]})).
  { unfold h'. cbn [clients].
    destruct (size (subs ∖ {[c]}) =? 0)%nat eqn:Hsize.
    - left. rewrite lookup_delete_eq. split; [done|].
      apply Nat.eqb_eq in Hsize. by apply leibniz_equiv, size_empty_iff.
    - right. by rewrite lookup_insert_eq. }
  assert (Hoff : forall ev, ev_Channel ev = channel -> subscribed h' c ev = false).
  { intros ev Hev. unfold subscribed. rewrite Hev.
    destruct Hat as [[-> _] | ->]; [done|].
    apply bool_decide_eq_false_2. rewrite elem_of_difference, elem_of_singleton.
    by intros [_ ?]. }
  split; [done|]. split; [|split].
  - intros ev Hev. unfold subscribed. by rewrite Hlook.
  - intros c' ev Hne. unfold subscribed.
    destruct (decide (ev_Channel ev = channel)) as [Hev|Hev].
    + rewrite Hev, Hsubs. destruct Hat as [[-> Hempty] | ->].
      * symmetry. apply bool_decide_eq_false_2. intros Hin.
        apply (not_elem_of_empty (C := gset addr) c'). rewrite <- Hempty.
        rewrite elem_of_difference, elem_of_singleton. by split.
      * apply bool_decide_ext. rewrite elem_of_difference, elem_of_singleton.
        split; [by intros [? _] | by split].
    + by rewrite Hlook.
  - intros evs Hevs. unfold queueOf.
    rewrite run_not_subscribed by (intros ev Hin; by apply Hoff, Hevs).
    unfold h'. cbn [store]. by rewrite lookup_insert_eq, Hc.
Qed.

Lemma Unsubscribe_stops_delivery_witness :
  hub_wf hub3 /\
  clients hub3 !! "news" = Some ({[sub1]} ∪ ({[sub0]} ∪ ∅)) /\
  queueOf (run (snd (Unsubscribe hub3 "news" sub0)) [newsEvent 1; newsEvent 2]) sub0
    = queueOf hub3 sub0.
Proof.
  assert (Hsubs : clients hub3 !! "news" = Some ({[sub1]} ∪ ({[sub0]} ∪ ∅)))
    by (vm_compute; reflexivity).
  split; [exact hub3_wf|]. split; [exact Hsubs|].
  destruct (Unsubscribe hub3 "news" sub0) as [res h1] eqn:Hrun.
  assert (Hres : res = Done tt).
  { apply (f_equal fst) in Hrun. simpl in Hrun. rewrite <- Hrun.
    vm_compute. reflexivity. }
  subst res.
  refine (proj2 (proj2 (proj2 (Unsubscribe_stops_delivery hub3 h1 "news" sub0 _
                                 hub3_wf Hsubs Hrun))) [newsEvent 1; newsEvent 2] _).
  intros ev Hin.
  apply elem_of_cons in Hin as [->|Hin]; [reflexivity|].
  apply elem_of_cons in Hin as [->|Hin]; [reflexivity|].
  by apply elem_of_nil in Hin.
Defined.

(** ** Draining a worker that is serving *)

Lemma drained_in_call (v : Worker) :
  in_call v ->
  isDead (complete (startDraining v)) = true /\
  state (complete (startDraining v)) = WorkerDead /\
  inFlight (complete (startDraining v)) = 0 /\
  cmd (complete (startDraining v)) = cmd v /\
  spawns (complete (startDraining v)) = spawns v.
Proof.
  unfold in_call, flags_agree, complete, startDraining, decrInFlight, isDead,
    isDraining, getInFlight.
  destruct v as [p base d k t c s n kids sp]. simpl.
  intros (Hfl & Hnd & Hag).
  destruct s; try done; destruct d;
    try (by (assert (true = true) as Ht by done; apply Hag in Ht));
    try (by (assert (WorkerDead = WorkerDead) as Ht by done; apply Hag in Ht));
    destruct Hfl as [-> | ->]; by simpl.
Qed.

Lemma in_call_streamInternal (lib : GoLib) (w : Worker) (req : RequestPayload)
    (rw : Sink) :
  in_call w -> in_call (snd (fst (streamInternal lib w req rw))).
Proof.
  intros Hin. unfold streamInternal. destruct (isDead w); [done|].
  destruct (sendRequest lib (cmd w) req) as [[e|] p2]; [done|].
  destruct (streamLoop lib _ _ _ _) as [[[res w1] rw1]|] eqn:Hloop; [|done].
  simpl. eapply in_call_streamLoop; [|exact Hloop]. done.
Qed.

(** X23.  A worker that is drained while it serves a call (by [DrainAll]
    or a shrinking [ScaleTo], between the body of the call and its deferred
    function) is dead when the call returns, with nothing in flight, and
    refuses every later [Handle] and [Stream]; its child is the one the call
    left, neither stopped nor replaced. *)
Theorem drain_during_call (lib : GoLib) (w : Worker) (req : RequestPayload)
    (rw : Sink) :
  isDead w = false -> inFlight w = 0 ->
  let ends_dead (v : Worker) :=
    let v' := complete (startDraining v) in
    isDead v' = true /\ state v' = WorkerDead /\ inFlight v' = 0 /\
    cmd v' = cmd v /\ spawns v' = spawns v /\
    (forall req' rw',
       Handle lib v' req' = (Failed ErrWorkerDead, v') /\
       Stream lib v' req' rw' = (Failed ErrWorkerDead, v', rw')) in
  ends_dead (snd (handleLoop lib 2 (enter w) req)) /\
  ends_dead (snd (fst (streamInternal lib (enter w) req rw))).
Proof.
  intros Hd Hfl ends_dead. pose proof (in_call_enter w Hd Hfl) as Hin.
  assert (Hends : forall v, in_call v -> ends_dead v).
  { intros v Hv. destruct (drained_in_call v Hv) as (H1 & H2 & H3 & H4 & H5).
    unfold ends_dead. repeat (split; [done|]).
    intros req' rw'. split; [by apply Handle_dead | by apply Stream_dead]. }
  split; apply Hends.
  - by apply in_call_handleLoop.
  - by apply in_call_streamInternal.
Qed.

Lemma drain_during_call_witness :
  isDead w_healthy = false /\
  isDead (complete (startDraining
            (snd (handleLoop exampleLib 2 (enter w_healthy) exampleRequest)))) = true.
Proof.
  split; [reflexivity|].
  exact (proj1 (proj1 (drain_during_call exampleLib w_healthy exampleRequest
                         emptySink eq_refl eq_refl))).
Defined.

(** ** Pool: scaling and statistics *)

Lemma NextWorker_Done_in (h : gmap addr Worker) (p : WorkerPool) :
  cursor_ok p ->
  exists slot, fst (NextWorker h p) = Done slot /\
    (slot = None \/ (selectable h slot = true /\ slot ∈ workers p)).
Proof.
  intros [Hn | [Hnil _]]; unfold NextWorker.
  - replace (length (workers p) =? 0)%nat with false
      by (symmetry; apply Nat.eqb_neq; lia).
    destruct (nextLoop_Done h (workers p) (length (workers p)) (next p) Hn)
      as (slot & nxt' & Hrun).
    rewrite Hrun. exists slot. split; [done|].
    by apply (nextLoop_sound h _ _ _ _ _ _ Hrun).
  - rewrite Hnil. exists None. split; [done | by left].
Qed.

(** X24.  After a [ScaleTo] on a pool whose cursor is in range, whatever
    its outcome, the cursor is still in range and the next [NextWorker]
    returns without indexing outside the list.  After a shrink to [n] slots
    it hands out only workers of the first [n] slots: a worker that sat only
    in a removed slot is never selected again. *)
Theorem ScaleTo_then_NextWorker {S : Type} (s : S) (h : gmap addr Worker)
    (p : WorkerPool) (n : Z) (factory : option (@Factory S)) :
  cursor_ok p ->
  let r := ScaleTo s h p n factory in
  let h' := snd (fst r) in
  let p' := snd r in
  cursor_ok p' /\
  (exists slot, fst (NextWorker h' p') = Done slot /\
     (slot = None \/ (selectable h' slot = true /\ slot ∈ workers p'))) /\
  (0 <= n < Z.of_nat (length (workers p)) ->
   workers p' = take (Z.to_nat n) (workers p) /\
   forall a, Some a ∉ take (Z.to_nat n) (workers p) ->
     fst (NextWorker h' p') <> Done (Some a)).
Proof.
  intros Hok r h' p'.
  assert (Hok' : cursor_ok p') by (by apply cursor_ok_ScaleTo).
  pose proof (NextWorker_Done_in h' p' Hok') as Hnext.
  split; [done|]. split; [done|]. intros Hn.
  assert (Hws : workers p' = take (Z.to_nat n) (workers p)).
  { unfold p', r, ScaleTo.
    replace (n =? Z.of_nat (length (workers p))) with false
      by (symmetry; apply Z.eqb_neq; lia).
    replace (n <? Z.of_nat (length (workers p))) with true
      by (symmetry; apply Z.ltb_lt; lia).
    by replace (n <? 0) with false by (symmetry; apply Z.ltb_ge; lia). }
  split; [done|]. intros a Hout Hres.
  destruct Hnext as (slot & Hslot & Hcase).
  rewrite Hres in Hslot. injection Hslot as <-.
  destruct Hcase as [? | [_ Hin]]; [done|].
  apply Hout. by rewrite <- Hws.
Qed.

Lemma ScaleTo_then_NextWorker_witness :
  cursor_ok threePool /\
  cursor_ok (snd (ScaleTo 0%nat healthyHeap threePool 1 (@None (@Factory nat)))).
Proof.
  assert (Hok : cursor_ok threePool) by (left; simpl; lia).
  split; [exact Hok|].
  exact (proj1 (ScaleTo_then_NextWorker 0%nat healthyHeap threePool 1 None Hok)).
Defined.

Lemma countDead_le (h : gmap addr Worker) (ws : list (option addr)) :
  (countDead h ws <= length ws)%nat.
Proof.
  induction ws as [|slot rest IH]; simpl; [done|].
  destruct (match slot with
            | Some a => match h !! a with
                        | Some w => isDead w
                        | None => false
                        end
            | None => false
            end); lia.
Qed.

Lemma countDead_full (h : gmap addr Worker) (ws : list (option addr)) :
  countDead h ws = length ws ->
  forall slot, slot ∈ ws -> selectable h slot = false.
Proof.
  induction ws as [|s0 rest IH]; intros Hall slot Hin.
  { by apply elem_of_nil in Hin. }
  simpl in Hall. pose proof (countDead_le h rest) as Hle.
  destruct (match s0 with
            | Some a => match h !! a with
                        | Some w => isDead w
                        | None => false
                        end
            | None => false
            end) eqn:Hdead; [|lia].
  apply elem_of_cons in Hin as [->|Hin].
  - destruct s0 as [a|]; [|done]. simpl.
    destruct (h !! a) as [w|]; [|done]. by rewrite Hdead.
  - apply IH; [lia | done].
Qed.

(** X25.  [Stats] never counts more dead workers than slots (nil slots
    are counted as slots and not as dead), and when it counts every slot as
    dead the pool gives no worker: [Dispatch] returns [ErrNoWorkers] and
    changes nothing. *)
Theorem Stats_all_dead (lib : GoLib) (h : gmap addr Worker) (p : WorkerPool)
    (req : RequestPayload) :
  cursor_ok p ->
  (stats_DeadWorkers (Stats h p) <= stats_Workers (Stats h p))%nat /\
  (stats_DeadWorkers (Stats h p) = stats_Workers (Stats h p) ->
   NextWorker h p = (Done None, p) /\
   Dispatch lib h p req = (Failed ErrNoWorkers, h, p)).
Proof.
  intros Hok. split; [apply countDead_le|]. simpl. intros Hall.
  assert (Hnw : NextWorker h p = (Done None, p)).
  { apply NextWorker_none; [done|]. by apply countDead_full. }
  split; [done|]. unfold Dispatch. by rewrite Hnw.
Qed.

Lemma Stats_all_dead_witness :
  cursor_ok onePool /\
  Dispatch exampleLib {[ 0%nat := w_dead ]} onePool exampleRequest
    = (Failed ErrNoWorkers, {[ 0%nat := w_dead ]}, onePool).
Proof.
  assert (Hok : cursor_ok onePool) by (left; simpl; lia).
  split; [exact Hok|].
  exact (proj2 (proj2 (Stats_all_dead exampleLib {[ 0%nat := w_dead ]} onePool
                         exampleRequest Hok) eq_refl)).
Defined.
